(** * twitter-marketing-iftt: classification, dedup and retention engine

    A shallow embedding of the class [RTCleaner] (of the two versions in
    the source, the later one: six hours of retention, file rotation and
    the reply filter) and of the class [TelegramService], with the
    properties of the classifier, the sent-tweet tracker, the chat
    registry and the message formatter.  The earlier version of
    [RTCleaner] (a day of retention, no rotation, no reply filter) is
    embedded in [Earlier] and compared with the later one.

    JavaScript strings are sequences of UTF-16 code units; they are
    modelled as [list N].  Console output is not modelled. *)

From Stdlib Require Import NArith ZArith List Bool Lia.
From Stdlib Require Import Strings.String Strings.Ascii.
From stdpp Require Import base option list gmap sorting.

Local Open Scope N_scope.

(** ** JavaScript strings *)

Abbreviation jsstring := (list N).

(** An ASCII literal as a JavaScript string. *)
Fixpoint js (s : string) : jsstring :=
  match s with
  | EmptyString => []
  | String a s' => N_of_ascii a :: js s'
  end.

Module JsString.

(** [WhiteSpace] and [LineTerminator] of ECMAScript: what [trim] strips
    and what [\s] matches. *)
Definition isWhiteSpace (c : N) : bool :=
  ((9 <=? c) && (c <=? 13))
  || (c =? 32) || (c =? 160) || (c =? 5760)
  || ((8192 <=? c) && (c <=? 8202))
  || (c =? 8232) || (c =? 8233) || (c =? 8239) || (c =? 8287)
  || (c =? 12288) || (c =? 65279).

(** [\w]: [A-Za-z0-9_]. *)
Definition isWordChar (c : N) : bool :=
  ((48 <=? c) && (c <=? 57)) || ((65 <=? c) && (c <=? 90))
  || (c =? 95) || ((97 <=? c) && (c <=? 122)).

(** [\d]: [0-9]. *)
Definition isDigit (c : N) : bool := (48 <=? c) && (c <=? 57).

Fixpoint trimStart (s : jsstring) : jsstring :=
  match s with
  | c :: s' => if isWhiteSpace c then trimStart s' else s
  | [] => []
  end.

Definition trimEnd (s : jsstring) : jsstring := rev (trimStart (rev s)).

(** [String.prototype.trim]. *)
Definition trim (s : jsstring) : jsstring := trimEnd (trimStart s).

(** The lower-case image of one code unit.  Exact below 128 and on the
    two code points whose lower-case mapping contains a code unit below
    128 (U+0130 and U+212A).  Every other code unit is kept: its real
    image consists of code units from 128 on, so a search for an ASCII
    needle sees the same thing. *)
Definition lowerUnit (c : N) : jsstring :=
  if (65 <=? c) && (c <=? 90) then [c + 32]
  else if c =? 304 then [105; 775]
  else if c =? 8490 then [107]
  else [c].

(** [String.prototype.toLowerCase]. *)
Definition toLowerCase (s : jsstring) : jsstring := flat_map lowerUnit s.

Fixpoint startsWith (needle s : jsstring) : bool :=
  match needle, s with
  | [], _ => true
  | n :: needle', c :: s' => (n =? c) && startsWith needle' s'
  | _ :: _, [] => false
  end.

(** [String.prototype.includes]. *)
Fixpoint includes (needle s : jsstring) : bool :=
  startsWith needle s ||
  match s with
  | _ :: s' => includes needle s'
  | [] => false
  end.

(** [text.substring(0, n)]. *)
Definition substring0 (n : nat) (s : jsstring) : jsstring := take n s.

(** Surrogate code units, and strings in which every surrogate is half
    of a pair (well-formed UTF-16). *)
Definition isHighSurrogate (c : N) : bool := (55296 <=? c) && (c <=? 56319).
Definition isLowSurrogate (c : N) : bool := (56320 <=? c) && (c <=? 57343).

Fixpoint wellFormed (s : jsstring) : bool :=
  match s with
  | [] => true
  | c :: s' =>
      if isHighSurrogate c then
        match s' with
        | d :: s'' => isLowSurrogate d && wellFormed s''
        | [] => false
        end
      else negb (isLowSurrogate c) && wellFormed s'
  end.

End JsString.

(** ** Regular expressions

    The fragment of JavaScript regular expressions the source uses: a
    pattern anchored at the start ([^]), a sequence of atoms, each taken
    once or under [*] or [+], an optional [$], and the flag [i].  The
    patterns carry no capture and [test] only asks whether a match
    exists, so the backtracking order does not show. *)

Module RegExp.
Import JsString.

Inductive cls := Single (c : N) | WordCls | SpaceCls | DigitCls.

Inductive atom :=
| Lit (c : N)                (* a literal character *)
| Class (members : list cls) (* [\w], [\s], [\d], [[\w_]] *).

Inductive quant := Once | Star | Plus.

Record regexp := {
  items : list (atom * quant);
  anchorEnd : bool;
  ignoreCase : bool
}.

(** [Canonicalize] of a pattern without the [u] flag maps a code unit
    to its upper-case form, and never maps a code unit from 128 on to
    one below 128.  The patterns only list characters below 128 and
    white space (which has no case), so on them it is the ASCII map. *)
Definition upperUnit (c : N) : N :=
  if (97 <=? c) && (c <=? 122) then c - 32 else c.
Definition lowerAscii (c : N) : N :=
  if (65 <=? c) && (c <=? 90) then c + 32 else c.

Definition clsHas (m : cls) (c : N) : bool :=
  match m with
  | Single x => x =? c
  | WordCls => isWordChar c
  | SpaceCls => isWhiteSpace c
  | DigitCls => isDigit c
  end.

(** Some member of the class has the same canonical form as [c]. *)
Definition clsMatches (i : bool) (m : cls) (c : N) : bool :=
  clsHas m c || (i && (clsHas m (upperUnit c) || clsHas m (lowerAscii c))).

Definition atomMatches (i : bool) (a : atom) (c : N) : bool :=
  match a with
  | Lit x => clsMatches i (Single x) c
  | Class ms => existsb (fun m => clsMatches i m c) ms
  end.

(** A run under [*]: take as many characters as match, giving back one
    at a time until the rest of the pattern [k] matches. *)
Fixpoint starLoop (ok : N -> bool) (k : jsstring -> bool) (s : jsstring) : bool :=
  match s with
  | c :: s' => (ok c && starLoop ok k s') || k s
  | [] => k s
  end.

(** Match the items at the head of [s]. *)
Fixpoint matchHere (i : bool) (its : list (atom * quant)) (toEnd : bool)
    (s : jsstring) : bool :=
  match its with
  | [] => if toEnd then match s with [] => true | _ => false end else true
  | (a, Once) :: rest =>
      match s with
      | c :: s' => atomMatches i a c && matchHere i rest toEnd s'
      | [] => false
      end
  | (a, Star) :: rest =>
      starLoop (atomMatches i a) (matchHere i rest toEnd) s
  | (a, Plus) :: rest =>
      match s with
      | c :: s' =>
          atomMatches i a c
          && starLoop (atomMatches i a) (matchHere i rest toEnd) s'
      | [] => false
      end
  end.

(** [pattern.test(s)] for a pattern that starts with [^]. *)
Definition test (p : regexp) (s : jsstring) : bool :=
  matchHere (ignoreCase p) (items p) (anchorEnd p) s.

(** What it means for the items to match at the head of a string. *)
Inductive Matches (i : bool) : list (atom * quant) -> bool -> jsstring -> Prop :=
| MatchesOpen s : Matches i [] false s
| MatchesEnd : Matches i [] true []
| MatchesOnce a rest e c s :
    atomMatches i a c = true -> Matches i rest e s ->
    Matches i ((a, Once) :: rest) e (c :: s)
| MatchesStar a rest e run s :
    Forall (fun c => atomMatches i a c = true) run -> Matches i rest e s ->
    Matches i ((a, Star) :: rest) e (run ++ s)
| MatchesPlus a rest e c run s :
    atomMatches i a c = true ->
    Forall (fun c => atomMatches i a c = true) run -> Matches i rest e s ->
    Matches i ((a, Plus) :: rest) e (c :: run ++ s).

End RegExp.

(** ** The classifier ([RTCleaner.isRetweet], [RTCleaner.isReply]) *)

Module Classifier.
Import JsString RegExp.

Definition ch (a : ascii) : N := N_of_ascii a.

Definition lit (a : ascii) : atom * quant := (Lit (ch a), Once).
Definition spaces0 : atom * quant := (Class [SpaceCls], Star).   (* \s* *)
Definition spaces1 : atom * quant := (Class [SpaceCls], Plus).   (* \s+ *)
Definition word1 : atom * quant := (Class [WordCls], Plus).      (* \w+ *)
Definition wordu1 : atom * quant :=
  (Class [WordCls; Single (ch "_")], Plus).                      (* [\w_]+ *)

(** A pattern [/^.../i]. *)
Definition startI (its : list (atom * quant)) : regexp :=
  {| items := its; anchorEnd := false; ignoreCase := true |}.

Definition rtPatterns : list regexp := Eval cbv in
  [ startI [lit "R"; lit "T"; spaces0; lit "@"; word1; lit ":"];           (* /^RT\s*@\w+:/i *)
    startI [lit "R"; lit "T"; spaces1; lit "@"; word1; spaces0; lit ":"];  (* /^RT\s+@\w+\s*:/i *)
    startI [lit "r"; lit "t"; spaces0; lit "@"; word1; lit ":"];           (* /^rt\s*@\w+:/i *)
    startI [lit "r"; lit "t"; spaces1; lit "@"; word1; spaces0; lit ":"];  (* /^rt\s+@\w+\s*:/i *)
    startI [lit "R"; lit "T"; spaces0; lit "@"; wordu1; lit ":"];          (* /^RT\s*@[\w_]+:/i *)
    startI [lit "r"; lit "t"; spaces0; lit "@"; wordu1; lit ":"];          (* /^rt\s*@[\w_]+:/i *)
    startI [lit "R"; lit "T"; spaces0; lit "@"; word1; spaces1];           (* /^RT\s*@\w+\s+/i *)
    startI [lit "r"; lit "t"; spaces0; lit "@"; word1; spaces1]            (* /^rt\s*@\w+\s+/i *)
  ].

(** Whether a text is truthy: [undefined] and [''] are not. *)
Definition truthy (text : option jsstring) : bool :=
  match text with
  | Some (_ :: _) => true
  | _ => false
  end.

Definition isRetweet (text : option jsstring) : bool :=
  match text with
  | Some ((_ :: _) as t) =>
      let cleanText := trim t in
      existsb (fun pattern => test pattern cleanText) rtPatterns
  | _ => false
  end.

Definition replyPatterns : list regexp := Eval cbv in
  [ startI [lit "@"; word1];                                  (* /^@\w+/i *)
    startI [lit "@"; wordu1];                                 (* /^@[\w_]+/i *)
    startI [lit "@"; word1; (Class [SpaceCls], Once)];        (* /^@\w+\s/i *)
    startI [lit "@"; wordu1; (Class [SpaceCls], Once)]        (* /^@[\w_]+\s/i *)
  ].

Definition replyIndicators : list jsstring := Eval cbv in
  [ js "replying to"; js "in reply to"; js "responding to" ].

Definition isReply (text : option jsstring) : bool :=
  match text with
  | Some ((_ :: _) as t) =>
      let cleanText := trim t in
      let isReplyByMention :=
        existsb (fun pattern => test pattern cleanText) replyPatterns in
      let hasReplyIndicator :=
        existsb (fun indicator => includes indicator (toLowerCase cleanText))
                replyIndicators in
      isReplyByMention || hasReplyIndicator
  | _ => false
  end.

Inductive Category := Original | Retweet | Reply.

(** The category of a text, in the order the record filters of
    [sendNewTweets] and [deleteRetweetAndReplyRecords] test it: the
    retweet test first, the reply test only on what is no retweet. *)
Definition classify (text : option jsstring) : Category :=
  if isRetweet text then Retweet
  else if isReply text then Reply
  else Original.

End Classifier.

(** ** [Set] objects

    A JavaScript [Set] keeps its elements in insertion order and without
    repetition; [Array.from] lists them in that order. *)

Module JsSet.
Section JsSet.
Context {A : Type} `{EqDecision A}.

Definition has (s : list A) (x : A) : bool := bool_decide (x ∈ s).
Definition add (s : list A) (x : A) : list A := if has s x then s else s ++ [x].
Definition delete (s : list A) (x : A) : list A :=
  List.filter (fun y => negb (bool_decide (y = x))) s.
(** [new Set(array)]. *)
Definition ofArray (l : list A) : list A := foldl add [] l.
Definition size (s : list A) : nat := length s.

End JsSet.
End JsSet.

(** ** Records *)

(** [TwitterRecord] of [types.ts]; every field is optional. *)
Record TwitterRecord := {
  Text : option jsstring;
  UserName : option jsstring;
  LinkToTweet : option jsstring;
  CreatedAt : option jsstring
}.

(** A record as Airtable returns it: [record.id] and the fields that
    [record.get] reads. *)
Record AirtableRecord := {
  id : jsstring;
  fields : TwitterRecord
}.

(** A [Date]: its time value in milliseconds, or [None] for an invalid
    date (time value [NaN]). *)
Definition JsDate := option Z.

(** [a > b] on dates; a comparison with [NaN] is false. *)
Definition dateGt (a b : JsDate) : bool :=
  match a, b with
  | Some x, Some y => (y <? x)%Z
  | _, _ => false
  end.

(** [SentTweetTracker] of [types.ts]. *)
Record SentTweetTracker := {
  recordId : jsstring;
  sentAt : JsDate
}.


(** ** State and exceptions *)

(** A file of the working directory: its text, and whether it can be
    read.  Every entry of the directory is a plain file. *)
Record File := {
  data : jsstring;
  readable : bool
}.

(** The [code] of an error of node-telegram-bot-api. *)
Inductive ErrorCode := ETELEGRAM | EFATAL | EPARSE.

Inductive Error :=
| ENOENT          (* no such file *)
| EACCES          (* the file cannot be read *)
| EROFS           (* the directory cannot be written *)
| SyntaxError     (* [JSON.parse] *)
| FetchError      (* the Airtable request rejects *)
| BotError (code : ErrorCode) (error_code : option Z)
                  (* [sendMessage] or [getUpdates] rejects; [error_code]
                     is [response.body.error_code] *).

Inductive result (A : Type) :=
| Ok (a : A)
| Throw (e : Error).
Arguments Ok {A} a.
Arguments Throw {A} e.

(** The state of an [RTCleaner] and of the directory it works in.  A
    directory that is not writable refuses writes, renames and removals. *)
Record Cleaner := {
  files : gmap jsstring File;        (* the working directory *)
  writable : bool;                   (* whether the directory can be written *)
  sentTweets : list jsstring;        (* [this.sentTweets] *)
  telegramService : option (list Z)  (* the service's [chatIds], when configured *)
}.

(** Code that reads and writes the state and may throw; what was done
    before a throw stays done. *)
Definition M (A : Type) : Type := Cleaner -> result A * Cleaner.

Definition ret {A} (a : A) : M A := fun w => (Ok a, w).
Definition throw {A} (e : Error) : M A := fun w => (Throw e, w).
Definition bind {A B} (m : M A) (k : A -> M B) : M B :=
  fun w =>
    match m w with
    | (Ok a, w') => k a w'
    | (Throw e, w') => (Throw e, w')
    end.
(** [try { m } catch (error) { h error }] *)
Definition tryCatch {A} (m : M A) (h : Error -> M A) : M A :=
  fun w =>
    match m w with
    | (Ok a, w') => (Ok a, w')
    | (Throw e, w') => h e w'
    end.
Definition get : M Cleaner := fun w => (Ok w, w).

Global Instance M_ret : MRet M := @ret.
Global Instance M_bind : MBind M := fun A B k m => bind m k.

(** [list.forEach(f)] *)
Fixpoint forEach {A} (l : list A) (f : A -> M unit) : M unit :=
  match l with
  | [] => ret tt
  | x :: l' => f x;; forEach l' f
  end.

Definition setFiles (fs : gmap jsstring File) : M unit :=
  fun w => (Ok tt, {| files := fs; writable := writable w;
                      sentTweets := sentTweets w;
                      telegramService := telegramService w |}).
Definition setSentTweets (s : list jsstring) : M unit :=
  fun w => (Ok tt, {| files := files w; writable := writable w;
                      sentTweets := s;
                      telegramService := telegramService w |}).
Definition setChatIds (c : list Z) : M unit :=
  fun w => (Ok tt, {| files := files w; writable := writable w;
                      sentTweets := sentTweets w;
                      telegramService := Some c |}).

(** *** The [fs] module *)

Module Fs.
Definition existsSync (name : jsstring) : M bool :=
  w ← get; ret (bool_decide (is_Some (files w !! name))).

Definition readFileSync (name : jsstring) : M jsstring :=
  w ← get;
  match files w !! name with
  | None => throw ENOENT
  | Some f => if readable f then ret (data f) else throw EACCES
  end.

Definition needWritable : M unit :=
  w ← get; if writable w then ret tt else throw EROFS.

Definition writeFileSync (name data : jsstring) : M unit :=
  needWritable;;
  w ← get;
  setFiles (<[name := {| data := data; readable := true |}]> (files w)).

Definition renameSync (old new : jsstring) : M unit :=
  w ← get;
  match files w !! old with
  | None => throw ENOENT
  | Some f => needWritable;; setFiles (<[new := f]> (delete old (files w)))
  end.

Definition unlinkSync (name : jsstring) : M unit :=
  w ← get;
  match files w !! name with
  | None => throw ENOENT
  | Some _ => needWritable;; setFiles (delete name (files w))
  end.

(** [fs.readdirSync(process.cwd())] *)
Definition readdirSync : M (list jsstring) :=
  w ← get; ret (elements (dom (files w))).
End Fs.

(** ** [TelegramService] *)

Module TelegramService.
Import JsString.

(** [value || ''] *)
Definition orEmpty (v : option jsstring) : jsstring := default [] v.

(** [truncateText(text, maxLength)] *)
Definition truncateText (text : jsstring) (maxLength : nat) : jsstring :=
  if bool_decide (length text <= maxLength)%nat then text
  else trim (substring0 maxLength text).

(** A number in a template literal. *)
Definition decimal (n : nat) : jsstring := js (pretty.pretty (N.of_nat n)).

(** The excerpt of one entry: [${text}${text.length >= 100 ? '...' : ''}]
    with [text = this.truncateText(tweet.Text || '', 100)]. *)
Definition excerptText (tweet : TwitterRecord) : jsstring :=
  truncateText (orEmpty (Text tweet)) 100.
Definition marker (text : jsstring) : jsstring :=
  if bool_decide (100 <= length text)%nat then js "..." else [].
Definition excerpt (tweet : TwitterRecord) : jsstring :=
  let text := excerptText tweet in text ++ marker text.

(** One element of [tweets.map((tweet, index) => ...)]. *)
Definition formatEntry (index : nat) (tweet : TwitterRecord) : jsstring :=
  let username :=
    match UserName tweet with
    | Some ((_ :: _) as u) => js "@" ++ u
    | _ => js "Unknown"
    end in
  let link := orEmpty (LinkToTweet tweet) in
  decimal (index + 1) ++ js ". **" ++ username ++ js "**" ++ [10] ++ js "   "
    ++ excerpt tweet ++ [10] ++ js "   " ++ [55357; 56599]
    ++ js " [View Tweet](" ++ link ++ js ")".

(** [array.join(sep)] *)
Fixpoint join (sep : jsstring) (parts : list jsstring) : jsstring :=
  match parts with
  | [] => []
  | [p] => p
  | p :: rest => p ++ sep ++ join sep rest
  end.

Definition formatTweetMessage (tweets : list TwitterRecord) : jsstring :=
  match tweets with
  | [] => []
  | _ =>
      let header :=
        [55357; 56358] ++ js " **New Tweets (" ++ decimal (length tweets)
          ++ js ")**" ++ [10; 10] in
      let tweetList := join [10; 10] (imap formatEntry tweets) in
      header ++ tweetList
  end.

(** An update of [getUpdates]: the chat of [update.message] and the
    chat of [update.channel_post], when present. *)
Record Update := {
  message_chat : option Z;
  channel_post_chat : option Z
}.

(** How [bot.sendMessage] ends: it resolves, or rejects with an error
    carrying [code] and, from the API, [response.body.error_code]. *)
Inductive SendResult :=
| Delivered
| Rejected (code : ErrorCode) (error_code : option Z).

(** The Telegram Bot API as one cycle sees it. *)
Record Bot := {
  getUpdates : option (list Update);    (* [None]: the call rejects *)
  sendMessage : Z -> jsstring -> SendResult
}.

(** [this.chatIds] *)
Definition chatIds : M (list Z) :=
  w ← get; ret (default [] (telegramService w)).

(** [if (!this.chatIds.has(chatId)) this.chatIds.add(chatId)]: the body
    of the [message] and [new_chat_members] listeners and of the scan
    of the backlog. *)
Definition noteChat (chatId : Z) : M unit :=
  cs ← chatIds;
  if JsSet.has cs chatId then ret tt else setChatIds (JsSet.add cs chatId).

Definition updateChatIds (bot : Bot) : M unit :=
  tryCatch
    (updates ← match getUpdates bot with
               | Some updates => ret updates
               | None => throw (BotError EFATAL None)
               end;
     forEach updates (fun update =>
       match message_chat update with
       | Some chatId => noteChat chatId
       | None =>
           match channel_post_chat update with
           | Some chatId => noteChat chatId
           | None => ret tt
           end
       end))
    (fun _ => ret tt).

(** [err.code === 'ETELEGRAM' && err.response?.body?.error_code === 403] *)
Definition botWasRemoved (err : Error) : bool :=
  match err with
  | BotError ETELEGRAM (Some error_code) => (error_code =? 403)%Z
  | _ => false
  end.

(** One element of [sendPromises]: the send and its [catch]. *)
Definition sendOne (bot : Bot) (message : jsstring) (chatId : Z) : M unit :=
  tryCatch
    match sendMessage bot chatId message with
    | Delivered => ret tt
    | Rejected code error_code => throw (BotError code error_code)
    end
    (fun err =>
       if botWasRemoved err then
         cs ← chatIds; setChatIds (JsSet.delete cs chatId)
       else ret tt).

(** [sendTweetNotifications(tweets)].  The result lists the sends that
    were started, in order.  The sends run concurrently; each handler
    only removes its own chat id, so the order in which they settle
    does not show in the set. *)
Definition sendTweetNotifications (bot : Bot) (tweets : list TwitterRecord)
    : M (list (Z * jsstring)) :=
  match tweets with
  | [] => ret []
  | _ =>
      let message := formatTweetMessage tweets in
      match message with
      | [] => ret []
      | _ =>
          updateChatIds bot;;
          cs ← chatIds;
          match cs with
          | [] => ret []
          | _ =>
              let targets := cs in      (* Array.from(this.chatIds) *)
              forEach targets (sendOne bot message);;
              ret (map (fun chatId => (chatId, message)) targets)
          end
      end
  end.

(** [string.split(sep)] for a separator of one character. *)
Fixpoint splitOn (sep : N) (s : jsstring) : list jsstring :=
  match s with
  | [] => [[]]
  | c :: s' =>
      if c =? sep then [] :: splitOn sep s'
      else
        match splitOn sep s' with
        | part :: parts => (c :: part) :: parts
        | [] => [[c]]
        end
  end.

(** The value of a digit in a radix of at most 36, if it is one. *)
Definition digitValue (radix : Z) (c : N) : option Z :=
  let value :=
    if isDigit c then Some (Z.of_N c - 48)%Z
    else if (97 <=? c) && (c <=? 122) then Some (Z.of_N c - 87)%Z
    else if (65 <=? c) && (c <=? 90) then Some (Z.of_N c - 55)%Z
    else None in
  match value with
  | Some d => if (d <? radix)%Z then Some d else None
  | None => None
  end.

(** The number the leading digits of [s] denote, from the value [acc] of
    the digits read so far ([None]: none yet). *)
Fixpoint digitsValue (radix : Z) (acc : option Z) (s : jsstring) : option Z :=
  match s with
  | c :: s' =>
      match digitValue radix c with
      | Some d => digitsValue radix (Some (radix * default 0%Z acc + d)%Z) s'
      | None => acc
      end
  | [] => acc
  end.

(** A number as [parseInt] returns it: [NaN], an integer of magnitude
    at most 2^53, which a double holds exactly, or an integer beyond
    that, which the engine rounds to a double or to an infinity; the
    rounded value is not modelled. *)
Inductive Number :=
| NaN
| Int (n : Z)
| Beyond.

(** [parseInt(s)] with no radix given: leading white space, a sign, a
    prefix [0x] or [0X] for radix 16, then the longest run of digits;
    without a digit the result is [NaN].  ([-0] is [Int 0]: a [Set]
    keeps it as [0].) *)
Definition parseInt (s : jsstring) : Number :=
  let s := trimStart s in
  let '(sign, s) :=
    match s with
    | 45 :: s' => ((-1)%Z, s')
    | 43 :: s' => (1%Z, s')
    | _ => (1%Z, s)
    end in
  let '(radix, s) :=
    match s with
    | 48 :: 120 :: s' => (16%Z, s')
    | 48 :: 88 :: s' => (16%Z, s')
    | _ => (10%Z, s)
    end in
  match digitsValue radix None s with
  | Some mathInt =>
      if (mathInt <=? 2 ^ 53)%Z then Int (sign * mathInt)%Z else Beyond
  | None => NaN
  end.

Definition isNaN (x : Number) : bool :=
  match x with
  | NaN => true
  | _ => false
  end.

(** The integer a number is, when the model holds it. *)
Definition exact (x : Number) : option Z :=
  match x with
  | Int n => Some n
  | _ => None
  end.

(** [loadManualChatIds()] on the value of [TELEGRAM_CHAT_IDS] ([None]:
    not set).  The result is [None] when an entry denotes a number
    beyond 2^53: the chat id stored is then a rounded double, which the
    model does not hold. *)
Definition loadManualChatIds (TELEGRAM_CHAT_IDS : option jsstring)
    : option (M unit) :=
  match TELEGRAM_CHAT_IDS with
  | Some ((_ :: _) as manualChatIds) =>
      let chatIds :=
        List.filter (fun id => negb (isNaN id))
          (map (fun id => parseInt (trim id)) (splitOn 44 manualChatIds)) in
      match mapM exact chatIds with
      | Some chatIds =>
          Some (forEach chatIds (fun chatId =>
                  cs ← TelegramService.chatIds; setChatIds (JsSet.add cs chatId)))
      | None => None
      end
  | _ => Some (ret tt)
  end.

Definition getChatCount : M nat := cs ← chatIds; ret (JsSet.size cs).

End TelegramService.

(** ** [RTCleaner] *)

Module RTCleaner.
Import JsString RegExp Classifier TelegramService.

(** [this.sentTweetsFile]; the working directory is fixed, so a file is
    known by its name in it. *)
Definition sentTweetsFile : jsstring := Eval cbv in js "sent-tweets.json".

(** The order of [Array.prototype.sort] without a comparator: strings
    by their code units. *)
Fixpoint strLe (a b : jsstring) : bool :=
  match a, b with
  | [], _ => true
  | _ :: _, [] => false
  | x :: a', y :: b' => (x <? y) || ((x =? y) && strLe a' b')
  end.

Definition sort (l : list jsstring) : list jsstring :=
  merge_sort (fun a b => strLe a b) l.

Definition lits (s : string) : list (atom * quant) :=
  map (fun c => (Lit c, Once)) (js s).
Definition digits (n : nat) : list (atom * quant) :=
  repeat (Class [DigitCls], Once) n.

(** [/^sent-tweets-\d{4}-\d{2}-\d{2}T\d{2}-\d{2}-\d{2}\.json$/] *)
Definition archivePattern : regexp := Eval cbv in
  {| items :=
       lits "sent-tweets-" ++ digits 4 ++ lits "-" ++ digits 2 ++ lits "-"
         ++ digits 2 ++ lits "T" ++ digits 2 ++ lits "-" ++ digits 2
         ++ lits "-" ++ digits 2 ++ lits ".json";
     anchorEnd := true;
     ignoreCase := false |}.

(** [timestamp.replace(/:/g, '-')] *)
Definition replaceColons (s : jsstring) : jsstring :=
  map (fun c => if c =? 58 then 45 else c) s.

(** Six hours in milliseconds: [6 * 60 * 60 * 1000]. *)
Definition sixHours : Z := 6 * 60 * 60 * 1000.

(** The size threshold in bytes.  [stats.size / (1024 * 1024) > 10]
    divides by a power of two, which is exact, so the test is
    [size > 10 * 1024 * 1024]. *)
Definition rotateThreshold : N := 10 * (1024 * 1024).

Section Engine.
(** [JSON.parse] read as a table of entries; [None] when it throws
    or the value is no array of entries. *)
Variable JSON_parse : jsstring -> option (list SentTweetTracker).
Variable JSON_stringify : list SentTweetTracker -> jsstring.
(** The size on disk of a file with this text. *)
Variable byteLength : jsstring -> N.
(** [new Date(ms).toISOString()] *)
Variable toISOString : Z -> jsstring.

(** [fs.statSync(name).size] *)
Definition statSyncSize (name : jsstring) : M N :=
  w ← get;
  match files w !! name with
  | None => throw ENOENT
  | Some f => ret (byteLength (data f))
  end.

(** [saveSentTweets()] at time [now].  The occasional log of the file
    size is left out. *)
Definition saveSentTweets (now : Z) : M unit :=
  tryCatch
    (let sixHoursAgo : JsDate := Some (now - sixHours)%Z in
     w ← get;
     let recentData :=
       List.filter (fun tweet => dateGt (sentAt tweet) sixHoursAgo)
         (map (fun recordId => {| recordId := recordId; sentAt := Some now |})
              (sentTweets w)) in
     Fs.writeFileSync sentTweetsFile (JSON_stringify recentData))
    (fun _ => ret tt).

(** The name of the archive made at time [now]. *)
Definition archiveFileAt (now : Z) : jsstring :=
  let timestamp := replaceColons (take 19 (toISOString now)) in
  js "sent-tweets-" ++ timestamp ++ js ".json".

(** The archives in the order [rotateSentTweetsFile] lists them:
    newest name first. *)
Definition archivesOf (names : list jsstring) : list jsstring :=
  rev (sort (List.filter (test archivePattern) names)).

Definition rotateSentTweetsFile (now : Z) : M unit :=
  tryCatch
    (let archiveFile := archiveFileAt now in
     Fs.renameSync sentTweetsFile archiveFile;;
     names ← Fs.readdirSync;
     let files := archivesOf names in
     forEach (drop 5 files) Fs.unlinkSync)
    (fun _ => ret tt).

Definition loadSentTweets (now : Z) : M unit :=
  tryCatch
    (present ← Fs.existsSync sentTweetsFile;
     if present : bool then
       size ← statSyncSize sentTweetsFile;
       (if rotateThreshold <? size then rotateSentTweetsFile now else ret tt);;
       data ← Fs.readFileSync sentTweetsFile;
       sentTweets ← match JSON_parse data with
                    | Some entries => ret entries
                    | None => throw SyntaxError
                    end;
       let sixHoursAgo : JsDate := Some (now - sixHours)%Z in
       let validTweets :=
         List.filter (fun tweet => dateGt (sentAt tweet) sixHoursAgo) sentTweets in
       if (2 * length validTweets <? length sentTweets)%nat then
         setSentTweets (JsSet.ofArray (map recordId validTweets));;
         saveSentTweets now
       else
         setSentTweets (JsSet.ofArray (map recordId validTweets))
     else ret tt)
    (fun _ => setSentTweets []).

(** The constructor, once the Airtable configuration is found present:
    an instance with no sent tweets, the Telegram service when a token
    is configured (with the chat ids of the configuration), then
    [loadSentTweets]. *)
Definition construct (dir : gmap jsstring File) (canWrite : bool)
    (telegram : option (list Z)) (now : Z) : Cleaner :=
  snd (loadSentTweets now
         {| files := dir; writable := canWrite; sentTweets := [];
            telegramService := telegram |}).

(** The filter of [sendNewTweets]. *)
Definition isNewTweet (sent : list jsstring) (record : AirtableRecord) : bool :=
  let text := Text (fields record) in
  let isRt := isRetweet text in
  let isReplyTweet := isReply text in
  let alreadySent := JsSet.has sent (id record) in
  if isRt then false
  else if isReplyTweet then false
  else negb alreadySent && truthy text.

(** [sendNewTweets()] at time [now], on what the Airtable query gives
    ([None]: it rejects).  The result is the batch handed to
    [sendTweetNotifications] (empty when it was not called) and the
    sends it started. *)
Definition sendNewTweets (bot : Bot) (fetched : option (list AirtableRecord))
    (now : Z) : M (list AirtableRecord * list (Z * jsstring)) :=
  w ← get;
  match telegramService w with
  | None => ret ([], [])
  | Some _ =>
      tryCatch
        (records ← match fetched with
                   | Some records => ret records
                   | None => throw FetchError
                   end;
         w ← get;
         let newTweets := List.filter (isNewTweet (sentTweets w)) records in
         match newTweets with
         | [] => ret ([], [])
         | _ =>
             let tweetsToSend := map fields newTweets in
             sends ← sendTweetNotifications bot tweetsToSend;
             forEach newTweets (fun record =>
               w ← get; setSentTweets (JsSet.add (sentTweets w) (id record)));;
             saveSentTweets now;;
             ret (newTweets, sends)
         end)
        (fun _ => ret ([], []))
  end.

(** The two filters of [deleteRetweetAndReplyRecords]. *)
Definition rtRecords (records : list AirtableRecord) : list AirtableRecord :=
  List.filter (fun record => isRetweet (Text (fields record))) records.
Definition replyRecords (records : list AirtableRecord) : list AirtableRecord :=
  List.filter (fun record =>
    let text := Text (fields record) in isReply text && negb (isRetweet text))
    records.

(** The loop [for (i = 0; i < length; i += batchSize)] over what is left
    to delete: the batches of ids given to [table.destroy] and the count
    of the records whose batch went through ([destroy] tells which). *)
Fixpoint deleteBatches (batchSize : nat) (destroy : list jsstring -> bool)
    (fuel : nat) (rest : list AirtableRecord) : list (list jsstring) * nat :=
  match fuel, rest with
  | S fuel', _ :: _ =>
      let batch := take batchSize rest in
      let recordIds := map id batch in
      let '(batches, deletedCount) :=
        deleteBatches batchSize destroy fuel' (drop batchSize rest) in
      (recordIds :: batches,
       if destroy recordIds then (length recordIds + deletedCount)%nat
       else deletedCount)
  | _, _ => ([], 0%nat)
  end.

(** [deleteRetweetAndReplyRecords()] on what the Airtable query gives
    ([None]: it rejects, which is caught). *)
Definition deleteRetweetAndReplyRecords (fetched : option (list AirtableRecord))
    (destroy : list jsstring -> bool) : list (list jsstring) * nat :=
  match fetched with
  | None => ([], 0%nat)
  | Some records =>
      let allRecordsToDelete := rtRecords records ++ replyRecords records in
      let batchSize := 10%nat in
      deleteBatches batchSize destroy (length allRecordsToDelete) allRecordsToDelete
  end.

(** One cycle ([runManualOperations], and the job of
    [startScheduledProcesses]): [sendNewTweets], then
    [deleteRetweetAndReplyRecords], each on its own query. *)
Definition runManualOperations (bot : Bot)
    (fetched fetchedAgain : option (list AirtableRecord))
    (destroy : list jsstring -> bool) (now : Z)
    : M ((list AirtableRecord * list (Z * jsstring)) * (list (list jsstring) * nat)) :=
  sent ← sendNewTweets bot fetched now;
  ret (sent, deleteRetweetAndReplyRecords fetchedAgain destroy).

End Engine.
End RTCleaner.

(** ** The earlier [RTCleaner]

    The first of the two versions of the class in the source: a day of
    retention, no rotation, no reply filter.  Its [isRetweet] is the
    one above, and its loop over the batches is [deleteBatches]. *)

Module Earlier.
Import JsString RegExp Classifier TelegramService.

Definition sentTweetsFile : jsstring := RTCleaner.sentTweetsFile.

(** A day in milliseconds: [24 * 60 * 60 * 1000]. *)
Definition oneDay : Z := 24 * 60 * 60 * 1000.

Section Engine.
Variable JSON_parse : jsstring -> option (list SentTweetTracker).
(** [JSON.stringify(data, null, 2)] *)
Variable JSON_stringify : list SentTweetTracker -> jsstring.

Definition saveSentTweets (now : Z) : M unit :=
  tryCatch
    (w ← get;
     let data :=
       map (fun recordId => {| recordId := recordId; sentAt := Some now |})
           (sentTweets w) in
     Fs.writeFileSync sentTweetsFile (JSON_stringify data))
    (fun _ => ret tt).

Definition loadSentTweets (now : Z) : M unit :=
  tryCatch
    (present ← Fs.existsSync sentTweetsFile;
     if present : bool then
       data ← Fs.readFileSync sentTweetsFile;
       sentTweets ← match JSON_parse data with
                    | Some entries => ret entries
                    | None => throw SyntaxError
                    end;
       let oneDayAgo : JsDate := Some (now - oneDay)%Z in
       let validTweets :=
         List.filter (fun tweet => dateGt (sentAt tweet) oneDayAgo) sentTweets in
       setSentTweets (JsSet.ofArray (map recordId validTweets));;
       saveSentTweets now
     else ret tt)
    (fun _ => ret tt).

Definition construct (dir : gmap jsstring File) (canWrite : bool)
    (telegram : option (list Z)) (now : Z) : Cleaner :=
  snd (loadSentTweets now
         {| files := dir; writable := canWrite; sentTweets := [];
            telegramService := telegram |}).

(** The filter of [sendNewTweets]. *)
Definition isNewTweet (sent : list jsstring) (record : AirtableRecord) : bool :=
  let text := Text (fields record) in
  let isRt := isRetweet text in
  let alreadySent := JsSet.has sent (id record) in
  if isRt then false
  else negb alreadySent && truthy text.

Definition sendNewTweets (bot : Bot) (fetched : option (list AirtableRecord))
    (now : Z) : M (list AirtableRecord * list (Z * jsstring)) :=
  w ← get;
  match telegramService w with
  | None => ret ([], [])
  | Some _ =>
      tryCatch
        (records ← match fetched with
                   | Some records => ret records
                   | None => throw FetchError
                   end;
         w ← get;
         let newTweets := List.filter (isNewTweet (sentTweets w)) records in
         match newTweets with
         | [] => ret ([], [])
         | _ =>
             let tweetsToSend := map fields newTweets in
             sends ← sendTweetNotifications bot tweetsToSend;
             forEach newTweets (fun record =>
               w ← get; setSentTweets (JsSet.add (sentTweets w) (id record)));;
             saveSentTweets now;;
             ret (newTweets, sends)
         end)
        (fun _ => ret ([], []))
  end.

(** [deleteRetweetRecords()] on what the Airtable query gives. *)
Definition deleteRetweetRecords (fetched : option (list AirtableRecord))
    (destroy : list jsstring -> bool) : list (list jsstring) * nat :=
  match fetched with
  | None => ([], 0%nat)
  | Some records =>
      let rtRecords :=
        List.filter (fun record => isRetweet (Text (fields record))) records in
      match rtRecords with
      | [] => ([], 0%nat)
      | _ =>
          let batchSize := 10%nat in
          RTCleaner.deleteBatches batchSize destroy (length rtRecords) rtRecords
      end
  end.

Definition runManualOperations (bot : Bot)
    (fetched fetchedAgain : option (list AirtableRecord))
    (destroy : list jsstring -> bool) (now : Z)
    : M ((list AirtableRecord * list (Z * jsstring)) * (list (list jsstring) * nat)) :=
  sent ← sendNewTweets bot fetched now;
  ret (sent, deleteRetweetRecords fetchedAgain destroy).

End Engine.
End Earlier.

(** * The vocabulary of the properties

    The shapes the specification speaks of, and names for the states the
    code reaches. *)

Module Described.
Import JsString RegExp Classifier TelegramService RTCleaner.

Definition spaces (l : jsstring) : Prop := Forall (fun c => isWhiteSpace c = true) l.

Definition handle (l : jsstring) : Prop :=
  l <> [] /\ Forall (fun c => isWordChar c = true) l.

(** The retweet attribution in the words of the specification: the
    token RT in any letter case, optional white space, an [@] and a
    handle of word characters, then a colon with optional white space
    around it, or at least one white-space character. *)
Definition RetweetAttribution (s : jsstring) : Prop :=
  exists r t ws h rest,
    s = r :: t :: ws ++ 64 :: h ++ rest /\
    (r = 82 \/ r = 114) /\ (t = 84 \/ t = 116) /\
    spaces ws /\ handle h /\
    ((exists w1 w2 rest', spaces w1 /\ spaces w2 /\ rest = w1 ++ 58 :: w2 ++ rest')
     \/ (exists w rest', w <> [] /\ spaces w /\ rest = w ++ rest')).


(** [needle] occurs in [s]. *)
Definition Contains (needle s : jsstring) : Prop :=
  exists pre post, s = pre ++ needle ++ post.

(** The first line of a message of [n] tweets, with the blank line
    after it. *)
Definition header (n : nat) : jsstring :=
  [55357; 56358] ++ js " **New Tweets (" ++ decimal n ++ js ")**" ++ [10; 10].

(** The state with the service's chat ids replaced. *)
Definition withChatIds (c : list Z) (w : Cleaner) : Cleaner :=
  {| files := files w; writable := writable w; sentTweets := sentTweets w;
     telegramService := Some c |}.

(** What one update adds, and the chat ids after [updateChatIds]. *)
Definition noted (cs : list Z) (update : Update) : list Z :=
  match message_chat update with
  | Some chatId => JsSet.add cs chatId
  | None =>
      match channel_post_chat update with
      | Some chatId => JsSet.add cs chatId
      | None => cs
      end
  end.

Definition discovered (bot : Bot) (cs : list Z) : list Z :=
  match getUpdates bot with
  | Some updates => foldl noted cs updates
  | None => cs
  end.

(** A rejection that removes the chat: error 403 of the API. *)
Definition permanent (r : SendResult) : bool :=
  match r with
  | Delivered => false
  | Rejected code error_code => botWasRemoved (BotError code error_code)
  end.

Definition settled (bot : Bot) (message : jsstring) (cs : list Z) (chatId : Z)
    : list Z :=
  if permanent (sendMessage bot chatId message) then JsSet.delete cs chatId else cs.

Definition withFiles (fs : gmap jsstring File) (w : Cleaner) : Cleaner :=
  {| files := fs; writable := writable w; sentTweets := sentTweets w;
     telegramService := telegramService w |}.

Definition withSent (s : list jsstring) (w : Cleaner) : Cleaner :=
  {| files := files w; writable := writable w; sentTweets := s;
     telegramService := telegramService w |}.

(** The table [saveSentTweets] writes at time [now]. *)
Definition tableAt (now : Z) (sent : list jsstring) : list SentTweetTracker :=
  map (fun recordId => {| recordId := recordId; sentAt := Some now |}) sent.

(** The first 19 characters of an ISO date with a four-digit year:
    [/^\d{4}-\d{2}-\d{2}T\d{2}:\d{2}:\d{2}$/]. *)
Definition isoSeconds : regexp := Eval cbv in
  {| items :=
       digits 4 ++ lits "-" ++ digits 2 ++ lits "-" ++ digits 2 ++ lits "T"
         ++ digits 2 ++ lits ":" ++ digits 2 ++ lits ":" ++ digits 2;
     anchorEnd := true;
     ignoreCase := false |}.

(** The archives the cleanup removes from a directory. *)
Definition stale (dir : gmap jsstring File) : list jsstring :=
  drop 5 (archivesOf (elements (dom dir))).

(** An entry young enough to be kept at time [now]. *)
Definition recent (now : Z) (tweet : SentTweetTracker) : bool :=
  dateGt (sentAt tweet) (Some (now - sixHours)%Z).

(** An entry young enough for the earlier version: less than a day old. *)
Definition recentDay (now : Z) (tweet : SentTweetTracker) : bool :=
  dateGt (sentAt tweet) (Some (now - Earlier.oneDay)%Z).


(** The chat an update names. *)
Definition chatOf (update : Update) : option Z :=
  match message_chat update with
  | Some chatId => Some chatId
  | None => channel_post_chat update
  end.

(** A map on code units that at most moves a letter to its other case. *)
Definition recases (f : N -> N) : Prop :=
  forall c, f c = c \/ f c = upperUnit c \/ f c = lowerAscii c.

(** The backlog of the bot names the chat. *)
Definition rediscovers (bot : Bot) (chatId : Z) : Prop :=
  exists updates update,
    getUpdates bot = Some updates /\ update ∈ updates /\
    chatOf update = Some chatId.

Section Engine.
Variable JSON_parse : jsstring -> option (list SentTweetTracker).
Variable JSON_stringify : list SentTweetTracker -> jsstring.
Variable toISOString : Z -> jsstring.

(** The file a flush leaves. *)
Definition flushed (now : Z) (sent : list jsstring) : File :=
  {| data := JSON_stringify (tableAt now sent); readable := true |}.

(** The state after a cycle that dispatched [batch]. *)
Definition afterDispatch (bot : Bot) (now : Z) (batch : list AirtableRecord)
    (cs : list Z) (w : Cleaner) : Cleaner :=
  let message := formatTweetMessage (map fields batch) in
  let targets := discovered bot cs in
  let sent := foldl JsSet.add (sentTweets w) (map id batch) in
  {| files := if writable w
              then <[sentTweetsFile := flushed now sent]> (files w)
              else files w;
     writable := writable w;
     sentTweets := sent;
     telegramService := Some (foldl (settled bot message) targets targets) |}.

(** The directory once the sent-tweets file [f] has become the
    archive of time [now]. *)
Definition renamed (now : Z) (f : File) (dir : gmap jsstring File)
    : gmap jsstring File :=
  <[archiveFileAt toISOString now := f]> (delete sentTweetsFile dir).

(** The directory after a rotation. *)
Definition rotated (now : Z) (f : File) (dir : gmap jsstring File)
    : gmap jsstring File :=
  foldl (fun m y => delete y m) (renamed now f dir) (stale (renamed now f dir)).

(** The part of [loadSentTweets] after the size check. *)
Definition readTable (now : Z) : M unit :=
  data ← Fs.readFileSync sentTweetsFile;
  sentTweets ← match JSON_parse data with
               | Some entries => ret entries
               | None => throw SyntaxError
               end;
  let sixHoursAgo : JsDate := Some (now - sixHours)%Z in
  let validTweets :=
    List.filter (fun tweet => dateGt (sentAt tweet) sixHoursAgo) sentTweets in
  if (2 * length validTweets <? length sentTweets)%nat then
    setSentTweets (JsSet.ofArray (map recordId validTweets));;
    saveSentTweets JSON_stringify now
  else
    setSentTweets (JsSet.ofArray (map recordId validTweets)).

End Engine.
End Described.

(** Sample data for the scenarios. *)
Module Sample.
Import TelegramService.

Definition tweet (text : string) : TwitterRecord :=
  {| Text := Some (js text); UserName := Some (js "acme");
     LinkToTweet := None; CreatedAt := None |}.

Definition record (i text : string) : AirtableRecord :=
  {| id := js i; fields := tweet text |}.

(** The three records of the scenario of the specification. *)
Definition fetched : list AirtableRecord :=
  [record "1" "RT @a: hi"; record "2" "@b thanks"; record "3" "hello world"].

(** A bot with an empty backlog whose sends all succeed, and one whose
    sends are all refused with error 403. *)
Definition quietBot : Bot :=
  {| getUpdates := Some []; sendMessage := fun _ _ => Delivered |}.
Definition removedBot : Bot :=
  {| getUpdates := Some [];
     sendMessage := fun _ _ => Rejected ETELEGRAM (Some 403%Z) |}.
(** A bot whose sends all fail on the network. *)
Definition offlineBot : Bot :=
  {| getUpdates := None; sendMessage := fun _ _ => Rejected EFATAL None |}.

(** A bot whose backlog holds a message of chat 7, a channel post of
    channel -1001 and an update of another kind. *)
Definition backlogBot : Bot :=
  {| getUpdates :=
       Some [ {| message_chat := Some 7%Z; channel_post_chat := None |};
              {| message_chat := None; channel_post_chat := Some (-1001)%Z |};
              {| message_chat := None; channel_post_chat := None |} ];
     sendMessage := fun _ _ => Delivered |}.

(** A cleaner whose bot has not been added to any chat yet. *)
Definition unjoined : Cleaner :=
  {| files := ∅; writable := true; sentTweets := [];
     telegramService := Some [] |}.

(** A cleaner with one chat, nothing sent and an empty directory. *)
Definition fresh : Cleaner :=
  {| files := ∅; writable := true; sentTweets := [];
     telegramService := Some [7%Z] |}.

(** A stand-in for [JSON.stringify]. *)
Definition stringify (table : list SentTweetTracker) : jsstring :=
  flat_map (fun entry => recordId entry ++ [10]) table.

(** Stand-ins for [JSON.parse], the size on disk and [toISOString]. *)
Definition parse (_ : jsstring) : option (list SentTweetTracker) :=
  Some [{| recordId := js "3"; sentAt := Some 0%Z |}].
Definition mebibytes (text : jsstring) : N := 1024 * 1024 * N.of_nat (length text).
Definition isoString (_ : Z) : jsstring := js "2026-11-02T10:00:00.000Z".

(** A directory with a sent-tweets file of one entry. *)
Definition oneEntry : gmap jsstring File :=
  {[ js "sent-tweets.json" := {| data := js "[{...}]"; readable := true |} ]}.

(** A cleaner started in that directory, before the load. *)
Definition starting : Cleaner :=
  {| files := oneEntry; writable := true; sentTweets := [];
     telegramService := None |}.

(** A cleaner whose sent-tweets file counts as eleven mebibytes. *)
Definition oversized : Cleaner :=
  {| files := {[ js "sent-tweets.json" :=
                   {| data := js "0123456789A"; readable := true |} ]};
     writable := true; sentTweets := [js "1"];
     telegramService := None |}.

(** The same cleaner in a directory that cannot be written. *)
Definition readOnly : Cleaner :=
  {| files := files oversized; writable := false; sentTweets := [];
     telegramService := None |}.

(** The archive of ten o'clock of a day of October 2026. *)
Definition archiveOf (day : string) : jsstring :=
  js "sent-tweets-2026-10-" ++ js day ++ js "T10-00-00.json".

Definition old (day : string) : File := {| data := js day; readable := true |}.

(** A cleaner whose directory holds an oversized sent-tweets file, six
    archives of earlier days and a file of another kind. *)
Definition crowded : Cleaner :=
  {| files :=
       <[archiveOf "01" := old "01"]>
       (<[archiveOf "02" := old "02"]>
       (<[archiveOf "03" := old "03"]>
       (<[archiveOf "04" := old "04"]>
       (<[archiveOf "05" := old "05"]>
       (<[archiveOf "06" := old "06"]>
       (<[js "notes.txt" := old "n"]> (files oversized)))))));
     writable := true; sentTweets := [];
     telegramService := None |}.

(** A text of 99 letters, an emoji (one surrogate pair) and one more
    letter. *)
Definition emojiText : jsstring := repeat 97%N 99 ++ [55357; 56832; 98]%N.

(** The state one cycle leaves, from a fresh cleaner, at time 0 on the
    records of the scenario. *)
Definition afterFirstCycle : Cleaner :=
  snd (RTCleaner.sendNewTweets stringify quietBot
         (Some fetched) 0%Z fresh).
End Sample.


(** * Facts about the embedding *)

(** ** The matcher against its specification *)

Module RegExpFacts.
Import JsString RegExp.

Lemma starLoop_spec ok k s :
  starLoop ok k s = true <->
  exists run s', s = run ++ s' /\ Forall (fun c => ok c = true) run /\ k s' = true.
Proof.
  induction s as [|c s IH]; simpl.
  - split.
    + intros H. exists [], []. auto.
    + intros (run & s' & E & _ & H).
      symmetry in E. apply app_eq_nil in E as [-> ->]. exact H.
  - rewrite orb_true_iff, andb_true_iff, IH. split.
    + intros [[Hc (run & s' & -> & Hrun & Hk)] | Hk].
      * exists (c :: run), s'. auto.
      * exists [], (c :: s). auto.
    + intros (run & s' & E & Hrun & Hk). destruct run as [|c' run].
      * simpl in E. subst s'. now right.
      * simpl in E. injection E as <- ->. inversion Hrun; subst.
        left. split; [assumption|]. exists run, s'. auto.
Qed.

Lemma matchHere_Matches i its e s :
  matchHere i its e s = true <-> Matches i its e s.
Proof.
  revert s. induction its as [|[a q] rest IH]; intros s.
  - simpl. destruct e, s; split; intros H; try constructor;
      try discriminate; try reflexivity; inversion H.
  - destruct q; simpl.
    + destruct s as [|c s].
      * split; [discriminate | intros H; inversion H].
      * rewrite andb_true_iff, IH. split.
        -- intros [? ?]. now constructor.
        -- intros H. inversion H; subst. auto.
    + rewrite starLoop_spec. split.
      * intros (run & s' & -> & Hrun & Hk). constructor; [assumption|].
        now apply IH.
      * intros H. inversion H; subst. eexists _, _. split; [reflexivity|].
        split; [assumption|]. now apply IH.
    + destruct s as [|c s].
      * split; [discriminate | intros H; inversion H].
      * rewrite andb_true_iff, starLoop_spec. split.
        -- intros [Hc (run & s' & -> & Hrun & Hk)].
           constructor; [assumption..|]. now apply IH.
        -- intros H. inversion H; subst. split; [assumption|].
           eexists _, _. split; [reflexivity|]. split; [assumption|].
           now apply IH.
Qed.

End RegExpFacts.

(** ** Sets *)

Module JsSetFacts.
Section JsSet.
Context {A : Type} `{EqDecision A}.
Import JsSet.
Implicit Types (s l : list A) (x y : A).

Lemma has_true s x : has s x = true <-> x ∈ s.
Proof. unfold has. apply bool_decide_eq_true. Qed.

Lemma elem_of_add s x y : y ∈ add s x <-> y ∈ s \/ y = x.
Proof.
  unfold add. destruct (has s x) eqn:E.
  - apply has_true in E. split; [auto | intros [?| ->]; auto].
  - rewrite elem_of_app, list_elem_of_singleton. reflexivity.
Qed.

Lemma elem_of_delete s x y : y ∈ delete s x <-> y ∈ s /\ y <> x.
Proof.
  unfold delete. rewrite !list_elem_of_In, List.filter_In, negb_true_iff,
    bool_decide_eq_false. reflexivity.
Qed.

Lemma elem_of_foldl_add l s y : y ∈ foldl add s l <-> y ∈ s \/ y ∈ l.
Proof.
  revert s. induction l as [|x l IH]; intros s; simpl.
  - rewrite elem_of_nil. tauto.
  - rewrite IH, elem_of_add, elem_of_cons. tauto.
Qed.

Lemma elem_of_ofArray l y : y ∈ ofArray l <-> y ∈ l.
Proof. unfold ofArray. rewrite elem_of_foldl_add, elem_of_nil. tauto. Qed.

Lemma add_idempotent s x : add (add s x) x = add s x.
Proof.
  unfold add at 1. replace (has (add s x) x) with true; [reflexivity|].
  symmetry. apply has_true, elem_of_add. now right.
Qed.
End JsSet.
End JsSetFacts.

(** ** The classifier against the words of the specification *)

Module ClassifierFacts.
Import JsString RegExp RegExpFacts Classifier Described.

(** Case analysis on the comparisons of a goal about code units. *)
Ltac units :=
  repeat match goal with
    | |- context [N.leb ?a ?b] => destruct (N.leb_spec a b); try (exfalso; lia)
    | |- context [N.eqb ?a ?b] => destruct (N.eqb_spec a b); try (exfalso; lia)
    end;
  simpl; try reflexivity; try lia.

Lemma upperUnit_cases c :
  (97 <= c <= 122 /\ upperUnit c = c - 32) \/ (~ 97 <= c <= 122 /\ upperUnit c = c).
Proof. unfold upperUnit. units; (left; split; [lia|reflexivity]) || (right; split; [lia|reflexivity]). Qed.

Lemma lowerAscii_cases c :
  (65 <= c <= 90 /\ lowerAscii c = c + 32) \/ (~ 65 <= c <= 90 /\ lowerAscii c = c).
Proof. unfold lowerAscii. units; (left; split; [lia|reflexivity]) || (right; split; [lia|reflexivity]). Qed.

Ltac cases_of c :=
  destruct (upperUnit_cases c) as [[? ->] | [? ->]];
  destruct (lowerAscii_cases c) as [[? ->] | [? ->]];
  try (exfalso; lia).

Lemma atom_space c : atomMatches true (Class [SpaceCls]) c = isWhiteSpace c.
Proof.
  unfold atomMatches, existsb, clsMatches, clsHas.
  cases_of c; unfold isWhiteSpace; units.
Qed.

Lemma atom_word c : atomMatches true (Class [WordCls]) c = isWordChar c.
Proof.
  unfold atomMatches, existsb, clsMatches, clsHas.
  cases_of c; unfold isWordChar; units.
Qed.

Lemma atom_wordu c :
  atomMatches true (Class [WordCls; Single 95]) c = isWordChar c.
Proof.
  unfold atomMatches, existsb, clsMatches, clsHas.
  cases_of c; unfold isWordChar; units.
Qed.

Lemma atom_lit x c :
  atomMatches true (Lit x) c = true <->
  x = c \/ (97 <= c <= 122 /\ x = c - 32) \/ (65 <= c <= 90 /\ x = c + 32).
Proof.
  unfold atomMatches, clsMatches, clsHas.
  cases_of c; units; split; (discriminate || lia || auto).
Qed.

Lemma lit_R c : atomMatches true (Lit 82) c = true <-> c = 82 \/ c = 114.
Proof. rewrite atom_lit. lia. Qed.
Lemma lit_r c : atomMatches true (Lit 114) c = true <-> c = 82 \/ c = 114.
Proof. rewrite atom_lit. lia. Qed.
Lemma lit_T c : atomMatches true (Lit 84) c = true <-> c = 84 \/ c = 116.
Proof. rewrite atom_lit. lia. Qed.
Lemma lit_t c : atomMatches true (Lit 116) c = true <-> c = 84 \/ c = 116.
Proof. rewrite atom_lit. lia. Qed.
Lemma lit_at c : atomMatches true (Lit 64) c = true <-> c = 64.
Proof. rewrite atom_lit. lia. Qed.
Lemma lit_colon c : atomMatches true (Lit 58) c = true <-> c = 58.
Proof. rewrite atom_lit. lia. Qed.

Lemma run_spaces run :
  Forall (fun c => atomMatches true (Class [SpaceCls]) c = true) run <-> spaces run.
Proof. unfold spaces. apply Forall_iff. intros c. now rewrite atom_space. Qed.
Lemma run_word run :
  Forall (fun c => atomMatches true (Class [WordCls]) c = true) run <->
  Forall (fun c => isWordChar c = true) run.
Proof. apply Forall_iff. intros c. now rewrite atom_word. Qed.
Lemma run_wordu run :
  Forall (fun c => atomMatches true (Class [WordCls; Single 95]) c = true) run <->
  Forall (fun c => isWordChar c = true) run.
Proof. apply Forall_iff. intros c. now rewrite atom_wordu. Qed.

(** Take a derivation of [Matches] for a concrete pattern apart. *)
Ltac unmatch :=
  repeat match goal with
    | H : Matches _ (_ :: _) _ _ |- _ => inversion H; clear H; subst
    | H : Matches _ [] _ _ |- _ => clear H
    end;
  repeat match goal with
    | H : atomMatches true (Lit 82) _ = true |- _ => apply lit_R in H
    | H : atomMatches true (Lit 114) _ = true |- _ => apply lit_r in H
    | H : atomMatches true (Lit 84) _ = true |- _ => apply lit_T in H
    | H : atomMatches true (Lit 116) _ = true |- _ => apply lit_t in H
    | H : atomMatches true (Lit 64) _ = true |- _ => apply lit_at in H; subst
    | H : atomMatches true (Lit 58) _ = true |- _ => apply lit_colon in H; subst
    | H : atomMatches true (Class [SpaceCls]) _ = true |- _ => rewrite atom_space in H
    | H : atomMatches true (Class [WordCls]) _ = true |- _ => rewrite atom_word in H
    | H : atomMatches true (Class [WordCls; Single 95]) _ = true |- _ =>
        rewrite atom_wordu in H
    | H : Forall (fun c => atomMatches true (Class [SpaceCls]) c = true) _ |- _ =>
        apply (proj1 (run_spaces _)) in H
    | H : Forall (fun c => atomMatches true (Class [WordCls]) c = true) _ |- _ =>
        apply (proj1 (run_word _)) in H
    | H : Forall (fun c => atomMatches true (Class [WordCls; Single 95]) c = true) _ |- _ =>
        apply (proj1 (run_wordu _)) in H
    end.

Lemma handle_cons c run :
  isWordChar c = true -> Forall (fun c => isWordChar c = true) run -> handle (c :: run).
Proof. intros. split; [discriminate | now constructor]. Qed.

Lemma spaces_nil : spaces [].
Proof. constructor. Qed.
Lemma spaces_cons c run : isWhiteSpace c = true -> spaces run -> spaces (c :: run).
Proof. now constructor. Qed.

Lemma rtPatterns_sound s :
  existsb (fun pattern => test pattern s) rtPatterns = true -> RetweetAttribution s.
Proof.
  unfold rtPatterns, existsb, test. cbn [ignoreCase items anchorEnd].
  rewrite !orb_true_iff, !matchHere_Matches.
  intros H; decompose [or] H; clear H; try discriminate; unmatch.
  all: match goal with
    | |- RetweetAttribution (?r :: ?t :: ?ws ++ 64 :: ?h0 :: ?h ++ 58 :: ?rest) =>
        exists r, t, ws, (h0 :: h), (58 :: rest);
        repeat split; auto using handle_cons; try discriminate;
        left; exists [], [], rest; auto using spaces_nil
    | |- RetweetAttribution
           (?r :: ?t :: ?w0 :: ?ws ++ 64 :: ?h0 :: ?h ++ ?w1 ++ 58 :: ?rest) =>
        exists r, t, (w0 :: ws), (h0 :: h), (w1 ++ 58 :: rest);
        repeat split; auto using handle_cons, spaces_cons; try discriminate;
        left; exists w1, [], rest; auto using spaces_nil
    | |- RetweetAttribution (?r :: ?t :: ?ws ++ 64 :: ?h0 :: ?h ++ ?c :: ?w ++ ?rest) =>
        exists r, t, ws, (h0 :: h), (c :: w ++ rest);
        repeat split; auto using handle_cons; try discriminate;
        right; exists (c :: w), rest; repeat split; auto using spaces_cons;
        discriminate
    end.
Qed.

Lemma rtPatterns_complete s :
  RetweetAttribution s -> existsb (fun pattern => test pattern s) rtPatterns = true.
Proof.
  intros (r & t & ws & h & rest & -> & Hr & Ht & Hws & [Hne Hh] & Htail).
  destruct h as [|h0 h]; [congruence|]. inversion Hh; subst.
  assert (Hspace : forall c w rest',
    isWhiteSpace c = true -> spaces w ->
    test (startI [lit "R"; lit "T"; spaces0; lit "@"; word1; spaces1])
         (r :: t :: ws ++ 64 :: (h0 :: h) ++ (c :: w) ++ rest') = true).
  { intros c w rest' Hc Hw. apply matchHere_Matches. cbn.
    apply MatchesOnce; [now apply lit_R|].
    apply MatchesOnce; [now apply lit_T|].
    apply MatchesStar; [now apply run_spaces|].
    apply MatchesOnce; [now apply lit_at|].
    apply MatchesPlus; [now rewrite atom_word | now apply run_word |].
    apply MatchesPlus; [now rewrite atom_space | now apply run_spaces |].
    constructor. }
  unfold rtPatterns, existsb. rewrite !orb_true_iff.
  destruct Htail as [(w1 & w2 & rest' & Hw1 & Hw2 & ->) | (w & rest' & Hw & Hsp & ->)].
  - destruct w1 as [|c w1].
    + left. apply matchHere_Matches. cbn.
      apply MatchesOnce; [now apply lit_R|].
      apply MatchesOnce; [now apply lit_T|].
      apply MatchesStar; [now apply run_spaces|].
      apply MatchesOnce; [now apply lit_at|].
      apply MatchesPlus; [now rewrite atom_word | now apply run_word |].
      apply MatchesOnce; [now apply lit_colon|]. constructor.
    + inversion Hw1; subst. do 6 right. left.
      change ((c :: w1) ++ 58 :: w2 ++ rest') with ((c :: w1) ++ (58 :: w2 ++ rest')).
      now apply Hspace.
  - destruct w as [|c w]; [congruence|]. inversion Hsp; subst.
    do 6 right. left. now apply Hspace.
Qed.

Lemma isRetweet_iff t :
  isRetweet (Some t) = true <-> RetweetAttribution (trim t).
Proof.
  destruct t as [|c t].
  - split; [discriminate|].
    intros (r & x & ws & h & rest & E & _). discriminate E.
  - unfold isRetweet. split; [apply rtPatterns_sound | apply rtPatterns_complete].
Qed.




Lemma trimStart_split s : exists lead, s = lead ++ trimStart s /\ spaces lead.
Proof.
  induction s as [|c s (lead & E & Hl)]; simpl.
  - exists []. split; [reflexivity | constructor].
  - destruct (isWhiteSpace c) eqn:Hc.
    + exists (c :: lead). split; [simpl; congruence | now constructor].
    + exists []. split; [reflexivity | constructor].
Qed.

Lemma spaces_rev w : spaces w -> spaces (rev w).
Proof. unfold spaces. rewrite !List.Forall_forall. intros H c Hc. apply H. now apply in_rev. Qed.

Lemma trim_split s :
  exists lead trail, s = lead ++ trim s ++ trail /\ spaces lead /\ spaces trail.
Proof.
  destruct (trimStart_split s) as (lead & E1 & Hl).
  destruct (trimStart_split (rev (trimStart s))) as (tl & E2 & Ht).
  exists lead, (rev tl). split; [|split; [assumption | now apply spaces_rev]].
  unfold trim, trimEnd. rewrite <- rev_app_distr, <- E2, rev_involutive. exact E1.
Qed.








End ClassifierFacts.

(** ** Facts about [trim] and truncation *)

Module TextFacts.
Import JsString Described ClassifierFacts TelegramService.

Lemma trimStart_length s : (length (trimStart s) <= length s)%nat.
Proof.
  induction s as [|c s IH]; simpl; [lia|].
  destruct (isWhiteSpace c); simpl; lia.
Qed.

Lemma trim_length s : (length (trim s) <= length s)%nat.
Proof.
  unfold trim, trimEnd. rewrite length_rev.
  etransitivity; [apply trimStart_length|]. rewrite length_rev.
  apply trimStart_length.
Qed.

Lemma trimStart_head s c : head (trimStart s) = Some c -> isWhiteSpace c = false.
Proof.
  induction s as [|x s IH]; simpl; [discriminate|].
  destruct (isWhiteSpace x) eqn:E; [exact IH|].
  simpl. intros [= <-]. exact E.
Qed.

Lemma trimStart_id s :
  (forall c, head s = Some c -> isWhiteSpace c = false) -> trimStart s = s.
Proof.
  destruct s as [|x s]; [reflexivity|]. simpl. intros H.
  now rewrite (H x eq_refl).
Qed.

Lemma head_rev (s : jsstring) : head (rev s) = last s.
Proof.
  induction s as [|x s IH] using rev_ind; [reflexivity|].
  rewrite rev_app_distr, last_snoc. reflexivity.
Qed.

Lemma trim_last s c : last (trim s) = Some c -> isWhiteSpace c = false.
Proof.
  unfold trim, trimEnd. rewrite <- head_rev, rev_involutive.
  apply trimStart_head.
Qed.

Lemma trimEnd_head y c :
  head y = Some c -> isWhiteSpace c = false -> head (trimEnd y) = Some c.
Proof.
  intros Hy Hc. unfold trimEnd.
  destruct (trimStart_split (rev y)) as (tl & E & Htl).
  apply (f_equal (@rev N)) in E. rewrite rev_involutive, rev_app_distr in E.
  destruct (rev (trimStart (rev y))) as [|x k] eqn:Ek.
  - simpl in E. apply spaces_rev in Htl. rewrite <- E in Htl.
    destruct y as [|y0 y]; [discriminate|]. simpl in Hy. injection Hy as ->.
    inversion Htl; subst. congruence.
  - rewrite E in Hy. simpl in Hy. exact Hy.
Qed.

Lemma trim_head s c : head (trim s) = Some c -> isWhiteSpace c = false.
Proof.
  unfold trim. destruct (trimStart s) as [|x y] eqn:E.
  - discriminate.
  - assert (Hx : isWhiteSpace x = false).
    { apply (trimStart_head s). now rewrite E. }
    rewrite (trimEnd_head (x :: y) x eq_refl Hx). intros [= <-]. exact Hx.
Qed.

(** A string with no white space at either end is its own [trim]. *)
Lemma trim_id s :
  (forall c, head s = Some c -> isWhiteSpace c = false) ->
  (forall c, last s = Some c -> isWhiteSpace c = false) ->
  trim s = s.
Proof.
  intros Hh Hl. unfold trim, trimEnd. rewrite (trimStart_id s Hh).
  rewrite trimStart_id; [apply rev_involutive|].
  intros c. rewrite head_rev. apply Hl.
Qed.

Lemma truncateText_length text n : (length (truncateText text n) <= n)%nat.
Proof.
  unfold truncateText, substring0. case_bool_decide; [assumption|].
  etransitivity; [apply trim_length|]. rewrite length_take. lia.
Qed.

Lemma truncateText_short text n :
  (length text <= n)%nat -> truncateText text n = text.
Proof. intros H. unfold truncateText. now rewrite bool_decide_eq_true_2. Qed.

Lemma truncateText_long text n :
  (n < length text)%nat -> truncateText text n = trim (take n text).
Proof.
  intros H. unfold truncateText, substring0.
  rewrite bool_decide_eq_false_2; [reflexivity | lia].
Qed.

Lemma join_Contains sep parts p : p ∈ parts -> Contains p (join sep parts).
Proof.
  induction parts as [|q parts IH]; [intros H; inversion H|].
  intros H. apply elem_of_cons in H as [-> | H].
  - destruct parts as [|q' parts].
    + exists [], []. simpl. now rewrite app_nil_r.
    + exists [], (sep ++ join sep (q' :: parts)). reflexivity.
  - destruct parts as [|q' parts]; [inversion H|].
    destruct (IH H) as (pre & post & E).
    exists (q ++ sep ++ pre), post.
    change (join sep (q :: q' :: parts)) with (q ++ sep ++ join sep (q' :: parts)).
    rewrite E. now rewrite <- !app_assoc.
Qed.

Lemma Contains_trans a b c : Contains a b -> Contains b c -> Contains a c.
Proof.
  intros (p1 & q1 & ->) (p2 & q2 & ->). exists (p2 ++ p1), (q1 ++ q2).
  now rewrite <- !app_assoc.
Qed.

Lemma Contains_after x p s : Contains x s -> Contains x (p ++ s).
Proof. intros (pre & post & ->). exists (p ++ pre), post. now rewrite <- app_assoc. Qed.

Lemma Contains_head x s : Contains x (x ++ s).
Proof. now exists [], s. Qed.

Lemma formatEntry_Contains index tweet :
  Contains (excerpt tweet) (formatEntry index tweet).
Proof.
  unfold formatEntry. cbv zeta.
  do 6 apply Contains_after. apply Contains_head.
Qed.

(** The excerpt of every record of the batch stands in the message. *)
Lemma formatTweetMessage_Contains tweets tweet :
  tweet ∈ tweets -> Contains (excerpt tweet) (formatTweetMessage tweets).
Proof.
  intros H. apply list_elem_of_lookup in H as [i Hi].
  apply Contains_trans with (formatEntry i tweet);
    [apply formatEntry_Contains|].
  destruct tweets as [|t0 tweets]; [discriminate Hi|].
  unfold formatTweetMessage.
  cbv zeta. apply Contains_after.
  apply join_Contains. apply list_elem_of_lookup. exists i.
  rewrite list_lookup_imap, Hi. reflexivity.
Qed.

Lemma formatTweetMessage_nonempty tweets :
  tweets <> [] -> formatTweetMessage tweets <> [].
Proof. destruct tweets; [congruence |]. unfold formatTweetMessage. simpl app. discriminate. Qed.

End TextFacts.

(** ** Running the Telegram service *)

Module TelegramFacts.
Import JsString TelegramService Described TextFacts.

Lemma withChatIds_same w cs : telegramService w = Some cs -> withChatIds cs w = w.
Proof. destruct w; simpl. intros ->. reflexivity. Qed.

Lemma withChatIds_twice c c' w : withChatIds c (withChatIds c' w) = withChatIds c w.
Proof. reflexivity. Qed.

Lemma bind_run {A B} (m : M A) (k : A -> M B) w :
  (m ≫= k) w =
  match m w with
  | (Ok a, w') => k a w'
  | (Throw e, w') => (Throw e, w')
  end.
Proof. reflexivity. Qed.

Lemma forEach_cons {A} (x : A) l f w :
  forEach (x :: l) f w =
  match f x w with
  | (Ok _, w') => forEach l f w'
  | (Throw e, w') => (Throw e, w')
  end.
Proof. reflexivity. Qed.

Lemma noteChat_run chatId w cs :
  telegramService w = Some cs ->
  noteChat chatId w = (Ok tt, withChatIds (JsSet.add cs chatId) w).
Proof.
  intros H. unfold noteChat, chatIds. rewrite !bind_run. simpl. rewrite H. simpl.
  unfold JsSet.add. destruct (JsSet.has cs chatId).
  - now rewrite withChatIds_same.
  - reflexivity.
Qed.

Lemma forEach_note updates : forall w cs,
  telegramService w = Some cs ->
  forEach updates (fun update =>
    match message_chat update with
    | Some chatId => noteChat chatId
    | None =>
        match channel_post_chat update with
        | Some chatId => noteChat chatId
        | None => ret tt
        end
    end) w = (Ok tt, withChatIds (foldl noted cs updates) w).
Proof.
  induction updates as [|u updates IH]; intros w cs H.
  - simpl. now rewrite withChatIds_same.
  - rewrite forEach_cons. simpl foldl.
    assert (E : (match message_chat u with
                 | Some chatId => noteChat chatId
                 | None => match channel_post_chat u with
                           | Some chatId => noteChat chatId
                           | None => ret tt
                           end
                 end) w = (Ok tt, withChatIds (noted cs u) w)).
    { unfold noted. destruct (message_chat u); [now apply noteChat_run|].
      destruct (channel_post_chat u); [now apply noteChat_run|].
      unfold ret. now rewrite withChatIds_same. }
    rewrite E. rewrite (IH _ (noted cs u)); reflexivity.
Qed.

Lemma updateChatIds_run bot w cs :
  telegramService w = Some cs ->
  updateChatIds bot w = (Ok tt, withChatIds (discovered bot cs) w).
Proof.
  intros H. unfold updateChatIds, tryCatch, discovered. rewrite bind_run.
  destruct (getUpdates bot) as [updates|]; simpl.
  - now rewrite (forEach_note updates w cs H).
  - now rewrite withChatIds_same.
Qed.

Lemma sendOne_run bot message chatId w cs :
  telegramService w = Some cs ->
  sendOne bot message chatId w = (Ok tt, withChatIds (settled bot message cs chatId) w).
Proof.
  intros H. unfold sendOne, tryCatch, settled, permanent, throw, ret.
  destruct (sendMessage bot chatId message) as [|code error_code].
  - now rewrite withChatIds_same.
  - destruct (botWasRemoved (BotError code error_code)).
    + unfold chatIds. rewrite !bind_run. simpl. rewrite H. reflexivity.
    + now rewrite withChatIds_same.
Qed.

Lemma forEach_sendOne bot message targets : forall w cs,
  telegramService w = Some cs ->
  forEach targets (sendOne bot message) w =
  (Ok tt, withChatIds (foldl (settled bot message) cs targets) w).
Proof.
  induction targets as [|c targets IH]; intros w cs H.
  - simpl. now rewrite withChatIds_same.
  - rewrite forEach_cons, (sendOne_run _ _ _ _ _ H). simpl foldl.
    rewrite (IH _ (settled bot message cs c)); reflexivity.
Qed.

(** [sendTweetNotifications] never throws: it sends to every chat known
    after the scan of the backlog, and keeps the chats whose send did
    not end in error 403. *)
Lemma sendTweetNotifications_run bot tweets w cs :
  telegramService w = Some cs -> tweets <> [] ->
  let message := formatTweetMessage tweets in
  let targets := discovered bot cs in
  sendTweetNotifications bot tweets w =
  (Ok (map (fun chatId => (chatId, message)) targets),
   withChatIds (foldl (settled bot message) targets targets) w).
Proof.
  intros H Hne. cbv zeta. unfold sendTweetNotifications.
  pose proof (formatTweetMessage_nonempty tweets Hne) as Hm.
  destruct tweets as [|t tweets]; [congruence|]. cbv zeta.
  remember (formatTweetMessage (t :: tweets)) as message eqn:Em.
  destruct message as [|m0 message]; [congruence|].
  rewrite bind_run, (updateChatIds_run _ _ _ H).
  unfold chatIds. rewrite !bind_run. simpl.
  destruct (discovered bot cs) as [|c0 targets'] eqn:Et; [reflexivity|].
  rewrite bind_run.
  rewrite (forEach_sendOne bot (m0 :: message) (c0 :: targets') _ (c0 :: targets'));
    reflexivity.
Qed.

Lemma elem_of_settled bot message targets : forall cs c,
  c ∈ foldl (settled bot message) cs targets <->
  c ∈ cs /\ ~ (c ∈ targets /\ permanent (sendMessage bot c message) = true).
Proof.
  induction targets as [|x targets IH]; intros cs c; simpl.
  - rewrite elem_of_nil. tauto.
  - rewrite IH, elem_of_cons. unfold settled.
    destruct (permanent (sendMessage bot x message)) eqn:Ex.
    + rewrite JsSetFacts.elem_of_delete. split.
      * intros [[Hc Hne] Hn]. split; [assumption|]. intros [[->|Hin] Hp]; tauto.
      * intros [Hc Hn]. split; [split; [assumption|]|].
        -- intros ->. tauto.
        -- tauto.
    + split.
      * intros [Hc Hn]. split; [assumption|]. intros [[->|Hin] Hp]; [congruence|tauto].
      * intros [Hc Hn]. split; [assumption|]. tauto.
Qed.

End TelegramFacts.

(** ** Running the cleaner *)

Module CleanerFacts.
Import JsString Classifier TelegramService RTCleaner Described.
Import TextFacts TelegramFacts.

Lemma withSent_same w : withSent (sentTweets w) w = w.
Proof. now destruct w. Qed.

Lemma filter_all {A} (f : A -> bool) l :
  (forall x, f x = true) -> List.filter f l = l.
Proof. intros H. induction l as [|x l IH]; simpl; [|rewrite H, IH]; reflexivity. Qed.

Lemma recent_tableAt now sent :
  List.filter (fun tweet => dateGt (sentAt tweet) (Some (now - sixHours)%Z))
    (tableAt now sent) = tableAt now sent.
Proof.
  unfold tableAt. induction sent as [|x sent IH]; simpl; [reflexivity|].
  rewrite IH. replace (now - sixHours <? now)%Z with true; [reflexivity|].
  symmetry. apply Z.ltb_lt. unfold sixHours. lia.
Qed.

Section Engine.
Variable JSON_parse : jsstring -> option (list SentTweetTracker).
Variable JSON_stringify : list SentTweetTracker -> jsstring.
Variable byteLength : jsstring -> N.
Variable toISOString : Z -> jsstring.

Local Abbreviation flushed := (Described.flushed JSON_stringify).
Local Abbreviation afterDispatch := (Described.afterDispatch JSON_stringify).

Lemma saveSentTweets_run now w :
  saveSentTweets JSON_stringify now w =
  (Ok tt,
   if writable w
   then withFiles (<[sentTweetsFile := flushed now (sentTweets w)]> (files w)) w
   else w).
Proof.
  unfold saveSentTweets, tryCatch. rewrite bind_run. simpl.
  fold (tableAt now (sentTweets w)). rewrite recent_tableAt.
  unfold Fs.writeFileSync, Fs.needWritable. rewrite !bind_run. simpl.
  destruct (writable w) eqn:Ew; reflexivity.
Qed.

Lemma forEach_markSent (batch : list AirtableRecord) : forall w,
  forEach batch (fun record =>
    w ← get; setSentTweets (JsSet.add (sentTweets w) (id record))) w =
  (Ok tt, withSent (foldl JsSet.add (sentTweets w) (map id batch)) w).
Proof.
  induction batch as [|r batch IH]; intros w.
  - simpl. now rewrite withSent_same.
  - rewrite forEach_cons, bind_run. simpl. rewrite IH. reflexivity.
Qed.

(** One run of [sendNewTweets] with the service configured and the
    query answered: it never throws; with nothing new the state is
    untouched, and otherwise the whole batch is marked and flushed. *)
Lemma sendNewTweets_run bot records now w cs :
  telegramService w = Some cs ->
  let batch := List.filter (isNewTweet (sentTweets w)) records in
  sendNewTweets JSON_stringify bot (Some records) now w =
  match batch with
  | [] => (Ok ([], []), w)
  | _ =>
      (Ok (batch,
           map (fun chatId => (chatId, formatTweetMessage (map fields batch)))
               (discovered bot cs)),
       afterDispatch bot now batch cs w)
  end.
Proof.
  intros H. cbv zeta. unfold sendNewTweets.
  rewrite bind_run. unfold get at 1. cbv beta iota. rewrite H.
  unfold tryCatch. rewrite bind_run. unfold ret at 1. cbv beta iota.
  rewrite bind_run. unfold get at 1. cbv beta iota.
  destruct (List.filter (isNewTweet (sentTweets w)) records) as [|r batch] eqn:Eb;
    [reflexivity|].
  rewrite bind_run.
  rewrite (sendTweetNotifications_run bot (map fields (r :: batch)) w cs H)
    by discriminate.
  rewrite bind_run, forEach_markSent, bind_run, saveSentTweets_run.
  unfold afterDispatch, withChatIds, withSent, withFiles, ret.
  cbn [files writable sentTweets telegramService].
  destruct (writable w); reflexivity.
Qed.

End Engine.
End CleanerFacts.

(** ** The archive listing *)

Module ArchiveFacts.
Import JsString RegExp RTCleaner.

Lemma strLe_total a : forall b, strLe a b = true \/ strLe b a = true.
Proof.
  induction a as [|x a IH]; intros [|y b]; simpl; auto.
  destruct (N.ltb_spec x y); [now left|].
  destruct (N.ltb_spec y x); [now right|].
  assert (x = y) as -> by lia. rewrite N.eqb_refl. simpl. apply IH.
Qed.

Lemma strLe_trans a : forall b c,
  strLe a b = true -> strLe b c = true -> strLe a c = true.
Proof.
  induction a as [|x a IH]; intros [|y b] [|z c]; simpl; try congruence.
  rewrite !orb_true_iff, !andb_true_iff, !N.ltb_lt, !N.eqb_eq.
  intros [H1 | [-> H1]] [H2 | [-> H2]].
  - left. lia.
  - now left.
  - now left.
  - right. split; [reflexivity|]. eapply IH; eassumption.
Qed.

Global Instance strLe_Total : Total (fun a b : jsstring => Is_true (strLe a b)).
Proof.
  intros a b. destruct (strLe_total a b) as [H|H]; rewrite H; simpl; auto.
Qed.

Global Instance strLe_Transitive :
  Transitive (fun a b : jsstring => Is_true (strLe a b)).
Proof.
  intros a b c H1 H2. apply Is_true_true in H1, H2. apply Is_true_true.
  eapply strLe_trans; eassumption.
Qed.

Lemma sort_Permutation l : sort l ≡ₚ l.
Proof. apply merge_sort_Permutation. Qed.

Lemma sort_sorted l :
  StronglySorted (fun a b : jsstring => Is_true (strLe a b)) (sort l).
Proof. apply StronglySorted_merge_sort; apply _. Qed.

Lemma elem_of_archivesOf names x :
  x ∈ archivesOf names <-> x ∈ names /\ test archivePattern x = true.
Proof.
  unfold archivesOf. rewrite list_elem_of_In, <- in_rev, <- list_elem_of_In.
  rewrite sort_Permutation, list_elem_of_In, List.filter_In, <- list_elem_of_In.
  reflexivity.
Qed.

Lemma NoDup_List_filter {A} (f : A -> bool) l : NoDup l -> NoDup (List.filter f l).
Proof.
  induction 1 as [|x l Hx Hl IH]; simpl; [constructor|].
  destruct (f x); [|assumption]. constructor; [|assumption].
  rewrite list_elem_of_In, List.filter_In, <- list_elem_of_In. tauto.
Qed.

Lemma NoDup_archivesOf names : NoDup names -> NoDup (archivesOf names).
Proof.
  intros H. unfold archivesOf. rewrite <- Permutation_rev, sort_Permutation.
  now apply NoDup_List_filter.
Qed.

(** Every archive past the fifth is no newer than any of the first five. *)
Lemma archivesOf_newest names a b :
  a ∈ take 5 (archivesOf names) -> b ∈ drop 5 (archivesOf names) ->
  strLe b a = true.
Proof.
  intros Ha Hb. unfold archivesOf in *.
  set (s := sort (List.filter (test archivePattern) names)) in *.
  pose proof (sort_sorted (List.filter (test archivePattern) names)) as Hs.
  fold s in Hs.
  assert (E : s = rev (drop 5 (rev s)) ++ rev (take 5 (rev s))).
  { rewrite <- rev_app_distr, take_drop. symmetry. apply rev_involutive. }
  rewrite E in Hs. apply Is_true_true.
  eapply (StronglySorted_app_1_elem_of _ _ _ b a Hs).
  - apply list_elem_of_In, in_rev. rewrite rev_involutive. now apply list_elem_of_In.
  - apply list_elem_of_In, in_rev. rewrite rev_involutive. now apply list_elem_of_In.
Qed.

Lemma lookup_unlinked (l : list jsstring) : forall (m : gmap jsstring File) x,
  foldl (fun m y => delete y m) m l !! x = if bool_decide (x ∈ l) then None else m !! x.
Proof.
  induction l as [|y l IH]; intros m x; simpl.
  - reflexivity.
  - rewrite IH. case_bool_decide as H1; case_bool_decide as H2; try reflexivity.
    + exfalso. apply H2. now right.
    + apply elem_of_cons in H2 as [-> | H2]; [|contradiction].
      apply lookup_delete_eq.
    + apply lookup_delete_ne. intros ->. apply H2. now left.
Qed.

End ArchiveFacts.

(** ** Loading and rotating the sent-tweets file *)

Module LoadFacts.
Import JsString RegExp RegExpFacts RTCleaner Described.
Import ClassifierFacts TelegramFacts CleanerFacts ArchiveFacts.

Lemma withFiles_same w : withFiles (files w) w = w.
Proof. now destruct w. Qed.

Lemma forEach_unlink (l : list jsstring) : forall w,
  writable w = true -> NoDup l -> (forall x, x ∈ l -> is_Some (files w !! x)) ->
  forEach l Fs.unlinkSync w =
  (Ok tt, withFiles (foldl (fun m y => delete y m) (files w) l) w).
Proof.
  induction l as [|x l IH]; intros w Hw Hnd Hin.
  - simpl. now rewrite withFiles_same.
  - rewrite forEach_cons. unfold Fs.unlinkSync at 1. rewrite bind_run.
    unfold get at 1. cbv beta iota.
    destruct (Hin x) as [f Hf]; [now left|]. rewrite Hf.
    unfold Fs.needWritable. rewrite !bind_run. unfold get at 1. cbv beta iota.
    rewrite Hw. unfold ret at 1. cbv beta iota. unfold setFiles.
    inversion Hnd as [|? ? Hx Hl]; subst.
    rewrite IH; [reflexivity | exact Hw | exact Hl |].
    intros y Hy. cbn [files]. rewrite lookup_delete_ne.
    + apply Hin. now right.
    + intros ->. contradiction.
Qed.

Lemma digit_kept c :
  atomMatches false (Class [DigitCls]) c = true ->
  (if c =? 58 then 45 else c) = c.
Proof.
  unfold atomMatches, existsb, clsMatches, clsHas, isDigit. simpl.
  rewrite !orb_false_r. units; discriminate.
Qed.

Lemma lit_exact x c : atomMatches false (Lit x) c = true -> c = x.
Proof.
  unfold atomMatches, clsMatches, clsHas. simpl. rewrite orb_false_r.
  intros H. apply N.eqb_eq in H. now subst.
Qed.

Section Engine.
Variable JSON_parse : jsstring -> option (list SentTweetTracker).
Variable JSON_stringify : list SentTweetTracker -> jsstring.
Variable byteLength : jsstring -> N.
Variable toISOString : Z -> jsstring.

Local Abbreviation renamed := (Described.renamed toISOString).
Local Abbreviation rotated := (Described.rotated toISOString).
Local Abbreviation readTable := (Described.readTable JSON_parse JSON_stringify).

Lemma archive_not_main now : archiveFileAt toISOString now <> sentTweetsFile.
Proof. unfold archiveFileAt, sentTweetsFile. simpl. discriminate. Qed.

(** With a four-digit year the archive is named as the cleanup expects. *)
Lemma archive_named_as_archive now :
  test isoSeconds (take 19 (toISOString now)) = true ->
  test archivePattern (archiveFileAt toISOString now) = true.
Proof.
  unfold archiveFileAt. cbv zeta.
  generalize (take 19 (toISOString now)). intros stamp.
  unfold test at 1. cbn [ignoreCase items anchorEnd isoSeconds].
  rewrite matchHere_Matches. intros H.
  repeat match goal with
    | H : Matches _ (_ :: _) _ _ |- _ => inversion H; clear H; subst
    end.
  match goal with H : Matches _ [] true _ |- _ => inversion H; subst; clear H end.
  repeat match goal with
    | H : atomMatches false (Lit _) _ = true |- _ => apply lit_exact in H; subst
    end.
  unfold replaceColons. cbn [map].
  repeat match goal with
    | H : atomMatches false (Class [DigitCls]) ?c = true |- _ =>
        rewrite (digit_kept c H)
    end.
  apply matchHere_Matches. cbn.
  repeat (apply MatchesOnce; [first [reflexivity | assumption]|]).
  apply MatchesEnd.
Qed.

Lemma stale_NoDup dir : NoDup (stale dir).
Proof.
  unfold stale. eapply sublist_NoDup; [|apply sublist_drop].
  apply NoDup_archivesOf, NoDup_elements.
Qed.

Lemma stale_present dir x : x ∈ stale dir -> is_Some (dir !! x).
Proof.
  unfold stale. intros H.
  assert (H' : x ∈ archivesOf (elements (dom dir))).
  { eapply elem_of_sublist; [exact H | apply sublist_drop]. }
  apply elem_of_archivesOf in H' as [H' _].
  now apply elem_of_elements, elem_of_dom in H'.
Qed.

Lemma rotateSentTweetsFile_run now w f :
  files w !! sentTweetsFile = Some f -> writable w = true ->
  rotateSentTweetsFile toISOString now w =
  (Ok tt, withFiles (rotated now f (files w)) w).
Proof.
  intros Hf Hw. unfold rotateSentTweetsFile, tryCatch. cbv zeta.
  rewrite bind_run. unfold Fs.renameSync. rewrite bind_run.
  unfold get at 1. cbv beta iota. rewrite Hf.
  unfold Fs.needWritable. rewrite !bind_run. unfold get at 1. cbv beta iota.
  rewrite Hw. unfold ret at 1. cbv beta iota. unfold setFiles at 1.
  cbv beta iota. unfold Fs.readdirSync. rewrite !bind_run.
  unfold get at 1, ret at 1. cbv beta iota. cbn [files writable].
  fold (renamed now f (files w)). fold (stale (renamed now f (files w))).
  rewrite forEach_unlink.
  - reflexivity.
  - exact Hw.
  - apply stale_NoDup.
  - intros x Hx. now apply stale_present.
Qed.

Lemma rotated_main now f dir : rotated now f dir !! sentTweetsFile = None.
Proof.
  unfold rotated. rewrite lookup_unlinked. case_bool_decide; [reflexivity|].
  unfold renamed. rewrite lookup_insert_ne by apply archive_not_main.
  apply lookup_delete_eq.
Qed.

(** Whatever happens, a rotation returns normally, touches only the
    directory, and leaves the sent-tweets file as it was or gone. *)
Lemma rotateSentTweetsFile_any now w :
  exists dir,
    rotateSentTweetsFile toISOString now w = (Ok tt, withFiles dir w) /\
    (dir !! sentTweetsFile = None \/
     dir !! sentTweetsFile = files w !! sentTweetsFile).
Proof.
  destruct (files w !! sentTweetsFile) as [f|] eqn:Hf.
  - destruct (writable w) eqn:Hw.
    + exists (rotated now f (files w)). split.
      * now apply rotateSentTweetsFile_run.
      * left. apply rotated_main.
    + exists (files w). split; [|now right].
      unfold rotateSentTweetsFile, tryCatch. cbv zeta.
      rewrite bind_run. unfold Fs.renameSync. rewrite bind_run.
      unfold get at 1. cbv beta iota. rewrite Hf.
      unfold Fs.needWritable. rewrite !bind_run. unfold get at 1. cbv beta iota.
      rewrite Hw. unfold throw, ret. now rewrite withFiles_same.
  - exists (files w). split; [|now right].
    unfold rotateSentTweetsFile, tryCatch. cbv zeta.
    rewrite bind_run. unfold Fs.renameSync. rewrite bind_run.
    unfold get at 1. cbv beta iota. rewrite Hf.
    unfold throw, ret. now rewrite withFiles_same.
Qed.

Lemma loadSentTweets_unfold now :
  loadSentTweets JSON_parse JSON_stringify byteLength toISOString now =
  tryCatch
    (present ← Fs.existsSync sentTweetsFile;
     if present : bool then
       size ← statSyncSize byteLength sentTweetsFile;
       (if rotateThreshold <? size
        then rotateSentTweetsFile toISOString now else ret tt);;
       readTable now
     else ret tt)
    (fun _ => setSentTweets []).
Proof. reflexivity. Qed.

Lemma readTable_run now w :
  exists r w',
    readTable now w = (r, w') /\
    writable w' = writable w /\ telegramService w' = telegramService w /\
    ((exists e, r = Throw e) \/
     (r = Ok tt /\
      exists f entries,
        files w !! sentTweetsFile = Some f /\ readable f = true /\
        JSON_parse (data f) = Some entries /\
        sentTweets w' =
          JsSet.ofArray (map recordId (List.filter (recent now) entries)))).
Proof.
  unfold readTable. rewrite bind_run. unfold Fs.readFileSync.
  rewrite bind_run. unfold get at 1. cbv beta iota.
  destruct (files w !! sentTweetsFile) as [f|] eqn:Hf;
    [|eexists _, _; split; [reflexivity|]; repeat split; left; eauto].
  destruct (readable f) eqn:Hr;
    [|eexists _, _; split; [reflexivity|]; repeat split; left; eauto].
  unfold ret at 1. cbv beta iota. rewrite bind_run.
  destruct (JSON_parse (data f)) as [entries|] eqn:Hp;
    [|eexists _, _; split; [reflexivity|]; repeat split; left; eauto].
  unfold ret at 1. cbv beta iota zeta. fold (recent now).
  destruct (2 * length (List.filter (recent now) entries) <? length entries)%nat.
  - rewrite bind_run. unfold setSentTweets at 1. cbv beta iota.
    rewrite saveSentTweets_run. eexists _, _. split; [reflexivity|].
    cbn [writable sentTweets telegramService].
    destruct (writable w); (repeat split; []); right;
      (split; [reflexivity|]); exists f, entries; auto.
  - unfold setSentTweets. eexists _, _. split; [reflexivity|].
    repeat split. right. split; [reflexivity|]. exists f, entries. auto.
Qed.

(** Whatever the directory holds, [loadSentTweets] returns normally and
    leaves the Telegram service alone.  With no file it changes nothing;
    otherwise the sent set is empty, or it holds the ids of the recent
    entries of a file that could be read and parsed. *)
Lemma loadSentTweets_any now w :
  exists w',
    loadSentTweets JSON_parse JSON_stringify byteLength toISOString now w
      = (Ok tt, w') /\
    writable w' = writable w /\ telegramService w' = telegramService w /\
    ((files w !! sentTweetsFile = None /\ w' = w) \/
     sentTweets w' = [] \/
     exists f entries,
       files w !! sentTweetsFile = Some f /\ readable f = true /\
       JSON_parse (data f) = Some entries /\
       sentTweets w' =
         JsSet.ofArray (map recordId (List.filter (recent now) entries))).
Proof.
  rewrite loadSentTweets_unfold. unfold tryCatch. rewrite bind_run.
  unfold Fs.existsSync. rewrite bind_run. unfold get at 1, ret at 1.
  cbv beta iota.
  destruct (files w !! sentTweetsFile) as [f|] eqn:Hf.
  2: { rewrite bool_decide_eq_false_2 by (intros [? ?]; discriminate).
       exists w. repeat split. left; auto. }
  rewrite bool_decide_eq_true_2 by eauto.
  rewrite bind_run. unfold statSyncSize. rewrite bind_run.
  unfold get at 1. cbv beta iota. rewrite Hf. unfold ret at 1. cbv beta iota.
  rewrite bind_run.
  assert (Hgo : forall w1,
    exists w',
      (let (r, w'0) := readTable now w1 in
       match r with
       | Ok a => (Ok a, w'0)
       | Throw _ => setSentTweets [] w'0
       end) = (Ok tt, w') /\
      writable w' = writable w1 /\ telegramService w' = telegramService w1 /\
      (sentTweets w' = [] \/
       exists g entries,
         files w1 !! sentTweetsFile = Some g /\
         readable g = true /\ JSON_parse (data g) = Some entries /\
         sentTweets w' =
           JsSet.ofArray (map recordId (List.filter (recent now) entries)))).
  { intros w1.
    destruct (readTable_run now w1) as (r & w2 & E & Hwr & Htg & Hr). rewrite E.
    destruct Hr as [[e ->] | [-> (g & entries & Hg & Hrd & Hp & Hs)]].
    - eexists. split; [reflexivity|]. repeat split; try assumption. now left.
    - eexists. split; [reflexivity|]. repeat split; try assumption.
      right. exists g, entries. auto. }
  destruct (rotateThreshold <? byteLength (data f)).
  - destruct (rotateSentTweetsFile_any now w) as (dir & E & Hdir). rewrite E.
    destruct (Hgo (withFiles dir w)) as (w' & Ew & Hwr & Htg & Hw').
    exists w'. split; [exact Ew|]. split; [exact Hwr|]. split; [exact Htg|]. right.
    destruct Hw' as [?|(g & entries & Hg & ?)]; [now left|].
    right. exists g, entries. split; [|assumption].
    cbn [files withFiles] in Hg. rewrite Hf in Hdir.
    destruct Hdir as [Hd|Hd]; congruence.
  - unfold ret at 1. cbv beta iota.
    destruct (Hgo w) as (w' & Ew & Hwr & Htg & Hw').
    exists w'. split; [exact Ew|]. split; [exact Hwr|]. split; [exact Htg|]. right.
    destruct Hw' as [?|(g & entries & Hg & ?)]; [now left|].
    right. exists g, entries. split; [congruence | assumption].
Qed.

(** A sent-tweets file over the threshold in a writable directory:
    the file becomes the archive, the old archives are cleaned up and
    the sent set starts empty. *)
Lemma loadSentTweets_rotates now w f :
  files w !! sentTweetsFile = Some f ->
  rotateThreshold < byteLength (data f) -> writable w = true ->
  loadSentTweets JSON_parse JSON_stringify byteLength toISOString now w =
  (Ok tt, withSent [] (withFiles (rotated now f (files w)) w)).
Proof.
  intros Hf Hsize Hw.
  rewrite loadSentTweets_unfold. unfold tryCatch. rewrite bind_run.
  unfold Fs.existsSync. rewrite bind_run. unfold get at 1, ret at 1.
  cbv beta iota. rewrite Hf. rewrite bool_decide_eq_true_2 by eauto.
  rewrite bind_run. unfold statSyncSize. rewrite bind_run.
  unfold get at 1. cbv beta iota. rewrite Hf. unfold ret at 1. cbv beta iota.
  rewrite bind_run. apply N.ltb_lt in Hsize. rewrite Hsize.
  rewrite (rotateSentTweetsFile_run now w f Hf Hw).
  unfold readTable. rewrite bind_run. unfold Fs.readFileSync.
  rewrite bind_run. unfold get at 1. cbv beta iota. cbn [files withFiles].
  rewrite rotated_main. reflexivity.
Qed.

(** A readable, parsable file under the threshold: the sent set becomes
    the ids of its recent entries. *)
Lemma loadSentTweets_reads now w f entries :
  files w !! sentTweetsFile = Some f ->
  byteLength (data f) <= rotateThreshold -> readable f = true ->
  JSON_parse (data f) = Some entries ->
  sentTweets
    (snd (loadSentTweets JSON_parse JSON_stringify byteLength toISOString now w))
  = JsSet.ofArray (map recordId (List.filter (recent now) entries)).
Proof.
  intros Hf Hsize Hr Hp.
  rewrite loadSentTweets_unfold. unfold tryCatch. rewrite bind_run.
  unfold Fs.existsSync. rewrite bind_run. unfold get at 1, ret at 1.
  cbv beta iota. rewrite Hf. rewrite bool_decide_eq_true_2 by eauto.
  rewrite bind_run. unfold statSyncSize. rewrite bind_run.
  unfold get at 1. cbv beta iota. rewrite Hf. unfold ret at 1. cbv beta iota.
  rewrite bind_run. apply N.ltb_ge in Hsize. rewrite Hsize.
  unfold ret at 1. cbv beta iota.
  destruct (readTable_run now w) as (r & w' & E & _ & _ & Hcases).
  rewrite E.
  assert (Hok : r = Ok tt).
  { unfold readTable in E. rewrite bind_run in E. unfold Fs.readFileSync in E.
    rewrite bind_run in E. unfold get at 1 in E. cbv beta iota in E.
    rewrite Hf, Hr in E. unfold ret at 1 in E. cbv beta iota in E.
    rewrite bind_run, Hp in E. unfold ret at 1 in E. cbv beta iota zeta in E.
    destruct (2 * length _ <? length entries)%nat in E.
    - rewrite bind_run in E. unfold setSentTweets at 1 in E. cbv beta iota in E.
      rewrite saveSentTweets_run in E. now injection E as <- _.
    - unfold setSentTweets in E. now injection E as <- _. }
  subst r. cbn [snd].
  destruct Hcases as [[e [=]] | [_ (g & entries' & Hg & _ & Hp' & ->)]].
  assert (g = f) as -> by congruence. congruence.
Qed.

End Engine.
End LoadFacts.

(** * The properties *)

Section Properties.
Import JsString RegExp Classifier TelegramService RTCleaner Described.
Import ClassifierFacts TextFacts.
Import TelegramFacts CleanerFacts ArchiveFacts LoadFacts.

Variable JSON_parse : jsstring -> option (list SentTweetTracker).
Variable JSON_stringify : list SentTweetTracker -> jsstring.
Variable byteLength : jsstring -> N.
Variable toISOString : Z -> jsstring.

Lemma classify_Original text :
  classify text = Original <-> isRetweet text = false /\ isReply text = false.
Proof.
  unfold classify. destruct (isRetweet text), (isReply text);
    split; try discriminate; intuition discriminate.
Qed.

Lemma truthy_iff text : truthy text = true <-> exists t, text = Some t /\ t <> [].
Proof.
  destruct text as [[|c t]|]; simpl; split; try discriminate.
  - intros (t & [= <-] & H). congruence.
  - intros _. eexists. split; [reflexivity | discriminate].
  - reflexivity.
  - intros (t & H & _). discriminate H.
Qed.

Lemma isNewTweet_iff sent record :
  isNewTweet sent record = true <->
  classify (Text (fields record)) = Original /\
  (exists t, Text (fields record) = Some t /\ t <> []) /\
  id record ∉ sent.
Proof.
  unfold isNewTweet. cbv zeta. rewrite classify_Original, <- truthy_iff.
  destruct (isRetweet (Text (fields record))); [intuition discriminate|].
  destruct (isReply (Text (fields record))); [intuition discriminate|].
  rewrite andb_true_iff, negb_true_iff, <- not_true_iff_false, JsSetFacts.has_true.
  tauto.
Qed.

Lemma elem_of_noted cs update c :
  c ∈ noted cs update <-> c ∈ cs \/ chatOf update = Some c.
Proof.
  unfold noted, chatOf.
  destruct (message_chat update) as [x|];
    [|destruct (channel_post_chat update) as [x|]];
    rewrite ?JsSetFacts.elem_of_add.
  - split; [intros [?| ->]; auto | intros [?|[= ->]]; auto].
  - split; [intros [?| ->]; auto | intros [?|[= ->]]; auto].
  - split; [auto | intros [?|[=]]; auto].
Qed.

Lemma elem_of_discovered bot cs c :
  c ∈ discovered bot cs <-> c ∈ cs \/ rediscovers bot c.
Proof.
  unfold discovered, rediscovers. destruct (getUpdates bot) as [updates|].
  - assert (Hfold : forall cs,
      c ∈ foldl noted cs updates <->
      c ∈ cs \/ exists update, update ∈ updates /\ chatOf update = Some c).
    { induction updates as [|u updates IH]; intros cs0; simpl.
      - split; [now left | intros [?|(u & Hu & _)]; [assumption | inversion Hu]].
      - rewrite IH, elem_of_noted. split.
        + intros [[?|?]|(u' & Hu' & E)]; [now left | right | right].
          * exists u. split; [now left | assumption].
          * exists u'. split; [now right | assumption].
        + intros [?|(u' & Hu' & E)]; [now left; left|].
          apply elem_of_cons in Hu' as [-> | Hu'].
          * left. now right.
          * right. now exists u'. }
    rewrite Hfold. split; intros [?|H]; auto.
    + right. destruct H as (u & ? & ?). now exists updates, u.
    + right. destruct H as (us & u & [= <-] & ? & ?). now exists u.
  - split; [now left | intros [?|(us & u & [=] & _)]; assumption].
Qed.

(** C1: with the Telegram service configured and the query answered,
    [sendNewTweets] hands over a batch that holds a fetched record if
    and only if its text is neither a retweet nor a reply (its category
    is Original), the text is present and not empty, and its id is not
    in the sent set.  On the three records of the scenario, with
    nothing sent yet, the batch is exactly the record with id 3. *)
Theorem notification_batch_iff bot now w cs records :
  telegramService w = Some cs ->
  exists batch sends w',
    sendNewTweets JSON_stringify bot (Some records) now w
      = (Ok (batch, sends), w') /\
    (forall record,
       record ∈ batch <->
       record ∈ records /\
       classify (Text (fields record)) = Original /\
       (exists t, Text (fields record) = Some t /\ t <> []) /\
       id record ∉ sentTweets w) /\
    (records = Sample.fetched -> sentTweets w = [] ->
     batch = [Sample.record "3" "hello world"]).
Proof.
  intros H.
  pose proof (sendNewTweets_run JSON_stringify bot records now w cs H) as E.
  cbv zeta in E.
  assert (Hiff : forall record,
    record ∈ List.filter (isNewTweet (sentTweets w)) records <->
    record ∈ records /\ classify (Text (fields record)) = Original /\
    (exists t, Text (fields record) = Some t /\ t <> []) /\
    id record ∉ sentTweets w).
  { intros record.
    rewrite list_elem_of_In, List.filter_In, <- list_elem_of_In, isNewTweet_iff.
    reflexivity. }
  assert (Hsc : records = Sample.fetched -> sentTweets w = [] ->
    List.filter (isNewTweet (sentTweets w)) records
      = [Sample.record "3" "hello world"]).
  { intros -> ->. vm_compute. reflexivity. }
  destruct (List.filter (isNewTweet (sentTweets w)) records) as [|r batch] eqn:Eb;
    eexists _, _, _; (split; [exact E|]); split; assumption.
Qed.

(** C2: [isRetweet] answers true exactly when the trimmed text is a
    retweet attribution: RT in any letter case, optional white space,
    an [@] with a handle of word characters, then a colon with optional
    white space around it, or at least one white-space character.  The
    documented variants are retweets; a missing or empty text is not. *)
Theorem isRetweet_spec :
  (forall t, isRetweet (Some t) = true <-> RetweetAttribution (trim t)) /\
  Forall (fun s => isRetweet (Some (js s)) = true)
    ["RT @username: hi"; "RT@username: hi"; "RT @username : hi";
     "rt @username: hi"; "rt @username : hi"; "RT @user_name: hi";
     "rt @user_name: hi"; "RT @username hi"; "rt @username hi";
     "Rt  @username  :hi"; "  rT @username hi"]%string /\
  isRetweet None = false /\
  isRetweet (Some []) = false.
Proof.
  split; [exact isRetweet_iff|]. split; [|split; reflexivity].
  repeat constructor.
Qed.


Lemma elem_of_marked (batch : list AirtableRecord) sent x :
  x ∈ foldl JsSet.add sent (map id batch) <->
  x ∈ sent \/ exists record, record ∈ batch /\ id record = x.
Proof.
  rewrite JsSetFacts.elem_of_foldl_add. apply or_iff_compat_l.
  rewrite list_elem_of_In, in_map_iff. split.
  - intros (r & <- & Hr). exists r. split; [now apply list_elem_of_In | reflexivity].
  - intros (r & Hr & <-). exists r. split; [reflexivity | now apply list_elem_of_In].
Qed.

(** C4, as the code has it: marking an id as sent twice leaves the sent
    set as marking it once does, and of two consecutive cycles that
    both fetch an Original record not yet sent, only the first
    dispatches it: the first hands it to the notifier in a batch whose
    message carries its excerpt and goes once to every chat known after
    the scan of the backlog (to none when no chat is known: the record
    is marked all the same), and the second marks nothing new for it:
    its batch holds no record of that id, and its sends carry the
    message of that batch only.  The cycles run in one process, where
    the sent set never expires. *)
Theorem sent_once_over_two_cycles
    bot1 bot2 now1 now2 w cs records1 records2 record :
  telegramService w = Some cs ->
  record ∈ records1 -> record ∈ records2 ->
  classify (Text (fields record)) = Original ->
  (exists t, Text (fields record) = Some t /\ t <> []) ->
  id record ∉ sentTweets w ->
  (forall (sent : list jsstring) x,
     JsSet.add (JsSet.add sent x) x = JsSet.add sent x) /\
  exists batch1 sends1 w1 cs1 batch2 sends2 w2,
    sendNewTweets JSON_stringify bot1 (Some records1) now1 w
      = (Ok (batch1, sends1), w1) /\
    sendNewTweets JSON_stringify bot2 (Some records2) now2 w1
      = (Ok (batch2, sends2), w2) /\
    record ∈ batch1 /\
    sends1 = map (fun chatId => (chatId, formatTweetMessage (map fields batch1)))
                 (discovered bot1 cs) /\
    Contains (excerpt (fields record)) (formatTweetMessage (map fields batch1)) /\
    (sends1 = [] <-> cs = [] /\ forall chatId, ~ rediscovers bot1 chatId) /\
    (forall other, other ∈ batch2 -> id other <> id record) /\
    telegramService w1 = Some cs1 /\
    sends2 = match batch2 with
             | [] => []
             | _ => map (fun chatId =>
                           (chatId, formatTweetMessage (map fields batch2)))
                        (discovered bot2 cs1)
             end /\
    JsSet.has (sentTweets w2) (id record) = true.
Proof.
  intros H Hin1 Hin2 Hc Ht Hnew. split; [intros; apply JsSetFacts.add_idempotent|].
  pose proof (sendNewTweets_run JSON_stringify bot1 records1 now1 w cs H) as E1.
  cbv zeta in E1.
  assert (Hb1 : record ∈ List.filter (isNewTweet (sentTweets w)) records1).
  { rewrite list_elem_of_In, List.filter_In, <- list_elem_of_In, isNewTweet_iff.
    auto. }
  destruct (List.filter (isNewTweet (sentTweets w)) records1) as [|r batch1] eqn:Eb1;
    [inversion Hb1|].
  set (w1 := afterDispatch JSON_stringify bot1 now1 (r :: batch1) cs w) in *.
  assert (Hmarked : id record ∈ sentTweets w1).
  { unfold w1, afterDispatch. cbn [sentTweets]. apply elem_of_marked.
    right. now exists record. }
  assert (Hcarried :
    Contains (excerpt (fields record)) (formatTweetMessage (map fields (r :: batch1)))).
  { apply formatTweetMessage_Contains, list_elem_of_In, in_map, list_elem_of_In, Hb1. }
  assert (Hnone :
    map (fun chatId => (chatId, formatTweetMessage (map fields (r :: batch1))))
        (discovered bot1 cs) = [] <->
    cs = [] /\ forall chatId, ~ rediscovers bot1 chatId).
  { split.
    - intros Hs. apply map_eq_nil in Hs.
      assert (Hno : forall chatId, chatId ∉ discovered bot1 cs)
        by (intros chatId; rewrite Hs; apply not_elem_of_nil).
      split.
      + destruct cs as [|c0 cs0]; [reflexivity|]. exfalso.
        apply (Hno c0), elem_of_discovered. left. apply list_elem_of_here.
      + intros chatId Hr. apply (Hno chatId), elem_of_discovered. now right.
    - intros [-> Hno].
      destruct (discovered bot1 []) as [|c0 l] eqn:Ed; [reflexivity|]. exfalso.
      assert (Hc0 : c0 ∈ discovered bot1 []) by (rewrite Ed; apply list_elem_of_here).
      apply elem_of_discovered in Hc0 as [Hc0|Hc0]; [inversion Hc0|].
      exact (Hno c0 Hc0). }
  pose proof (sendNewTweets_run JSON_stringify bot2 records2 now2 w1 _ eq_refl)
    as E2.
  cbv zeta in E2.
  assert (Hb2 : forall other,
    other ∈ List.filter (isNewTweet (sentTweets w1)) records2 ->
    id other <> id record).
  { intros other Ho.
    rewrite list_elem_of_In, List.filter_In, isNewTweet_iff in Ho.
    destruct Ho as (_ & _ & _ & Ho). congruence. }
  destruct (List.filter (isNewTweet (sentTweets w1)) records2) as [|r2 batch2] eqn:Eb2.
  - eexists _, _, _, _, _, _, _. split; [exact E1|]. split; [exact E2|].
    split; [assumption|]. split; [reflexivity|]. split; [assumption|].
    split; [assumption|]. split; [assumption|].
    split; [reflexivity|]. split; [reflexivity|].
    now apply JsSetFacts.has_true.
  - eexists _, _, _, _, _, _, _. split; [exact E1|]. split; [exact E2|].
    split; [assumption|]. split; [reflexivity|]. split; [assumption|].
    split; [assumption|]. split; [assumption|].
    split; [reflexivity|]. split; [reflexivity|].
    apply JsSetFacts.has_true. unfold afterDispatch. cbn [sentTweets].
    apply elem_of_marked. now left.
Qed.

Lemma recordId_tableAt now sent : map recordId (tableAt now sent) = sent.
Proof. unfold tableAt. rewrite map_map. apply map_id. Qed.

Lemma tableAt_recent now now' sent :
  (now' - sixHours < now)%Z ->
  List.filter (recent now') (tableAt now sent) = tableAt now sent.
Proof.
  intros H. unfold tableAt. induction sent as [|x sent IH]; simpl; [reflexivity|].
  rewrite IH. unfold recent at 1, dateGt. cbn [sentAt].
  apply Z.ltb_lt in H. now rewrite H.
Qed.

(** The retention window at work (with C4): a record dispatched at
    [now1] is not dispatched again by a process started at [now2], less
    than six hours later, from the directory the first one left, as long
    as the file it left is under the rotation threshold and [JSON.parse]
    reads from it the table that was written. *)
Theorem sent_once_across_restart
    bot1 bot2 now1 now2 now3 w cs cs2 records1 records2 record :
  telegramService w = Some cs -> writable w = true ->
  record ∈ records1 ->
  classify (Text (fields record)) = Original ->
  (exists t, Text (fields record) = Some t /\ t <> []) ->
  id record ∉ sentTweets w ->
  (now2 - sixHours < now1)%Z ->
  exists batch1 sends1 w1,
    sendNewTweets JSON_stringify bot1 (Some records1) now1 w
      = (Ok (batch1, sends1), w1) /\
    record ∈ batch1 /\
    ((forall f, files w1 !! sentTweetsFile = Some f ->
                byteLength (data f) <= rotateThreshold /\
                JSON_parse (data f) = Some (tableAt now1 (sentTweets w1))) ->
     exists batch2 sends2 w3,
       sendNewTweets JSON_stringify bot2 (Some records2) now3
         (construct JSON_parse JSON_stringify byteLength toISOString
            (files w1) (writable w1) (Some cs2) now2)
         = (Ok (batch2, sends2), w3) /\
       forall other, other ∈ batch2 -> id other <> id record).
Proof.
  intros H Hw Hin Hc Ht Hnew Hwin.
  pose proof (sendNewTweets_run JSON_stringify bot1 records1 now1 w cs H) as E1.
  cbv zeta in E1.
  assert (Hb1 : record ∈ List.filter (isNewTweet (sentTweets w)) records1).
  { rewrite list_elem_of_In, List.filter_In, <- list_elem_of_In, isNewTweet_iff.
    auto. }
  destruct (List.filter (isNewTweet (sentTweets w)) records1) as [|r batch1] eqn:Eb1;
    [inversion Hb1|].
  eexists _, _, _. split; [exact E1|]. split; [exact Hb1|].
  intros Hleft.
  set (sent1 := foldl JsSet.add (sentTweets w) (map id (r :: batch1))) in *.
  set (w1 := afterDispatch JSON_stringify bot1 now1 (r :: batch1) cs w) in *.
  assert (Hfile : files w1 !! sentTweetsFile = Some (flushed JSON_stringify now1 sent1)).
  { unfold w1, afterDispatch. cbn [files]. rewrite Hw. apply lookup_insert_eq. }
  set (w0 := {| files := files w1; writable := writable w1; sentTweets := [];
                telegramService := Some cs2 |}).
  assert (Hsent :
    sentTweets (construct JSON_parse JSON_stringify byteLength toISOString
                  (files w1) (writable w1) (Some cs2) now2)
    = JsSet.ofArray sent1).
  { unfold construct. fold w0.
    rewrite (loadSentTweets_reads JSON_parse JSON_stringify byteLength toISOString
               now2 w0 _ (tableAt now1 sent1) Hfile).
    - now rewrite tableAt_recent, recordId_tableAt.
    - now apply Hleft.
    - reflexivity.
    - now apply Hleft. }
  assert (Htg :
    telegramService (construct JSON_parse JSON_stringify byteLength toISOString
                       (files w1) (writable w1) (Some cs2) now2) = Some cs2).
  { unfold construct. fold w0.
    destruct (loadSentTweets_any JSON_parse JSON_stringify byteLength toISOString
                now2 w0) as (w' & E & _ & Htg & _).
    rewrite E. exact Htg. }
  pose proof (sendNewTweets_run JSON_stringify bot2 records2 now3 _ cs2 Htg) as E2.
  cbv zeta in E2. rewrite Hsent in E2.
  assert (Hb2 : forall other,
    other ∈ List.filter (isNewTweet (JsSet.ofArray sent1)) records2 ->
    id other <> id record).
  { intros other Ho.
    rewrite list_elem_of_In, List.filter_In, isNewTweet_iff in Ho.
    destruct Ho as (_ & _ & _ & Ho). intros E. apply Ho. rewrite E.
    apply JsSetFacts.elem_of_ofArray. unfold sent1. apply elem_of_marked.
    right. now exists record. }
  destruct (List.filter (isNewTweet (JsSet.ofArray sent1)) records2) as [|r2 batch2];
    eexists _, _, _; (split; [exact E2 | exact Hb2]).
Qed.

(** C5, as the code has it: after the load of the constructor,
    [sentTweets.has(id)] is false for an id all of whose entries in the
    file carry a valid [sentAt] of six hours ago or earlier: only
    entries newer than the window enter the sent set, whether or not the
    old ones were ever removed from the file.  (The load runs in the
    constructor only; the sent set in memory carries no dates.) *)
Theorem expired_entries_not_sent dir canWrite telegram now recId :
  (forall f entries entry t,
     dir !! sentTweetsFile = Some f -> JSON_parse (data f) = Some entries ->
     entry ∈ entries -> recordId entry = recId -> sentAt entry = Some t ->
     (t <= now - sixHours)%Z) ->
  JsSet.has
    (sentTweets
       (construct JSON_parse JSON_stringify byteLength toISOString
          dir canWrite telegram now))
    recId = false.
Proof.
  intros Hold. apply not_true_iff_false. rewrite JsSetFacts.has_true.
  unfold construct.
  destruct (loadSentTweets_any JSON_parse JSON_stringify byteLength toISOString now
              {| files := dir; writable := canWrite; sentTweets := [];
                 telegramService := telegram |})
    as (w' & E & _ & _ & Hw').
  rewrite E. cbn [snd].
  destruct Hw' as [[_ ->] | [-> | (f & entries & Hf & _ & Hp & ->)]];
    cbn [sentTweets files] in *; try apply not_elem_of_nil.
  rewrite JsSetFacts.elem_of_ofArray, list_elem_of_In, in_map_iff.
  intros (entry & Hid & Hin). apply List.filter_In in Hin as [Hin Hrec].
  unfold recent, dateGt in Hrec.
  destruct (sentAt entry) as [t|] eqn:Et; [|discriminate].
  apply Z.ltb_lt in Hrec.
  apply list_elem_of_In in Hin.
  specialize (Hold f entries entry t Hf Hp Hin Hid Et). lia.
Qed.

(** C7: [loadSentTweets] always returns normally, and when the file
    cannot be read or does not parse, the sent set afterwards is empty
    whatever it held before. *)
Theorem corrupt_state_recovered now w :
  fst (loadSentTweets JSON_parse JSON_stringify byteLength toISOString now w)
    = Ok tt /\
  forall f,
    files w !! sentTweetsFile = Some f ->
    readable f = false \/ JSON_parse (data f) = None ->
    sentTweets
      (snd (loadSentTweets JSON_parse JSON_stringify byteLength toISOString now w))
      = [].
Proof.
  destruct (loadSentTweets_any JSON_parse JSON_stringify byteLength toISOString now w)
    as (w' & E & _ & _ & Hw').
  rewrite E. split; [reflexivity|]. intros f Hf Hbad. cbn [snd].
  destruct Hw' as [[Hnone _] | [Hs | (g & entries & Hg & Hr & Hp & _)]].
  - congruence.
  - exact Hs.
  - assert (g = f) as -> by congruence. destruct Hbad; congruence.
Qed.

Lemma kept_or_stale (l : list jsstring) x :
  NoDup l -> x ∈ take 5 l <-> x ∈ l /\ x ∉ drop 5 l.
Proof.
  intros Hnd. rewrite <- (take_drop 5 l) in Hnd at 1.
  apply NoDup_app in Hnd as (_ & Hdis & _).
  rewrite <- (take_drop 5 l) at 2. rewrite elem_of_app. split.
  - intros H. split; [now left | now apply Hdis].
  - intros [[H|H] Hn]; [assumption | contradiction].
Qed.

(** C6, as the code has it: when the sent-tweets file is over the
    threshold and the directory can be written, the load renames the
    file to the archive of the time, a new file unless an archive of
    that second exists already (the directory then keeps its number of
    entries before the cleanup); the sent set starts empty and the
    sent-tweets file is gone; of the files named like archives, sorted
    by name, all but the five newest are removed, so at most five remain
    and none removed is newer than one kept; with a four-digit year the
    new archive is named like one and is listed among them. *)
Theorem oversized_file_rotated now w f :
  files w !! sentTweetsFile = Some f ->
  rotateThreshold < byteLength (data f) ->
  writable w = true ->
  let w' :=
    snd (loadSentTweets JSON_parse JSON_stringify byteLength toISOString now w) in
  let archive := archiveFileAt toISOString now in
  let moved := <[archive := f]> (delete sentTweetsFile (files w)) in
  let archives := archivesOf (elements (dom moved)) in
  sentTweets w' = [] /\
  files w' !! sentTweetsFile = None /\
  (forall name,
     files w' !! name =
     if bool_decide (name ∈ drop 5 archives) then None else moved !! name) /\
  (files w !! archive = None -> size moved = size (files w)) /\
  (forall name g,
     files w' !! name = Some g ->
     (name = archive /\ g = f) \/ (name <> archive /\ files w !! name = Some g)) /\
  (length (List.filter (test archivePattern) (elements (dom (files w')))) <= 5)%nat /\
  (forall kept removed,
     kept ∈ take 5 archives -> removed ∈ drop 5 archives ->
     strLe removed kept = true) /\
  (test isoSeconds (take 19 (toISOString now)) = true -> archive ∈ archives).
Proof.
  intros Hf Hsize Hw w' archive moved archives.
  assert (Ew : w' = withSent [] (withFiles (rotated toISOString now f (files w)) w)).
  { unfold w'. now rewrite (loadSentTweets_rotates _ _ _ _ now w f Hf Hsize Hw). }
  assert (Hlook : forall name,
    files w' !! name =
    if bool_decide (name ∈ drop 5 archives) then None else moved !! name).
  { intros name. rewrite Ew. cbn [files withSent withFiles].
    unfold rotated. now rewrite lookup_unlinked. }
  split; [now rewrite Ew|].
  split; [rewrite Ew; apply rotated_main|].
  split; [exact Hlook|].
  split; [|split; [|split; [|split]]].
  - intros Hfresh. unfold moved. rewrite map_size_insert_None.
    + rewrite map_size_delete_Some by eauto.
      destruct (size (files w)) eqn:Es; [|reflexivity].
      apply map_size_empty_inv in Es. rewrite Es in Hf. now rewrite lookup_empty in Hf.
    + rewrite lookup_delete_ne; [exact Hfresh|].
      intros E. symmetry in E. now apply archive_not_main in E.
  - intros name g. rewrite Hlook. case_bool_decide; [discriminate|].
    unfold moved. destruct (decide (name = archive)) as [->|Hne].
    + rewrite lookup_insert_eq. intros [= <-]. now left.
    + rewrite lookup_insert_ne by congruence. intros Hg. right.
      split; [assumption|].
      destruct (decide (name = sentTweetsFile)) as [->|Hne'].
      * now rewrite lookup_delete_eq in Hg.
      * now rewrite lookup_delete_ne in Hg by congruence.
  - assert (Hnd : NoDup archives) by apply NoDup_archivesOf, NoDup_elements.
    assert (Hperm :
      List.filter (test archivePattern) (elements (dom (files w')))
        ≡ₚ take 5 archives).
    { apply NoDup_Permutation.
      - apply NoDup_List_filter, NoDup_elements.
      - eapply sublist_NoDup; [exact Hnd | apply sublist_take].
      - intros x. rewrite (kept_or_stale archives x Hnd).
        unfold archives at 1. rewrite elem_of_archivesOf.
        rewrite list_elem_of_In, List.filter_In, <- list_elem_of_In.
        rewrite !elem_of_elements, !elem_of_dom, Hlook.
        case_bool_decide as Hx.
        + split; [intros [[? [=]] _] | tauto].
        + tauto. }
    rewrite Hperm, length_take. lia.
  - intros kept removed. apply archivesOf_newest.
  - intros Hiso. apply elem_of_archivesOf. split.
    + apply elem_of_elements, elem_of_dom. unfold moved.
      rewrite lookup_insert_eq. eauto.
    + now apply archive_named_as_archive.
Qed.

(** C8: once a batch is handed to the notifier, [sendNewTweets] returns
    normally whatever each send does; the message goes to every chat
    known after the scan of the backlog, every record of the batch is
    in the sent set afterwards, and the set is flushed: in a writable
    directory the sent-tweets file holds the table of the whole set. *)
Theorem batch_marked_whatever_the_sends bot now w cs records :
  telegramService w = Some cs ->
  List.filter (isNewTweet (sentTweets w)) records <> [] ->
  exists sends w',
    let batch := List.filter (isNewTweet (sentTweets w)) records in
    sendNewTweets JSON_stringify bot (Some records) now w
      = (Ok (batch, sends), w') /\
    map fst sends = discovered bot cs /\
    (forall record, record ∈ batch -> JsSet.has (sentTweets w') (id record) = true) /\
    (forall x, x ∈ sentTweets w' <->
               x ∈ sentTweets w \/ exists record, record ∈ batch /\ id record = x) /\
    (writable w = true ->
     files w' !! sentTweetsFile = Some (flushed JSON_stringify now (sentTweets w'))).
Proof.
  intros H Hne.
  pose proof (sendNewTweets_run JSON_stringify bot records now w cs H) as E.
  cbv zeta in E |- *.
  destruct (List.filter (isNewTweet (sentTweets w)) records) as [|r batch] eqn:Eb;
    [congruence|].
  eexists _, _. split; [exact E|].
  unfold afterDispatch. cbn [sentTweets files].
  split; [|split; [|split]].
  - rewrite map_map. cbn [fst]. apply map_id.
  - intros record Hr. apply JsSetFacts.has_true, elem_of_marked. right. now exists record.
  - intros x. apply elem_of_marked.
  - intros ->. apply lookup_insert_eq.
Qed.

(** C9: a chat the message is sent to is dropped from the known chats
    when its send is refused with error 403 of the API, and then the
    next fan-out leaves it out unless the backlog names it again; any
    other outcome of the send keeps the chat. *)
Theorem forbidden_chat_removed bot tweets w cs chat :
  telegramService w = Some cs -> tweets <> [] -> chat ∈ discovered bot cs ->
  exists sends w' cs',
    sendTweetNotifications bot tweets w = (Ok sends, w') /\
    telegramService w' = Some cs' /\
    (chat, formatTweetMessage tweets) ∈ sends /\
    (sendMessage bot chat (formatTweetMessage tweets)
       = Rejected ETELEGRAM (Some 403%Z) ->
     (chat ∉ cs') /\
     (forall bot' tweets',
        ~ rediscovers bot' chat ->
        exists sends' w'',
          sendTweetNotifications bot' tweets' w' = (Ok sends', w'') /\
          chat ∉ map fst sends')) /\
    (sendMessage bot chat (formatTweetMessage tweets)
       <> Rejected ETELEGRAM (Some 403%Z) ->
     chat ∈ cs').
Proof.
  intros H Hne Hin.
  pose proof (sendTweetNotifications_run bot tweets w cs H Hne) as E.
  cbv zeta in E. eexists _, _, _. split; [exact E|].
  split; [reflexivity|]. split.
  { apply list_elem_of_In, in_map_iff. exists chat.
    split; [reflexivity | now apply list_elem_of_In]. }
  split.
  - intros Hsend. assert (Hgone :
      chat ∉ foldl (settled bot (formatTweetMessage tweets))
               (discovered bot cs) (discovered bot cs)).
    { rewrite elem_of_settled. intros [_ Hn]. apply Hn.
      split; [assumption|]. now rewrite Hsend. }
    split; [exact Hgone|].
    intros bot' tweets' Hno.
    destruct tweets' as [|t' tweets'].
    { eexists _, _. split; [reflexivity | apply not_elem_of_nil]. }
    eexists _, _. split.
    { apply sendTweetNotifications_run; [reflexivity | discriminate]. }
    rewrite map_map. cbn [fst]. rewrite map_id, elem_of_discovered.
    intros [?|?]; contradiction.
  - intros Hsend. rewrite elem_of_settled. split; [assumption|].
    intros [_ Hp]. apply Hsend. unfold permanent, botWasRemoved in Hp.
    destruct (sendMessage bot chat (formatTweetMessage tweets))
      as [|[] [z|]]; try discriminate.
    apply Z.eqb_eq in Hp. now subst.
Qed.

(** C10, as the code has it: the excerpt of every record of the message
    is the text itself when it has at most 100 code units, and
    otherwise the first 100 code units with the white space at both
    ends trimmed away; it never has more than 100 code units.  A text
    of fewer than 100 code units gets no marker; a text of more than
    100 whose first 100 code units neither begin nor end with white
    space gets the marker after those 100 code units.  The cut counts
    code units and does not look at surrogate pairs. *)
Theorem excerpt_truncated tweets tweet :
  tweet ∈ tweets ->
  let text := orEmpty (Text tweet) in
  Contains (excerpt tweet) (formatTweetMessage tweets) /\
  (length (excerptText tweet) <= 100)%nat /\
  ((length text <= 100)%nat -> excerptText tweet = text) /\
  ((100 < length text)%nat ->
   excerptText tweet = trim (take 100 text) /\
   (forall c, head (excerptText tweet) = Some c -> isWhiteSpace c = false) /\
   (forall c, last (excerptText tweet) = Some c -> isWhiteSpace c = false)) /\
  ((length text < 100)%nat -> excerpt tweet = text) /\
  ((100 < length text)%nat ->
   (forall c, head (take 100 text) = Some c -> isWhiteSpace c = false) ->
   (forall c, last (take 100 text) = Some c -> isWhiteSpace c = false) ->
   excerpt tweet = take 100 text ++ js "...").
Proof.
  intros Hin text. unfold excerpt, excerptText. fold text.
  split; [now apply formatTweetMessage_Contains|].
  split; [apply truncateText_length|].
  split; [apply truncateText_short|].
  split; [|split].
  - intros Hlong. rewrite (truncateText_long text 100 Hlong).
    split; [reflexivity|]. split; [apply trim_head | apply trim_last].
  - intros Hshort. rewrite truncateText_short by lia.
    unfold marker. rewrite bool_decide_eq_false_2 by lia. apply app_nil_r.
  - intros Hlong Hh Hl. rewrite (truncateText_long text 100 Hlong).
    unfold substring0. rewrite (trim_id _ Hh Hl).
    unfold marker. rewrite bool_decide_eq_true_2; [reflexivity|].
    rewrite length_take. lia.
Qed.

End Properties.

(** * The properties on the sample data *)

(** C5 fails as stated: seven hours after the cycle, in the same process,
    the only entry of record 3 in the file is older than the window, and
    yet the id is in the sent set and the record is not dispatched
    again.  The sent set of a running process does not expire. *)
Lemma sent_set_outlives_window :
  let sevenHours := (7 * 60 * 60 * 1000)%Z in
  files Sample.afterFirstCycle !! RTCleaner.sentTweetsFile
    = Some {| data := Sample.stringify [{| recordId := js "3"; sentAt := Some 0%Z |}];
              readable := true |} /\
  Described.recent sevenHours {| recordId := js "3"; sentAt := Some 0%Z |} = false /\
  JsSet.has (sentTweets Sample.afterFirstCycle) (js "3") = true /\
  fst (RTCleaner.sendNewTweets Sample.stringify Sample.quietBot
         (Some Sample.fetched) sevenHours Sample.afterFirstCycle) = Ok ([], []).
Proof. cbv zeta. repeat split; vm_compute; reflexivity. Qed.

(** C4 fails as stated: with no chat known and none in the backlog, the
    first cycle hands record 3 to the notifier, which sends nothing, and
    marks it; the second cycle has nothing new.  The record is Original,
    unsent and fetched by both cycles, and no message goes out for it:
    no dispatch, not one. *)
Lemma marked_without_a_send :
  let first :=
    RTCleaner.sendNewTweets Sample.stringify Sample.quietBot (Some Sample.fetched)
      0%Z Sample.unjoined in
  let second :=
    RTCleaner.sendNewTweets Sample.stringify Sample.quietBot (Some Sample.fetched)
      60000%Z (snd first) in
  Classifier.classify (Text (fields (Sample.record "3" "hello world")))
    = Classifier.Original /\
  fst first = Ok ([Sample.record "3" "hello world"], []) /\
  JsSet.has (sentTweets (snd first)) (js "3") = true /\
  fst second = Ok ([], []).
Proof. cbv zeta. repeat split; vm_compute; reflexivity. Qed.

(** C6 fails as stated: in a directory that cannot be written the
    rename is refused, the failure is caught, and the load reads the
    oversized file: the sent set is not empty and no archive is made. *)
Lemma rename_refused_replays_file :
  let w' :=
    snd (RTCleaner.loadSentTweets Sample.parse Sample.stringify Sample.mebibytes
           Sample.isoString 0%Z Sample.readOnly) in
  files Sample.readOnly !! RTCleaner.sentTweetsFile
    = Some {| data := js "0123456789A"; readable := true |} /\
  (RTCleaner.rotateThreshold < Sample.mebibytes (js "0123456789A"))%N /\
  sentTweets w' = [js "3"] /\
  files w' = files Sample.readOnly.
Proof. cbv zeta. repeat split; vm_compute; reflexivity. Qed.

(** An archive of the same second is replaced: the rotation then adds no
    file. *)
Example archive_of_same_second_replaced :
  let dir :=
    <[js "sent-tweets-2026-11-02T10-00-00.json" := Sample.old "x"]>
      (files Sample.oversized) in
  let w' :=
    snd (RTCleaner.loadSentTweets Sample.parse Sample.stringify Sample.mebibytes
           Sample.isoString 0%Z
           {| files := dir; writable := true; sentTweets := [];
              telegramService := None |}) in
  size dir = 2%nat /\ size (files w') = 1%nat /\
  files w' !! js "sent-tweets-2026-11-02T10-00-00.json"
    = Some {| data := js "0123456789A"; readable := true |}.
Proof. cbv zeta. repeat split; vm_compute; reflexivity. Qed.

(** C10 fails as stated: the excerpt of a well-formed text of 102 code
    units ends in the first half of a surrogate pair. *)
Lemma excerpt_splits_surrogate_pair :
  JsString.wellFormed Sample.emojiText = true /\
  TelegramService.excerptText
    {| Text := Some Sample.emojiText; UserName := None; LinkToTweet := None;
       CreatedAt := None |}
    = repeat 97%N 99 ++ [55357%N] /\
  JsString.wellFormed
    (TelegramService.excerptText
       {| Text := Some Sample.emojiText; UserName := None; LinkToTweet := None;
          CreatedAt := None |}) = false.
Proof. repeat split; vm_compute; reflexivity. Qed.

(** The marker follows the length of the excerpt, not the cut: a text of
    exactly 100 code units is not cut and gets the marker, and a text cut
    at a white-space character gets none. *)
Example marker_without_truncation :
  TelegramService.excerpt
    {| Text := Some (repeat 97%N 100); UserName := None; LinkToTweet := None;
       CreatedAt := None |}
  = repeat 97%N 100 ++ js "...".
Proof. vm_compute. reflexivity. Qed.

Example truncation_without_marker :
  TelegramService.excerpt
    {| Text := Some (repeat 97%N 99 ++ [32; 98; 98]%N); UserName := None;
       LinkToTweet := None; CreatedAt := None |}
  = repeat 97%N 99.
Proof. vm_compute. reflexivity. Qed.

(** C1 on the scenario of the specification. *)
Lemma notification_batch_scenario :
  exists sends w',
    RTCleaner.sendNewTweets Sample.stringify Sample.quietBot (Some Sample.fetched)
      0%Z Sample.fresh
    = (Ok ([Sample.record "3" "hello world"], sends), w').
Proof.
  destruct (notification_batch_iff Sample.stringify Sample.quietBot 0%Z
              Sample.fresh [7%Z] Sample.fetched eq_refl)
    as (batch & sends & w' & E & _ & Hsc).
  rewrite (Hsc eq_refl eq_refl) in E. now exists sends, w'.
Defined.

(** C4 on the scenario: two cycles a minute apart with chat 7 known;
    the first sends one message, to chat 7, and the second sends none. *)
Lemma sent_once_scenario :
  exists batch1 sends1 w1 batch2 sends2 w2,
    RTCleaner.sendNewTweets Sample.stringify Sample.quietBot (Some Sample.fetched)
      0%Z Sample.fresh = (Ok (batch1, sends1), w1) /\
    RTCleaner.sendNewTweets Sample.stringify Sample.offlineBot (Some Sample.fetched)
      60000%Z w1 = (Ok (batch2, sends2), w2) /\
    Sample.record "3" "hello world" ∈ batch1 /\
    map fst sends1 = [7%Z] /\
    (forall other, other ∈ batch2 -> id other <> js "3") /\
    (batch2 = [] -> sends2 = []).
Proof.
  destruct (sent_once_over_two_cycles Sample.stringify Sample.quietBot
              Sample.offlineBot 0%Z 60000%Z Sample.fresh [7%Z]
              Sample.fetched Sample.fetched (Sample.record "3" "hello world"))
    as (_ & b1 & s1 & w1 & cs1 & b2 & s2 & w2
        & E1 & E2 & H1 & Hs1 & _ & _ & H2 & _ & H3 & _).
  - reflexivity.
  - do 2 apply list_elem_of_further. apply list_elem_of_here.
  - do 2 apply list_elem_of_further. apply list_elem_of_here.
  - vm_compute. reflexivity.
  - eexists. split; [reflexivity | discriminate].
  - apply not_elem_of_nil.
  - exists b1, s1, w1, b2, s2, w2.
    split; [exact E1|]. split; [exact E2|]. split; [exact H1|].
    split; [|split; [exact H2 | intros Eb; now rewrite H3, Eb]].
    rewrite Hs1, map_map. reflexivity.
Defined.

(** The restart of the scenario: the process that ran the first cycle at
    time 0 is replaced, a minute later, by one started in the directory
    it left. *)
Lemma restart_scenario :
  exists batch1 sends1 w1 batch2 sends2 w3,
    RTCleaner.sendNewTweets Sample.stringify Sample.quietBot (Some Sample.fetched)
      0%Z Sample.fresh = (Ok (batch1, sends1), w1) /\
    Sample.record "3" "hello world" ∈ batch1 /\
    RTCleaner.sendNewTweets Sample.stringify Sample.quietBot (Some Sample.fetched)
      120000%Z
      (RTCleaner.construct Sample.parse Sample.stringify Sample.mebibytes
         Sample.isoString (files w1) (writable w1) (Some [7%Z]) 60000%Z)
      = (Ok (batch2, sends2), w3) /\
    forall other, other ∈ batch2 -> id other <> js "3".
Proof.
  destruct (sent_once_across_restart Sample.parse Sample.stringify Sample.mebibytes
              Sample.isoString Sample.quietBot Sample.quietBot 0%Z 60000%Z 120000%Z
              Sample.fresh [7%Z] [7%Z] Sample.fetched Sample.fetched
              (Sample.record "3" "hello world"))
    as (b1 & s1 & w1 & E1 & H1 & Hnext).
  - reflexivity.
  - reflexivity.
  - do 2 apply list_elem_of_further. apply list_elem_of_here.
  - vm_compute. reflexivity.
  - eexists. split; [reflexivity | discriminate].
  - apply not_elem_of_nil.
  - vm_compute. reflexivity.
  - destruct Hnext as (b2 & s2 & w3 & E2 & H2).
    + assert (Ew : w1 = Sample.afterFirstCycle).
      { unfold Sample.afterFirstCycle. now rewrite E1. }
      rewrite Ew. intros f Hf. vm_compute in Hf. injection Hf as <-.
      split; [vm_compute; discriminate | vm_compute; reflexivity].
    + exists b1, s1, w1, b2, s2, w3. auto.
Defined.

(** C5 on a file whose one entry is exactly six hours old at the load. *)
Lemma expired_entry_scenario :
  JsSet.has
    (sentTweets
       (RTCleaner.construct Sample.parse Sample.stringify Sample.mebibytes
          Sample.isoString Sample.oneEntry true None 21600000%Z))
    (js "3") = false.
Proof.
  apply expired_entries_not_sent.
  intros f entries entry t _ Hp He Hid Ht.
  injection Hp as <-. apply list_elem_of_singleton in He. subst entry.
  simpl in Ht. injection Ht as <-. unfold RTCleaner.sixHours. lia.
Defined.

(** C6 on a directory that holds an oversized sent-tweets file, six
    archives of earlier days and a file of another kind: the file
    becomes the seventh archive, the two oldest archives are removed
    and the five newest stay, as does the other file. *)
Lemma rotation_scenario :
  let w' :=
    snd (RTCleaner.loadSentTweets Sample.parse Sample.stringify Sample.mebibytes
           Sample.isoString 0%Z Sample.crowded) in
  sentTweets w' = [] /\
  files w' !! RTCleaner.sentTweetsFile = None /\
  files w' !! js "sent-tweets-2026-11-02T10-00-00.json"
    = Some {| data := js "0123456789A"; readable := true |} /\
  files w' !! Sample.archiveOf "01" = None /\
  files w' !! Sample.archiveOf "02" = None /\
  files w' !! Sample.archiveOf "03" = Some (Sample.old "03") /\
  files w' !! Sample.archiveOf "06" = Some (Sample.old "06") /\
  files w' !! js "notes.txt" = Some (Sample.old "n").
Proof.
  pose proof (oversized_file_rotated Sample.parse Sample.stringify Sample.mebibytes
                Sample.isoString 0%Z Sample.crowded
                {| data := js "0123456789A"; readable := true |}) as H.
  cbv zeta in H.
  destruct H as (H1 & H2 & H3 & _).
  - vm_compute. reflexivity.
  - vm_compute. reflexivity.
  - reflexivity.
  - cbv zeta. split; [exact H1|]. split; [exact H2|].
    rewrite !H3. repeat split; vm_compute; reflexivity.
Defined.

(** C8 on the scenario, with a bot whose backlog and sends all fail. *)
Lemma failed_sends_scenario :
  exists sends w',
    RTCleaner.sendNewTweets Sample.stringify Sample.offlineBot (Some Sample.fetched)
      0%Z Sample.fresh
    = (Ok ([Sample.record "3" "hello world"], sends), w') /\
    map fst sends = [7%Z] /\
    JsSet.has (sentTweets w') (js "3") = true.
Proof.
  destruct (batch_marked_whatever_the_sends Sample.stringify Sample.offlineBot 0%Z
              Sample.fresh [7%Z] Sample.fetched)
    as (sends & w' & E & Hs & Hm & _).
  - reflexivity.
  - vm_compute. discriminate.
  - exists sends, w'. split; [exact E|]. split; [exact Hs|].
    apply (Hm (Sample.record "3" "hello world")). apply list_elem_of_here.
Defined.

(** C9 with a bot that refuses every send with error 403. *)
Lemma forbidden_chat_scenario :
  exists sends w' cs',
    TelegramService.sendTweetNotifications Sample.removedBot
      [Sample.tweet "hello world"] Sample.fresh = (Ok sends, w') /\
    telegramService w' = Some cs' /\ 7%Z ∉ cs'.
Proof.
  destruct (forbidden_chat_removed Sample.removedBot [Sample.tweet "hello world"]
              Sample.fresh [7%Z] 7%Z)
    as (sends & w' & cs' & E & Hs & _ & Hgone & _).
  - reflexivity.
  - discriminate.
  - apply list_elem_of_here.
  - exists sends, w', cs'. split; [exact E|]. split; [exact Hs|].
    apply Hgone. reflexivity.
Defined.

(** C10 on a short text: the excerpt is the text and stands in the
    message. *)
Lemma excerpt_scenario :
  Described.Contains (js "hello world")
    (TelegramService.formatTweetMessage [Sample.tweet "hello world"]) /\
  TelegramService.excerptText (Sample.tweet "hello world") = js "hello world".
Proof.
  pose proof (excerpt_truncated [Sample.tweet "hello world"]
                (Sample.tweet "hello world") (list_elem_of_here _ _)) as H.
  cbv zeta in H. destruct H as (H1 & _ & H3 & _ & H5 & _).
  split.
  - rewrite H5 in H1 by (vm_compute; lia). exact H1.
  - apply H3. vm_compute. lia.
Defined.

(** The delete stage on the records of the scenario: one batch, the
    retweet and the reply. *)
Example delete_stage_scenario :
  RTCleaner.deleteRetweetAndReplyRecords (Some Sample.fetched) (fun _ => true)
  = ([[js "1"; js "2"]], 2%nat).
Proof. vm_compute. reflexivity. Qed.

(** An entry younger than six hours is loaded. *)
Example recent_entry_loaded :
  JsSet.has
    (sentTweets
       (RTCleaner.construct Sample.parse Sample.stringify Sample.mebibytes
          Sample.isoString Sample.oneEntry true None 1000%Z))
    (js "3") = true.
Proof. vm_compute. reflexivity. Qed.

(** * Further facts *)

(** ** The delete stage *)

Module DeleteFacts.
Import JsString Classifier RTCleaner Described.

Lemma deleteBatches_nil bs destroy fuel : deleteBatches bs destroy fuel [] = ([], 0%nat).
Proof. now destruct fuel. Qed.

(** With fuel for every record, the batches of [deleteBatches] cut the
    list into pieces of [bs] records, the last one shorter; the count
    adds up the batches that went through. *)
Lemma deleteBatches_spec bs destroy : forall fuel rest,
  (0 < bs)%nat -> (length rest <= fuel)%nat ->
  let '(batches, deletedCount) := deleteBatches bs destroy fuel rest in
  concat batches = map id rest /\
  Forall (fun batch => (0 < length batch <= bs)%nat) batches /\
  (forall i batch, batches !! i = Some batch -> (S i < length batches)%nat ->
                   length batch = bs) /\
  deletedCount = sum_list (map length (List.filter destroy batches)).
Proof.
  induction fuel as [|fuel IH]; intros rest Hbs Hfuel.
  - destruct rest; [|simpl in Hfuel; lia]. simpl.
    repeat split; [constructor | intros i b H; discriminate H].
  - destruct rest as [|r rest]; [simpl; repeat split; [constructor | intros i b H; discriminate H]|].
    cbn [deleteBatches].
    specialize (IH (drop bs (r :: rest)) Hbs).
    destruct (deleteBatches bs destroy fuel (drop bs (r :: rest)))
      as [batches count] eqn:E.
    destruct IH as (Hc & Hall & Hfull & Hcount).
    { rewrite length_drop. simpl in *. lia. }
    split; [|split; [|split]].
    + simpl concat. rewrite Hc, <- map_app, take_drop. reflexivity.
    + constructor; [|assumption]. rewrite length_map, length_take.
      simpl length. lia.
    + intros i batch Hi Hlast. destruct i as [|i].
      * injection Hi as <-. rewrite length_map, length_take.
        destruct batches as [|b batches]; [simpl in Hlast; lia|].
        destruct (drop bs (r :: rest)) as [|x xs] eqn:Ed.
        { rewrite deleteBatches_nil in E. discriminate E. }
        assert (length (drop bs (r :: rest)) <> 0)%nat by (rewrite Ed; discriminate).
        rewrite length_drop in *. lia.
      * apply (Hfull i batch Hi). simpl in Hlast. lia.
    + cbn [List.filter]. destruct (destroy (map id (take bs (r :: rest)))).
      * cbn [map sum_list]. now rewrite Hcount.
      * exact Hcount.
Qed.

End DeleteFacts.


(** ** The classifier under padding and letter case *)

Module ClassifierMore.
Import JsString RegExp RegExpFacts Classifier Described ClassifierFacts.

Lemma trimStart_spaces w s : spaces w -> trimStart (w ++ s) = trimStart s.
Proof. induction 1 as [|c w Hc Hw IH]; simpl; [reflexivity | now rewrite Hc]. Qed.

Lemma trimStart_nil_spaces s : trimStart s = [] -> spaces s.
Proof.
  induction s as [|c s IH]; simpl; [constructor|].
  destruct (isWhiteSpace c) eqn:E; [|discriminate].
  intros H. apply spaces_cons; auto.
Qed.

Lemma trimStart_app s x : trimStart s <> [] -> trimStart (s ++ x) = trimStart s ++ x.
Proof.
  induction s as [|c s IH]; simpl; [congruence|].
  destruct (isWhiteSpace c); auto.
Qed.

Lemma trimEnd_spaces s w : spaces w -> trimEnd (s ++ w) = trimEnd s.
Proof.
  intros Hw. unfold trimEnd. rewrite rev_app_distr, trimStart_spaces; [reflexivity|].
  now apply spaces_rev.
Qed.

Lemma spaces_app a b : spaces a -> spaces b -> spaces (a ++ b).
Proof. unfold spaces. intros. now apply Forall_app. Qed.

Lemma trimEnd_all_spaces s : spaces s -> trimEnd s = [].
Proof.
  intros H. unfold trimEnd. apply spaces_rev in H.
  rewrite <- (app_nil_r (rev s)), (trimStart_spaces _ [] H). reflexivity.
Qed.

(** White space around a text does not show after [trim]. *)
Lemma trim_padded lead s trail :
  spaces lead -> spaces trail -> trim (lead ++ s ++ trail) = trim s.
Proof.
  intros Hl Ht. unfold trim. rewrite (trimStart_spaces lead _ Hl).
  destruct (trimStart s) as [|c k] eqn:E.
  - apply trimStart_nil_spaces in E.
    rewrite <- (app_nil_r (s ++ trail)), (trimStart_spaces (s ++ trail) []);
      [reflexivity | now apply spaces_app].
  - rewrite trimStart_app by congruence. rewrite E. now apply trimEnd_spaces.
Qed.

Lemma trim_idempotent s : trim (trim s) = trim s.
Proof.
  destruct (trim_split s) as (lead & trail & E & Hl & Ht).
  rewrite E at 2. symmetry. now apply trim_padded.
Qed.

Lemma isRetweet_trim t :
  isRetweet (Some t) = existsb (fun pattern => test pattern (trim t)) rtPatterns.
Proof. destruct t; reflexivity. Qed.

Lemma isReply_trim t :
  isReply (Some t) =
  existsb (fun pattern => test pattern (trim t)) replyPatterns
  || existsb (fun indicator => includes indicator (toLowerCase (trim t)))
       replyIndicators.
Proof. destruct t; reflexivity. Qed.

Lemma recases_cases f c :
  recases f ->
  f c = c \/ (97 <= c <= 122 /\ f c = c - 32) \/ (65 <= c <= 90 /\ f c = c + 32).
Proof.
  intros H. destruct (H c) as [E | [E | E]]; [now left | |].
  - destruct (upperUnit_cases c) as [[? E'] | [? E']]; rewrite E' in E; auto.
  - destruct (lowerAscii_cases c) as [[? E'] | [? E']]; rewrite E' in E; auto.
Qed.

Lemma recases_space f c : recases f -> isWhiteSpace (f c) = isWhiteSpace c.
Proof.
  intros H. destruct (recases_cases f c H) as [-> | [[? ->] | [? ->]]];
    [reflexivity | |]; unfold isWhiteSpace; units.
Qed.

Lemma recases_cls f m c :
  recases f -> clsMatches true m (f c) = clsMatches true m c.
Proof.
  intros H. unfold clsMatches. cbn [andb].
  destruct (recases_cases f c H) as [-> | [[? ->] | [? ->]]]; [reflexivity | |].
  - destruct (upperUnit_cases c) as [[_ ->] | [? _]]; [|lia].
    destruct (lowerAscii_cases c) as [[? _] | [_ ->]]; [lia|].
    destruct (upperUnit_cases (c - 32)) as [[? _] | [_ ->]]; [lia|].
    destruct (lowerAscii_cases (c - 32)) as [[_ ->] | [? _]]; [|lia].
    replace (c - 32 + 32) with c by lia.
    destruct (clsHas m (c - 32)), (clsHas m c); reflexivity.
  - destruct (upperUnit_cases c) as [[? _] | [_ ->]]; [lia|].
    destruct (lowerAscii_cases c) as [[_ ->] | [? _]]; [|lia].
    destruct (upperUnit_cases (c + 32)) as [[_ ->] | [? _]]; [|lia].
    destruct (lowerAscii_cases (c + 32)) as [[? _] | [_ ->]]; [lia|].
    replace (c + 32 - 32) with c by lia.
    destruct (clsHas m (c + 32)), (clsHas m c); reflexivity.
Qed.

Lemma recases_atom f a c :
  recases f -> atomMatches true a (f c) = atomMatches true a c.
Proof.
  intros H. destruct a as [x|ms]; simpl; [now apply recases_cls|].
  induction ms as [|m ms IH]; simpl; [reflexivity|].
  now rewrite IH, recases_cls.
Qed.

Lemma starLoop_map (f : N -> N) ok k k' s :
  (forall c, ok (f c) = ok c) -> (forall s, k (map f s) = k' s) ->
  starLoop ok k (map f s) = starLoop ok k' s.
Proof.
  intros Hok Hk. induction s as [|c s IH]; simpl; [apply (Hk [])|].
  rewrite Hok, IH. f_equal. apply (Hk (c :: s)).
Qed.

(** A pattern with the flag [i] does not see the case of letters. *)
Lemma matchHere_recases f its e : forall s,
  recases f -> matchHere true its e (map f s) = matchHere true its e s.
Proof.
  induction its as [|[a q] rest IH]; intros s H.
  - simpl. destruct e, s; reflexivity.
  - destruct q; simpl.
    + destruct s as [|c s]; simpl; [reflexivity|].
      now rewrite recases_atom, IH.
    + apply starLoop_map; [intros; now apply recases_atom | intros; now apply IH].
    + destruct s as [|c s]; simpl; [reflexivity|].
      rewrite recases_atom by assumption. f_equal.
      apply starLoop_map; [intros; now apply recases_atom | intros; now apply IH].
Qed.

Lemma trimStart_recases f s : recases f -> trimStart (map f s) = map f (trimStart s).
Proof.
  intros H. induction s as [|c s IH]; simpl; [reflexivity|].
  rewrite recases_space by assumption. destruct (isWhiteSpace c); auto.
Qed.

Lemma trim_recases f s : recases f -> trim (map f s) = map f (trim s).
Proof.
  intros H. unfold trim, trimEnd.
  rewrite trimStart_recases, <- map_rev, trimStart_recases, map_rev by assumption.
  reflexivity.
Qed.

Lemma toLowerCase_recases f s : recases f -> toLowerCase (map f s) = toLowerCase s.
Proof.
  intros H. unfold toLowerCase. induction s as [|c s IH]; simpl; [reflexivity|].
  rewrite IH. f_equal.
  destruct (recases_cases f c H) as [-> | [[? ->] | [? ->]]];
    [reflexivity | |]; unfold lowerUnit; units; f_equal; lia.
Qed.

End ClassifierMore.

(** ** Sets without repetition, and the chat registry *)

Module RegistryFacts.
Import JsString TelegramService Described TextFacts TelegramFacts.

Lemma NoDup_add {A} `{EqDecision A} (s : list A) x : NoDup s -> NoDup (JsSet.add s x).
Proof.
  intros H. unfold JsSet.add. destruct (JsSet.has s x) eqn:E; [assumption|].
  apply NoDup_app. split; [assumption|]. split; [|apply NoDup_singleton].
  intros y Hy Hx. apply list_elem_of_singleton in Hx. subst y.
  apply JsSetFacts.has_true in Hy. congruence.
Qed.

Lemma NoDup_delete {A} `{EqDecision A} (s : list A) x :
  NoDup s -> NoDup (JsSet.delete s x).
Proof. intros H. now apply ArchiveFacts.NoDup_List_filter. Qed.

Lemma NoDup_foldl_add {A} `{EqDecision A} (l s : list A) :
  NoDup s -> NoDup (foldl JsSet.add s l).
Proof.
  revert s. induction l as [|x l IH]; intros s H; simpl; [assumption|].
  now apply IH, NoDup_add.
Qed.

Lemma NoDup_ofArray {A} `{EqDecision A} (l : list A) : NoDup (JsSet.ofArray l).
Proof. apply NoDup_foldl_add. constructor. Qed.

Lemma add_known {A} `{EqDecision A} (s : list A) x : x ∈ s -> JsSet.add s x = s.
Proof.
  intros H. unfold JsSet.add. apply JsSetFacts.has_true in H. now rewrite H.
Qed.

(** Adding the elements of a list without repetition to the elements
    before it appends them. *)
Lemma foldl_add_fresh {A} `{EqDecision A} (l s : list A) :
  NoDup (s ++ l) -> foldl JsSet.add s l = s ++ l.
Proof.
  revert s. induction l as [|x l IH]; intros s H; simpl; [now rewrite app_nil_r|].
  assert (Hx : x ∉ s).
  { apply NoDup_app in H as (_ & Hd & _). intros Hin. apply (Hd x Hin). now left. }
  unfold JsSet.add at 2. replace (JsSet.has s x) with false.
  - rewrite IH; rewrite <- app_assoc; [reflexivity | exact H].
  - symmetry. apply not_true_iff_false. now rewrite JsSetFacts.has_true.
Qed.

Lemma ofArray_NoDup {A} `{EqDecision A} (l : list A) : NoDup l -> JsSet.ofArray l = l.
Proof. intros H. unfold JsSet.ofArray. now rewrite foldl_add_fresh. Qed.

Lemma NoDup_noted cs update : NoDup cs -> NoDup (noted cs update).
Proof.
  intros H. unfold noted. destruct (message_chat update);
    [now apply NoDup_add|]. destruct (channel_post_chat update); [now apply NoDup_add|].
  assumption.
Qed.

Lemma NoDup_discovered bot cs : NoDup cs -> NoDup (discovered bot cs).
Proof.
  intros H. unfold discovered. destruct (getUpdates bot) as [updates|]; [|assumption].
  revert cs H. induction updates as [|u updates IH]; intros cs H; simpl; [assumption|].
  now apply IH, NoDup_noted.
Qed.

Lemma NoDup_settled bot message targets : forall cs,
  NoDup cs -> NoDup (foldl (settled bot message) cs targets).
Proof.
  induction targets as [|c targets IH]; intros cs H; simpl; [assumption|].
  apply IH. unfold settled. destruct (permanent _); [now apply NoDup_delete | assumption].
Qed.

Lemma noted_known cs update :
  (forall c, chatOf update = Some c -> c ∈ cs) -> noted cs update = cs.
Proof.
  unfold noted, chatOf. intros H.
  destruct (message_chat update) as [c|]; [apply add_known; auto|].
  destruct (channel_post_chat update) as [c|]; [apply add_known; auto | reflexivity].
Qed.

Lemma foldl_noted_known updates : forall cs,
  (forall update c, update ∈ updates -> chatOf update = Some c -> c ∈ cs) ->
  foldl noted cs updates = cs.
Proof.
  induction updates as [|u updates IH]; intros cs H; simpl; [reflexivity|].
  rewrite noted_known.
  - apply IH. intros update c Hu. apply H. now right.
  - intros c. apply H. now left.
Qed.

End RegistryFacts.

(** ** More on the classifier and the delete stage *)

Module StageFacts.
Import JsString RegExp RegExpFacts Classifier RTCleaner Described.
Import ClassifierFacts ClassifierMore DeleteFacts.

Lemma existsb_ext_in {A} (f g : A -> bool) l :
  (forall x, In x l -> f x = g x) -> existsb f l = existsb g l.
Proof.
  induction l as [|x l IH]; intros H; simpl; [reflexivity|].
  rewrite (H x), IH; [reflexivity | intros; apply H; now right | now left].
Qed.

Lemma rtPatterns_ignoreCase p : In p rtPatterns -> ignoreCase p = true.
Proof. unfold rtPatterns. simpl. intuition (subst; reflexivity). Qed.

Lemma replyPatterns_ignoreCase p : In p replyPatterns -> ignoreCase p = true.
Proof. unfold replyPatterns. simpl. intuition (subst; reflexivity). Qed.

Lemma test_recases f p s :
  recases f -> ignoreCase p = true -> test p (map f s) = test p s.
Proof. intros H E. unfold test. rewrite E. now apply matchHere_recases. Qed.

Lemma isRetweet_padded lead t trail :
  spaces lead -> spaces trail ->
  isRetweet (Some (lead ++ t ++ trail)) = isRetweet (Some t).
Proof. intros Hl Ht. now rewrite !isRetweet_trim, trim_padded. Qed.

Lemma isReply_padded lead t trail :
  spaces lead -> spaces trail ->
  isReply (Some (lead ++ t ++ trail)) = isReply (Some t).
Proof. intros Hl Ht. now rewrite !isReply_trim, trim_padded. Qed.

Lemma isRetweet_recases f t : recases f -> isRetweet (Some (map f t)) = isRetweet (Some t).
Proof.
  intros H. rewrite !isRetweet_trim, trim_recases by assumption.
  apply existsb_ext_in. intros p Hp.
  apply test_recases; [assumption | now apply rtPatterns_ignoreCase].
Qed.

Lemma isReply_recases f t : recases f -> isReply (Some (map f t)) = isReply (Some t).
Proof.
  intros H. rewrite !isReply_trim, trim_recases, toLowerCase_recases by assumption.
  f_equal. apply existsb_ext_in. intros p Hp.
  apply test_recases; [assumption | now apply replyPatterns_ignoreCase].
Qed.

Lemma recases_upperUnit : recases upperUnit.
Proof. intros c. auto. Qed.

Lemma recases_lowerAscii : recases lowerAscii.
Proof. intros c. auto. Qed.

Lemma elem_of_List_filter {A} (f : A -> bool) l x :
  x ∈ List.filter f l <-> x ∈ l /\ f x = true.
Proof. now rewrite !list_elem_of_In, List.filter_In. Qed.

Lemma targeted_not_Original records record :
  record ∈ rtRecords records ++ replyRecords records ->
  record ∈ records /\ classify (Text (fields record)) <> Original.
Proof.
  rewrite elem_of_app. unfold rtRecords, replyRecords, classify.
  rewrite !elem_of_List_filter. cbv zeta.
  destruct (isRetweet (Text (fields record))), (isReply (Text (fields record)));
    simpl; intuition discriminate.
Qed.

Lemma targets_concat records destroy :
  concat (fst (deleteRetweetAndReplyRecords (Some records) destroy))
  = map id (rtRecords records ++ replyRecords records).
Proof.
  unfold deleteRetweetAndReplyRecords. cbv zeta.
  pose proof (deleteBatches_spec 10 destroy
    (length (rtRecords records ++ replyRecords records))
    (rtRecords records ++ replyRecords records)) as H.
  destruct (deleteBatches 10 destroy _ _) as [batches count].
  destruct H as (Hc & _); [lia | lia |]. exact Hc.
Qed.


Lemma sum_filter_le (destroy : list jsstring -> bool) batches :
  (sum_list (map length (List.filter destroy batches)) <= length (concat batches))%nat.
Proof.
  induction batches as [|b batches IH]; simpl; [lia|].
  rewrite length_app. destruct (destroy b); simpl; lia.
Qed.

Lemma sum_filter_all (destroy : list jsstring -> bool) batches :
  (forall batch, batch ∈ batches -> destroy batch = true) ->
  sum_list (map length (List.filter destroy batches)) = length (concat batches).
Proof.
  induction batches as [|b batches IH]; intros H; simpl; [reflexivity|].
  rewrite (H b) by now left. simpl. rewrite length_app, IH; [reflexivity|].
  intros. apply H. now right.
Qed.

Lemma sum_filter_none (destroy : list jsstring -> bool) batches :
  (forall batch, batch ∈ batches -> destroy batch = false) ->
  sum_list (map length (List.filter destroy batches)) = 0%nat.
Proof.
  induction batches as [|b batches IH]; intros H; simpl; [reflexivity|].
  rewrite (H b) by now left. apply IH. intros. apply H. now right.
Qed.

End StageFacts.


(** ** More on the chat registry and the message *)

Module NotifierFacts.
Import JsString TelegramService Described ClassifierFacts TextFacts TelegramFacts.
Import ClassifierMore RegistryFacts.

Lemma foldl_add_prefix {A} `{EqDecision A} (l s : list A) :
  exists new, foldl JsSet.add s l = s ++ new.
Proof.
  revert s. induction l as [|x l IH]; intros s; simpl.
  - exists []. now rewrite app_nil_r.
  - destruct (IH (JsSet.add s x)) as [new E]. rewrite E. unfold JsSet.add.
    destruct (JsSet.has s x); [now exists new|].
    exists (x :: new). now rewrite <- app_assoc.
Qed.

Lemma noted_as_add cs update :
  noted cs update = match chatOf update with
                    | Some chatId => JsSet.add cs chatId
                    | None => cs
                    end.
Proof. unfold noted, chatOf. now destruct (message_chat update). Qed.

Lemma foldl_noted_add updates : forall cs,
  foldl noted cs updates = foldl JsSet.add cs (omap chatOf updates).
Proof.
  induction updates as [|u updates IH]; intros cs; [reflexivity|].
  simpl. rewrite noted_as_add. destruct (chatOf u); simpl; apply IH.
Qed.

Lemma discovered_prefix bot cs : exists new, discovered bot cs = cs ++ new.
Proof.
  unfold discovered. destruct (getUpdates bot) as [updates|].
  - rewrite foldl_noted_add. apply foldl_add_prefix.
  - exists []. now rewrite app_nil_r.
Qed.

Lemma elem_of_foldl_noted updates : forall cs c,
  c ∈ foldl noted cs updates <->
  c ∈ cs \/ exists update, update ∈ updates /\ chatOf update = Some c.
Proof.
  intros cs c. rewrite foldl_noted_add, JsSetFacts.elem_of_foldl_add.
  apply or_iff_compat_l. rewrite list_elem_of_omap. reflexivity.
Qed.

Lemma discovered_twice bot cs : discovered bot (discovered bot cs) = discovered bot cs.
Proof.
  unfold discovered. destruct (getUpdates bot) as [updates|]; [|reflexivity].
  apply foldl_noted_known. intros update c Hu Hc.
  apply elem_of_foldl_noted. right. now exists update.
Qed.

Lemma elem_of_discovered_iff bot cs c :
  c ∈ discovered bot cs <-> c ∈ cs \/ rediscovers bot c.
Proof.
  unfold discovered, rediscovers. destruct (getUpdates bot) as [updates|].
  - rewrite elem_of_foldl_noted. apply or_iff_compat_l. split.
    + intros (u & ? & ?). now exists updates, u.
    + intros (us & u & [= <-] & ? & ?). now exists u.
  - split; [now left | intros [?|(us & u & [=] & _)]; assumption].
Qed.

Lemma splitOn_nonempty sep s : splitOn sep s <> [].
Proof.
  destruct s as [|c s]; cbn [splitOn]; [discriminate|].
  destruct (c =? sep)%N; [discriminate|]. destruct (splitOn sep s); discriminate.
Qed.

Lemma join_split sep s : join [sep] (splitOn sep s) = s.
Proof.
  induction s as [|c s IH]; [reflexivity|]. cbn [splitOn].
  pose proof (splitOn_nonempty sep s) as Hne.
  destruct (splitOn sep s) as [|p ps]; [congruence|].
  destruct (c =? sep)%N eqn:E.
  - apply N.eqb_eq in E. subst c.
    change (join [sep] ([] :: p :: ps)) with ([] ++ [sep] ++ join [sep] (p :: ps)).
    now rewrite IH.
  - rewrite <- IH. destruct ps; reflexivity.
Qed.

Lemma splitOn_no_sep sep s part : part ∈ splitOn sep s -> sep ∉ part.
Proof.
  revert part. induction s as [|c s IH]; intros part; cbn [splitOn].
  - intros H. apply list_elem_of_singleton in H. subst. apply not_elem_of_nil.
  - destruct (c =? sep)%N eqn:E.
    + intros H. apply elem_of_cons in H as [-> | H]; [apply not_elem_of_nil | auto].
    + destruct (splitOn sep s) as [|p ps].
      * intros H. apply list_elem_of_singleton in H. subst.
        intros H. apply list_elem_of_singleton in H. subst.
        now rewrite N.eqb_refl in E.
      * intros H. apply elem_of_cons in H as [-> | H].
        -- intros H. apply elem_of_cons in H as [<- | H].
           ++ now rewrite N.eqb_refl in E.
           ++ revert H. apply IH. now left.
        -- apply IH. now right.
Qed.

(** Where a part stands in a joined string: after the parts before it,
    followed by the separator and the next part, if there is one. *)
Lemma join_at sep parts : forall i p,
  parts !! i = Some p ->
  exists pre post,
    join sep parts = pre ++ p ++ post /\
    (i = 0%nat -> pre = []) /\
    (S i = length parts -> post = []) /\
    (forall q, parts !! S i = Some q -> exists post', post = sep ++ q ++ post').
Proof.
  induction parts as [|p0 parts IH]; intros i p Hi; [discriminate Hi|].
  destruct i as [|i].
  - injection Hi as <-. destruct parts as [|p1 parts].
    + exists [], []. split; [simpl; now rewrite app_nil_r|].
      split; [reflexivity|]. split; [reflexivity|]. intros q Hq. discriminate Hq.
    + exists [], (sep ++ join sep (p1 :: parts)).
      split; [reflexivity|]. split; [reflexivity|]. split; [discriminate|].
      intros q [= <-]. destruct parts as [|p2 parts].
      * exists []. now rewrite app_nil_r.
      * exists (sep ++ join sep (p2 :: parts)). reflexivity.
  - destruct parts as [|p1 parts]; [discriminate Hi|].
    destruct (IH i p Hi) as (pre & post & E & _ & Hlast & Hnext).
    exists (p0 ++ sep ++ pre), post.
    change (join sep (p0 :: p1 :: parts)) with (p0 ++ sep ++ join sep (p1 :: parts)).
    rewrite E, <- !app_assoc.
    split; [reflexivity|]. split; [discriminate|].
    split; [intros Hl; apply Hlast; simpl in Hl; simpl; lia | exact Hnext].
Qed.

Lemma digitValue_nonneg radix c d : digitValue radix c = Some d -> (0 <= d)%Z.
Proof.
  unfold digitValue, isDigit.
  destruct (N.leb_spec 48 c); destruct (N.leb_spec c 57); cbn [andb].
  1: { destruct (_ <? radix)%Z; intros [= <-]; lia. }
  all: destruct (N.leb_spec 97 c); destruct (N.leb_spec c 122); cbn [andb];
    try (destruct (_ <? radix)%Z; intros [= <-]; lia);
    destruct (N.leb_spec 65 c); destruct (N.leb_spec c 90); cbn [andb];
    try (destruct (_ <? radix)%Z; intros [= <-]; lia); discriminate.
Qed.

Lemma digitsValue_nonneg radix s : forall acc n,
  (0 <= radix)%Z -> (forall a, acc = Some a -> (0 <= a)%Z) ->
  digitsValue radix acc s = Some n -> (0 <= n)%Z.
Proof.
  induction s as [|c s IH]; intros acc n Hr Hacc; simpl; [apply Hacc|].
  destruct (digitValue radix c) as [d|] eqn:Ed; [|apply Hacc].
  apply IH; [assumption|]. intros a [= <-].
  apply digitValue_nonneg in Ed.
  assert (0 <= default 0 acc)%Z by (destruct acc as [a|]; simpl; [now apply Hacc | lia]).
  nia.
Qed.

(** A number [parseInt] gives exactly is within the safe range. *)
Lemma parseInt_Int_bound s c : parseInt s = Int c -> (- 2 ^ 53 <= c <= 2 ^ 53)%Z.
Proof.
  unfold parseInt.
  set (s0 := trimStart s).
  set (signed := match s0 with
                 | 45 :: s' => ((-1)%Z, s')
                 | 43 :: s' => (1%Z, s')
                 | _ => (1%Z, s0)
                 end).
  assert (Hsign : fst signed = 1%Z \/ fst signed = (-1)%Z).
  { unfold signed. repeat (match goal with |- context [match ?x with _ => _ end] =>
      destruct x end); cbn [fst]; auto. }
  destruct signed as [sign s1]. cbn [fst] in Hsign.
  set (based := match s1 with
                | 48 :: 120 :: s' => (16%Z, s')
                | 48 :: 88 :: s' => (16%Z, s')
                | _ => (10%Z, s1)
                end).
  assert (Hradix : (0 <= fst based)%Z).
  { unfold based. repeat (match goal with |- context [match ?x with _ => _ end] =>
      destruct x end); cbn [fst]; lia. }
  destruct based as [radix s2]. cbn [fst] in Hradix.
  destruct (digitsValue radix None s2) as [n|] eqn:Ed; [|discriminate].
  apply digitsValue_nonneg in Ed; [|assumption | discriminate].
  destruct (Z.leb_spec n (2 ^ 53)); [|discriminate].
  intros [= <-]. destruct Hsign as [-> | ->]; lia.
Qed.

Lemma mapM_exact numbers ids : mapM exact numbers = Some ids -> ids = omap exact numbers.
Proof.
  intros H. apply mapM_Some_1 in H.
  induction H as [|x y numbers ids Hx _ IH]; [reflexivity|].
  simpl. rewrite Hx. now rewrite IH.
Qed.

Lemma mapM_exact_safe numbers :
  (forall x, x ∈ numbers -> x <> Beyond /\ isNaN x = false) ->
  is_Some (mapM exact numbers).
Proof.
  intros H. apply mapM_is_Some, Forall_forall. intros x Hx.
  destruct (H x Hx) as [Hb Hn]. destruct x; simpl in *; eauto; congruence.
Qed.

Lemma elem_of_numbers {A} (f : A -> Number) entries c :
  c ∈ omap exact (List.filter (fun id => negb (isNaN id)) (map f entries)) <->
  exists entry, entry ∈ entries /\ f entry = Int c.
Proof.
  rewrite list_elem_of_omap. split.
  - intros (x & Hx & Hc). apply list_elem_of_In, List.filter_In in Hx as [Hx _].
    apply in_map_iff in Hx as (entry & <- & He).
    exists entry. split; [now apply list_elem_of_In|].
    destruct (f entry); try discriminate. now injection Hc as ->.
  - intros (entry & He & Hf). exists (Int c). split; [|reflexivity].
    apply list_elem_of_In, List.filter_In. split; [|reflexivity].
    rewrite <- Hf. now apply in_map, list_elem_of_In.
Qed.

Lemma forEach_add (ids : list Z) : forall w cs,
  telegramService w = Some cs ->
  forEach ids (fun chatId =>
    cs ← chatIds; setChatIds (JsSet.add cs chatId)) w =
  (Ok tt, withChatIds (foldl JsSet.add cs ids) w).
Proof.
  induction ids as [|x ids IH]; intros w cs H.
  - simpl. now rewrite withChatIds_same.
  - rewrite forEach_cons. unfold chatIds at 1. rewrite !bind_run.
    unfold get at 1, ret at 1. cbv beta iota. rewrite H. cbn [default].
    unfold setChatIds at 1. cbv beta iota.
    rewrite (IH _ (JsSet.add cs x)); reflexivity.
Qed.

Lemma Contains_refl (s : jsstring) : Contains s s.
Proof. exists [], []. now rewrite app_nil_r. Qed.

Lemma truncateText_Contains text n : Contains (truncateText text n) text.
Proof.
  unfold truncateText, substring0. case_bool_decide; [apply Contains_refl|].
  destruct (trim_split (take n text)) as (lead & trail & E & _ & _).
  exists lead, (trail ++ drop n text).
  rewrite <- (take_drop n text) at 1. rewrite E at 1. now rewrite <- !app_assoc.
Qed.

End NotifierFacts.


(** ** More on the sent-tweet tracker *)

Module TrackerFacts.
Import JsString RegExp RegExpFacts Classifier TelegramService RTCleaner Described.
Import ClassifierFacts TelegramFacts CleanerFacts ArchiveFacts LoadFacts.
Import RegistryFacts StageFacts.

Lemma recent_after now now' sent :
  (now' - sixHours < now)%Z ->
  List.filter (recent now') (tableAt now sent) = tableAt now sent.
Proof.
  intros H. unfold tableAt. induction sent as [|x sent IH]; simpl; [reflexivity|].
  rewrite IH. unfold recent at 1, dateGt. cbn [sentAt].
  apply Z.ltb_lt in H. now rewrite H.
Qed.

Lemma tableAt_ids now sent : map recordId (tableAt now sent) = sent.
Proof. unfold tableAt. rewrite map_map. apply map_id. Qed.

Lemma tableAt_stamps now sent :
  Forall (fun entry => sentAt entry = Some now) (tableAt now sent).
Proof. unfold tableAt. induction sent; simpl; constructor; auto. Qed.

Section Engine.
Variable JSON_parse : jsstring -> option (list SentTweetTracker).
Variable JSON_stringify : list SentTweetTracker -> jsstring.
Variable byteLength : jsstring -> N.
Variable toISOString : Z -> jsstring.

Local Abbreviation flushed := (Described.flushed JSON_stringify).
Local Abbreviation renamed := (Described.renamed toISOString).
Local Abbreviation rotated := (Described.rotated toISOString).
Local Abbreviation readTable := (Described.readTable JSON_parse JSON_stringify).

Lemma sendNewTweets_unanswered bot now w :
  sendNewTweets JSON_stringify bot None now w = (Ok ([], []), w).
Proof.
  unfold sendNewTweets. rewrite bind_run. unfold get at 1. cbv beta iota.
  destruct (telegramService w); reflexivity.
Qed.

Lemma sendNewTweets_unconfigured bot fetched now w :
  telegramService w = None ->
  sendNewTweets JSON_stringify bot fetched now w = (Ok ([], []), w).
Proof.
  intros H. unfold sendNewTweets. rewrite bind_run. unfold get at 1.
  cbv beta iota. now rewrite H.
Qed.

(** The exact effect of reading a table that can be read and parsed. *)
Lemma readTable_reads now w f entries :
  files w !! sentTweetsFile = Some f -> readable f = true ->
  JSON_parse (data f) = Some entries ->
  let valid := List.filter (recent now) entries in
  let ids := JsSet.ofArray (map recordId valid) in
  readTable now w =
  (Ok tt,
   withFiles
     (if (2 * length valid <? length entries)%nat && writable w
      then <[sentTweetsFile := flushed now ids]> (files w)
      else files w)
     (withSent ids w)).
Proof.
  intros Hf Hr Hp. cbv zeta.
  unfold Described.readTable. rewrite bind_run. unfold Fs.readFileSync.
  rewrite bind_run. unfold get at 1. cbv beta iota. rewrite Hf, Hr.
  unfold ret at 1. cbv beta iota. rewrite bind_run, Hp.
  unfold ret at 1. cbv beta iota zeta. fold (recent now).
  destruct (2 * length (List.filter (recent now) entries) <? length entries)%nat.
  - rewrite bind_run. unfold setSentTweets at 1. cbv beta iota.
    rewrite saveSentTweets_run. unfold withFiles, withSent.
    cbn [writable sentTweets files telegramService andb].
    destruct (writable w); reflexivity.
  - reflexivity.
Qed.

Lemma loadSentTweets_small now w f :
  files w !! sentTweetsFile = Some f ->
  byteLength (data f) <= rotateThreshold ->
  loadSentTweets JSON_parse JSON_stringify byteLength toISOString now w =
  tryCatch (readTable now) (fun _ => setSentTweets []) w.
Proof.
  intros Hf Hsize.
  rewrite loadSentTweets_unfold. unfold tryCatch. rewrite bind_run.
  unfold Fs.existsSync. rewrite bind_run. unfold get at 1, ret at 1.
  cbv beta iota. rewrite Hf. rewrite bool_decide_eq_true_2 by eauto.
  rewrite bind_run. unfold statSyncSize. rewrite bind_run.
  unfold get at 1. cbv beta iota. rewrite Hf. unfold ret at 1. cbv beta iota.
  rewrite bind_run. apply N.ltb_ge in Hsize. rewrite Hsize.
  unfold ret at 1. cbv beta iota. reflexivity.
Qed.

(** What a rotation leaves of a file that is neither the sent-tweets
    file, nor the new archive, nor named like an archive. *)
Lemma rotated_other now f dir name :
  name <> sentTweetsFile -> name <> archiveFileAt toISOString now ->
  test archivePattern name = false ->
  rotated now f dir !! name = dir !! name.
Proof.
  intros Hm Ha Hp. unfold Described.rotated. rewrite lookup_unlinked.
  case_bool_decide as Hs.
  - exfalso. unfold stale in Hs.
    assert (H' : name ∈ archivesOf (elements (dom (renamed now f dir)))).
    { eapply elem_of_sublist; [exact Hs | apply sublist_drop]. }
    apply elem_of_archivesOf in H' as [_ H']. congruence.
  - unfold Described.renamed. rewrite lookup_insert_ne by congruence.
    now rewrite lookup_delete_ne by congruence.
Qed.

Lemma rotated_present now f dir name :
  is_Some (rotated now f dir !! name) ->
  name = archiveFileAt toISOString now \/ is_Some (dir !! name).
Proof.
  unfold Described.rotated. rewrite lookup_unlinked.
  case_bool_decide as Hs; [intros [? [=]]|].
  unfold Described.renamed.
  destruct (decide (name = archiveFileAt toISOString now)) as [->|Hne]; [now left|].
  rewrite lookup_insert_ne by congruence.
  destruct (decide (name = sentTweetsFile)) as [->|Hm].
  - rewrite lookup_delete_eq. intros [? [=]].
  - rewrite lookup_delete_ne by congruence. now right.
Qed.

Lemma rotateSentTweetsFile_refused now w :
  writable w = false \/ files w !! sentTweetsFile = None ->
  rotateSentTweetsFile toISOString now w = (Ok tt, w).
Proof.
  intros H. unfold rotateSentTweetsFile, tryCatch. cbv zeta.
  rewrite bind_run. unfold Fs.renameSync. rewrite bind_run.
  unfold get at 1. cbv beta iota.
  destruct (files w !! sentTweetsFile) as [f|] eqn:Hf; [|reflexivity].
  destruct H as [Hw | [=]].
  unfold Fs.needWritable. rewrite !bind_run. unfold get at 1. cbv beta iota.
  rewrite Hw. reflexivity.
Qed.

End Engine.
End TrackerFacts.


(** ** The earlier version beside the later one *)

Module EarlierFacts.
Import JsString RegExp Classifier TelegramService RTCleaner Described.
Import ClassifierFacts TextFacts TelegramFacts CleanerFacts ArchiveFacts LoadFacts.
Import RegistryFacts StageFacts DeleteFacts TrackerFacts.

Lemma recent_recentDay now tweet : recent now tweet = true -> recentDay now tweet = true.
Proof.
  unfold recent, recentDay, dateGt. destruct (sentAt tweet) as [t|]; [|discriminate].
  rewrite !Z.ltb_lt. unfold sixHours, Earlier.oneDay. lia.
Qed.

Section Engine.
Variable JSON_parse : jsstring -> option (list SentTweetTracker).
Variable JSON_stringify : list SentTweetTracker -> jsstring.

Local Abbreviation flushed := (Described.flushed JSON_stringify).
Local Abbreviation afterDispatch := (Described.afterDispatch JSON_stringify).

Lemma earlier_saveSentTweets_run now w :
  Earlier.saveSentTweets JSON_stringify now w =
  (Ok tt,
   if writable w
   then withFiles (<[sentTweetsFile := flushed now (sentTweets w)]> (files w)) w
   else w).
Proof.
  unfold Earlier.saveSentTweets, tryCatch. rewrite bind_run. simpl.
  unfold Fs.writeFileSync, Fs.needWritable. rewrite !bind_run. simpl.
  destruct (writable w) eqn:Ew; reflexivity.
Qed.

Lemma earlier_sendNewTweets_run bot records now w cs :
  telegramService w = Some cs ->
  let batch := List.filter (Earlier.isNewTweet (sentTweets w)) records in
  Earlier.sendNewTweets JSON_stringify bot (Some records) now w =
  match batch with
  | [] => (Ok ([], []), w)
  | _ =>
      (Ok (batch,
           map (fun chatId => (chatId, formatTweetMessage (map fields batch)))
               (discovered bot cs)),
       afterDispatch bot now batch cs w)
  end.
Proof.
  intros H. cbv zeta. unfold Earlier.sendNewTweets.
  rewrite bind_run. unfold get at 1. cbv beta iota. rewrite H.
  unfold tryCatch. rewrite bind_run. unfold ret at 1. cbv beta iota.
  rewrite bind_run. unfold get at 1. cbv beta iota.
  destruct (List.filter (Earlier.isNewTweet (sentTweets w)) records) as [|r batch] eqn:Eb;
    [reflexivity|].
  rewrite bind_run.
  rewrite (sendTweetNotifications_run bot (map fields (r :: batch)) w cs H)
    by discriminate.
  rewrite bind_run, forEach_markSent, bind_run, earlier_saveSentTweets_run.
  unfold Described.afterDispatch, withChatIds, withSent, withFiles, ret.
  cbn [files writable sentTweets telegramService].
  destruct (writable w); reflexivity.
Qed.

Lemma earlier_sendNewTweets_idle bot fetched now w :
  telegramService w = None \/ fetched = None ->
  Earlier.sendNewTweets JSON_stringify bot fetched now w = (Ok ([], []), w).
Proof.
  intros H. unfold Earlier.sendNewTweets. rewrite bind_run. unfold get at 1.
  cbv beta iota. destruct (telegramService w); [|reflexivity].
  destruct H as [[=] | ->]. reflexivity.
Qed.

(** The exact effect of the earlier load. *)
Lemma earlier_loadSentTweets_run now w :
  Earlier.loadSentTweets JSON_parse JSON_stringify now w =
  (Ok tt,
   match files w !! sentTweetsFile with
   | Some f =>
       if readable f then
         match JSON_parse (data f) with
         | Some entries =>
             let ids := JsSet.ofArray (map recordId (List.filter (recentDay now) entries)) in
             withFiles
               (if writable w
                then <[sentTweetsFile := flushed now ids]> (files w)
                else files w)
               (withSent ids w)
         | None => w
         end
       else w
   | None => w
   end).
Proof.
  unfold Earlier.loadSentTweets, tryCatch. rewrite bind_run.
  unfold Fs.existsSync. rewrite bind_run. unfold get at 1, ret at 1.
  cbv beta iota. unfold Earlier.sentTweetsFile.
  destruct (files w !! sentTweetsFile) as [f|] eqn:Hf.
  2: { rewrite bool_decide_eq_false_2 by (intros [? ?]; discriminate). reflexivity. }
  rewrite bool_decide_eq_true_2 by eauto.
  rewrite bind_run. unfold Fs.readFileSync. rewrite bind_run.
  unfold get at 1. cbv beta iota. rewrite Hf.
  destruct (readable f); [|reflexivity].
  unfold ret at 1. cbv beta iota. rewrite bind_run.
  destruct (JSON_parse (data f)) as [entries|]; [|reflexivity].
  unfold ret at 1. cbv beta iota zeta. fold (recentDay now).
  rewrite bind_run. unfold setSentTweets at 1. cbv beta iota.
  rewrite earlier_saveSentTweets_run. unfold withFiles, withSent.
  cbn [writable sentTweets files telegramService].
  destruct (writable w); reflexivity.
Qed.

End Engine.

Lemma isNewTweet_later sent record :
  RTCleaner.isNewTweet sent record =
  Earlier.isNewTweet sent record && negb (isReply (Text (fields record))).
Proof.
  unfold RTCleaner.isNewTweet, Earlier.isNewTweet. cbv zeta.
  destruct (isRetweet (Text (fields record))); [reflexivity|].
  destruct (isReply (Text (fields record))); [now rewrite andb_false_r|].
  now rewrite andb_true_r.
Qed.

Lemma filter_filter {A} (f g : A -> bool) l :
  List.filter g (List.filter f l) = List.filter (fun x => f x && g x) l.
Proof.
  induction l as [|x l IH]; simpl; [reflexivity|].
  destruct (f x); simpl; [destruct (g x)|]; now rewrite IH.
Qed.

Lemma batch_later sent records :
  List.filter (RTCleaner.isNewTweet sent) records =
  List.filter (fun record => negb (isReply (Text (fields record))))
    (List.filter (Earlier.isNewTweet sent) records).
Proof.
  rewrite filter_filter. apply List.filter_ext. intros r. apply isNewTweet_later.
Qed.

End EarlierFacts.


(** * Further properties *)

Section StageProperties.
Import JsString RegExp Classifier TelegramService RTCleaner Described.
Import ClassifierFacts TextFacts TelegramFacts CleanerFacts.
Import ClassifierMore DeleteFacts StageFacts.

Variable JSON_stringify : list SentTweetTracker -> jsstring.

(** X1: white space before and after a text does not change its
    category: the classifier looks at the trimmed text only. *)
Theorem classify_ignores_padding lead t trail :
  spaces lead -> spaces trail ->
  classify (Some (lead ++ t ++ trail)) = classify (Some t).
Proof.
  intros Hl Ht. unfold classify.
  now rewrite isRetweet_padded, isReply_padded.
Qed.

(** X2: the category of a text does not depend on the case of its
    ASCII letters: the text in lower case, the text in upper case and
    the text with any letters moved to their other case are classified
    as the text itself. *)
Theorem classify_ignores_letter_case t :
  classify (Some (map lowerAscii t)) = classify (Some t) /\
  classify (Some (map upperUnit t)) = classify (Some t) /\
  (forall f, recases f -> classify (Some (map f t)) = classify (Some t)).
Proof.
  assert (H : forall f, recases f -> classify (Some (map f t)) = classify (Some t)).
  { intros f Hf. unfold classify. now rewrite isRetweet_recases, isReply_recases. }
  split; [apply H, recases_lowerAscii|]. split; [apply H, recases_upperUnit | exact H].
Qed.

(** X3: the delete stage hands [table.destroy] the ids of the retweet
    records followed by those of the reply records, in the order of the
    query, cut into batches of ten: every batch holds between one and
    ten ids, every batch but the last holds ten, and every id belongs to
    a fetched record that is not Original. *)
Theorem delete_batches_cover records destroy :
  let batches := fst (deleteRetweetAndReplyRecords (Some records) destroy) in
  concat batches = map id (rtRecords records ++ replyRecords records) /\
  Forall (fun batch => (0 < length batch <= 10)%nat) batches /\
  (forall i batch, batches !! i = Some batch -> (S i < length batches)%nat ->
                   length batch = 10%nat) /\
  (forall x, x ∈ concat batches ->
     exists record, record ∈ records /\ id record = x /\
                    classify (Text (fields record)) <> Original).
Proof.
  cbv zeta. unfold deleteRetweetAndReplyRecords. cbv zeta.
  pose proof (deleteBatches_spec 10 destroy
    (length (rtRecords records ++ replyRecords records))
    (rtRecords records ++ replyRecords records)) as H.
  destruct (deleteBatches 10 destroy _ _) as [batches count].
  destruct H as (Hc & Hall & Hfull & _); [lia | lia |]. cbn [fst].
  split; [exact Hc|]. split; [exact Hall|]. split; [exact Hfull|].
  intros x Hx. rewrite Hc in Hx.
  apply list_elem_of_In, in_map_iff in Hx as (record & <- & Hr).
  apply list_elem_of_In, targeted_not_Original in Hr as [Hr Hn].
  now exists record.
Qed.

(** X4: the count the delete stage reports adds up the sizes of the
    batches [table.destroy] accepted; a batch that fails is left out and
    the batches after it are still tried.  So the count is at most the
    number of targeted ids, equals it when every batch goes through, is
    zero when none does, and a query that fails gives no batch at all. *)
Theorem delete_count_adds_accepted_batches fetched destroy :
  let batches := fst (deleteRetweetAndReplyRecords fetched destroy) in
  let deletedCount := snd (deleteRetweetAndReplyRecords fetched destroy) in
  deletedCount = sum_list (map length (List.filter destroy batches)) /\
  (deletedCount <= length (concat batches))%nat /\
  ((forall batch, batch ∈ batches -> destroy batch = true) ->
   deletedCount = length (concat batches)) /\
  ((forall batch, batch ∈ batches -> destroy batch = false) ->
   deletedCount = 0%nat) /\
  (fetched = None -> batches = [] /\ deletedCount = 0%nat).
Proof.
  cbv zeta. unfold deleteRetweetAndReplyRecords. cbv zeta.
  destruct fetched as [records|].
  - pose proof (deleteBatches_spec 10 destroy
      (length (rtRecords records ++ replyRecords records))
      (rtRecords records ++ replyRecords records)) as H.
    destruct (deleteBatches 10 destroy _ _) as [batches count].
    destruct H as (_ & _ & _ & ->); [lia | lia |]. cbn [fst snd].
    split; [reflexivity|]. split; [apply sum_filter_le|].
    split; [apply sum_filter_all|]. split; [apply sum_filter_none | discriminate].
  - cbn. repeat split; try reflexivity; lia.
Qed.


End StageProperties.

(** X1 on a retweet with a tab and a space before it and a line break
    after it. *)
Lemma classify_padding_scenario :
  Classifier.classify (Some ([9; 32] ++ js "RT @a: hi" ++ [10])%N)
  = Classifier.classify (Some (js "RT @a: hi")).
Proof.
  apply classify_ignores_padding; repeat constructor.
Defined.

Section NotifierProperties.
Import JsString TelegramService Described ClassifierFacts TextFacts TelegramFacts.
Import ClassifierMore RegistryFacts NotifierFacts.

(** X6: [updateChatIds] never throws and only adds: the chats known
    before keep their places, the chats added are those the backlog of
    [getUpdates] names, no chat is listed twice, and nothing else of the
    state changes.  When [getUpdates] rejects the set stays as it was,
    and a second scan of the same backlog changes nothing. *)
Theorem updateChatIds_only_adds bot w cs :
  telegramService w = Some cs -> NoDup cs ->
  exists cs',
    updateChatIds bot w = (Ok tt, withChatIds cs' w) /\
    NoDup cs' /\
    (exists new, cs' = cs ++ new) /\
    (forall c, c ∈ cs' <-> c ∈ cs \/ rediscovers bot c) /\
    (getUpdates bot = None -> cs' = cs) /\
    updateChatIds bot (withChatIds cs' w) = (Ok tt, withChatIds cs' w).
Proof.
  intros H Hnd. exists (discovered bot cs).
  split; [now apply updateChatIds_run|].
  split; [now apply NoDup_discovered|].
  split; [apply discovered_prefix|].
  split; [intros c; apply elem_of_discovered_iff|].
  split; [intros E; unfold discovered; now rewrite E|].
  rewrite (updateChatIds_run bot _ (discovered bot cs)) by reflexivity.
  now rewrite discovered_twice, withChatIds_twice.
Qed.

(** X7: the listeners for [message] and [new_chat_members] register the
    chat of the message: afterwards the chat is known, the other chats
    are as before, and [getChatCount] has grown by one exactly when the
    chat was not known yet; a second message from the chat changes
    nothing. *)
Theorem listener_registers_chat chatId w cs :
  telegramService w = Some cs -> NoDup cs ->
  exists cs',
    noteChat chatId w = (Ok tt, withChatIds cs' w) /\
    NoDup cs' /\
    (forall c, c ∈ cs' <-> c ∈ cs \/ c = chatId) /\
    getChatCount (withChatIds cs' w) =
      (Ok (if JsSet.has cs chatId then length cs else S (length cs)),
       withChatIds cs' w) /\
    noteChat chatId (withChatIds cs' w) = (Ok tt, withChatIds cs' w).
Proof.
  intros H Hnd. exists (JsSet.add cs chatId).
  split; [now apply noteChat_run|].
  split; [now apply NoDup_add|].
  split; [intros c; apply JsSetFacts.elem_of_add|].
  split.
  - unfold getChatCount, chatIds. rewrite !bind_run. unfold get, ret.
    cbn [telegramService withChatIds default]. unfold JsSet.size, JsSet.add.
    destruct (JsSet.has cs chatId); [reflexivity|]. unfold Datatypes.id.
    rewrite length_app. simpl. do 2 f_equal. lia.
  - rewrite (noteChat_run chatId _ (JsSet.add cs chatId)) by reflexivity.
    now rewrite JsSetFacts.add_idempotent, withChatIds_twice.
Qed.

(** X8: a notification of at least one tweet goes once to every chat
    known after the scan of the backlog and to no other: the sends
    started name each such chat exactly once and all carry the message
    of [formatTweetMessage]; the directory and the sent set are not
    touched, and the chats kept afterwards are among those written to,
    without repetition. *)
Theorem fan_out_once_per_chat bot tweets w cs :
  telegramService w = Some cs -> NoDup cs -> tweets <> [] ->
  exists sends w' cs',
    sendTweetNotifications bot tweets w = (Ok sends, w') /\
    NoDup (map fst sends) /\
    (forall c m, (c, m) ∈ sends <->
       m = formatTweetMessage tweets /\ (c ∈ cs \/ rediscovers bot c)) /\
    files w' = files w /\ writable w' = writable w /\
    sentTweets w' = sentTweets w /\
    telegramService w' = Some cs' /\ NoDup cs' /\
    (forall c, c ∈ cs' -> c ∈ map fst sends).
Proof.
  intros H Hnd Hne.
  pose proof (sendTweetNotifications_run bot tweets w cs H Hne) as E.
  cbv zeta in E.
  eexists _, _, _. split; [exact E|].
  assert (Hfst : map fst (map (fun chatId : Z => (chatId, formatTweetMessage tweets))
                              (discovered bot cs)) = discovered bot cs).
  { rewrite map_map. apply map_id. }
  rewrite Hfst.
  split; [now apply NoDup_discovered|].
  split.
  { intros c m. rewrite list_elem_of_In, in_map_iff. split.
    - intros (x & [= <- <-] & Hx). split; [reflexivity|].
      now apply elem_of_discovered_iff, list_elem_of_In.
    - intros [-> Hc]. exists c. split; [reflexivity|].
      now apply list_elem_of_In, elem_of_discovered_iff. }
  split; [reflexivity|]. split; [reflexivity|]. split; [reflexivity|].
  split; [reflexivity|].
  split; [now apply NoDup_settled, NoDup_discovered|].
  intros c Hc. now apply elem_of_settled in Hc as [Hc _].
Qed.

(** X9: [sendTweetNotifications] never throws, and it sends nothing
    exactly when there is no tweet or no chat is known after the scan of
    the backlog; with no tweet it returns before the scan and leaves the
    state as it was. *)
Theorem nothing_sent_iff bot tweets w cs :
  telegramService w = Some cs ->
  exists sends w',
    sendTweetNotifications bot tweets w = (Ok sends, w') /\
    (sends = [] <-> tweets = [] \/ (cs = [] /\ forall c, ~ rediscovers bot c)) /\
    (tweets = [] -> w' = w).
Proof.
  intros H. destruct tweets as [|t tweets].
  - exists [], w. split; [reflexivity|]. split; [|reflexivity].
    split; [now left | reflexivity].
  - pose proof (sendTweetNotifications_run bot (t :: tweets) w cs H) as E.
    cbv zeta in E. rewrite E by discriminate.
    eexists _, _. split; [reflexivity|]. split; [|discriminate].
    split.
    + intros Hs. right. apply map_eq_nil in Hs.
      split.
      * destruct (discovered_prefix bot cs) as [new En]. rewrite Hs in En.
        symmetry in En. now apply app_eq_nil in En as [-> _].
      * intros c Hc. assert (Hin : c ∈ discovered bot cs)
          by (apply elem_of_discovered_iff; now right).
        rewrite Hs in Hin. inversion Hin.
    + intros [[=] | [-> Hno]].
      destruct (discovered bot []) as [|c l] eqn:Ed; [reflexivity|].
      exfalso. assert (Hin : c ∈ discovered bot []) by (rewrite Ed; now left).
      apply elem_of_discovered_iff in Hin as [Hin | Hin]; [inversion Hin|].
      exact (Hno c Hin).
Qed.

(** X10: the message is empty exactly when there is no tweet; otherwise
    it is the header line with the number of tweets and a blank line,
    then the entries in the order of the list: the entry of the first
    tweet follows the header at once, the entry of every tweet is
    followed by one blank line and the entry of the next tweet, and
    nothing follows the entry of the last; the entry of the tweet at
    place [i] carries the number [i + 1]. *)
Theorem message_lists_every_tweet tweets :
  (formatTweetMessage tweets = [] <-> tweets = []) /\
  (forall i tweet,
     tweets !! i = Some tweet ->
     exists pre post,
       formatTweetMessage tweets
         = header (length tweets) ++ pre ++ formatEntry i tweet ++ post /\
       (i = 0%nat -> pre = []) /\
       (S i = length tweets -> post = []) /\
       (forall next,
          tweets !! S i = Some next ->
          exists post', post = [10; 10]%N ++ formatEntry (S i) next ++ post')).
Proof.
  split.
  - split; [|now intros ->].
    intros E. destruct tweets as [|t tweets]; [reflexivity|].
    now apply (formatTweetMessage_nonempty (t :: tweets)) in E.
  - intros i tweet Hi.
    assert (Hpart : imap formatEntry tweets !! i = Some (formatEntry i tweet)).
    { rewrite list_lookup_imap, Hi. reflexivity. }
    destruct (join_at [10; 10]%N (imap formatEntry tweets) i _ Hpart)
      as (pre & post & E & Hfirst & Hlast & Hnext).
    exists pre, post.
    split; [|split; [exact Hfirst|split]].
    + destruct tweets as [|t0 tweets]; [discriminate Hi|].
      unfold formatTweetMessage, header. cbv zeta. rewrite E.
      generalize (decimal (length (t0 :: tweets))) (formatEntry i tweet).
      intros d e. rewrite <- !app_assoc. reflexivity.
    + intros Hl. apply Hlast. now rewrite length_imap.
    + intros next Hn. apply Hnext. rewrite list_lookup_imap, Hn. reflexivity.
Qed.

(** X11: for every budget, the text [truncateText] returns has at most
    that many code units and occurs in the text; a text within the
    budget is returned as it is, and shortening a second time changes
    nothing. *)
Theorem truncateText_within_budget text n :
  (length (truncateText text n) <= n)%nat /\
  Contains (truncateText text n) text /\
  ((length text <= n)%nat -> truncateText text n = text) /\
  truncateText (truncateText text n) n = truncateText text n.
Proof.
  split; [apply truncateText_length|]. split; [apply truncateText_Contains|].
  split; [apply truncateText_short|].
  apply truncateText_short, truncateText_length.
Qed.

(** X12: when every comma-separated entry of [TELEGRAM_CHAT_IDS] that
    denotes a number denotes one of magnitude at most 2^53 (which a
    double holds exactly), [loadManualChatIds] never throws and adds to
    the known chats the numbers [parseInt] reads from the entries, each
    trimmed; entries that give [NaN] are skipped, no chat is listed
    twice, the chats known before keep their places, and every chat
    added is within that range.  With the variable unset or empty
    nothing changes.  The entries are the pieces between the commas:
    none holds a comma, and joined by commas they give the value back. *)
Theorem manual_chat_ids_loaded env w cs :
  (forall manualChatIds entry,
     env = Some manualChatIds -> entry ∈ splitOn 44 manualChatIds ->
     parseInt (trim entry) <> Beyond) ->
  telegramService w = Some cs -> NoDup cs ->
  exists load cs',
    loadManualChatIds env = Some load /\
    load w = (Ok tt, withChatIds cs' w) /\
    NoDup cs' /\
    (exists new, cs' = cs ++ new) /\
    (forall c, c ∈ cs' <->
       c ∈ cs \/
       exists manualChatIds entry,
         env = Some manualChatIds /\ entry ∈ splitOn 44 manualChatIds /\
         parseInt (trim entry) = Int c) /\
    (forall c, c ∈ cs' -> c ∈ cs \/ (- 2 ^ 53 <= c <= 2 ^ 53)%Z) /\
    (env = None \/ env = Some [] -> cs' = cs) /\
    (forall manualChatIds, env = Some manualChatIds ->
       join [44%N] (splitOn 44 manualChatIds) = manualChatIds /\
       forall entry, entry ∈ splitOn 44 manualChatIds -> 44%N ∉ entry).
Proof.
  intros Hsafe H Hnd.
  assert (Hlast : forall manualChatIds, env = Some manualChatIds ->
     join [44%N] (splitOn 44 manualChatIds) = manualChatIds /\
     forall entry, entry ∈ splitOn 44 manualChatIds -> 44%N ∉ entry).
  { intros s _. split; [apply join_split | intros entry; apply splitOn_no_sep]. }
  assert (Hidle : forall cs0 : list Z, cs0 = cs ->
    ret tt w = (Ok tt, withChatIds cs0 w)).
  { intros cs0 ->. unfold ret. now rewrite withChatIds_same. }
  destruct env as [[|c0 s]|].
  - exists (ret tt), cs. split; [reflexivity|]. split; [now apply Hidle|].
    split; [assumption|]. split; [exists []; now rewrite app_nil_r|].
    split; [|split; [auto | split; [reflexivity | exact Hlast]]].
    intros c. split; [now left|].
    intros [Hc | (s & entry & [= <-] & He & Hp)]; [assumption|].
    apply list_elem_of_singleton in He. subst entry. discriminate Hp.
  - set (numbers := List.filter (fun id => negb (isNaN id))
                      (map (fun id => parseInt (trim id)) (splitOn 44 (c0 :: s)))).
    assert (Hsome : is_Some (mapM exact numbers)).
    { apply mapM_exact_safe. intros x Hx.
      apply list_elem_of_In, List.filter_In in Hx as [Hx Hn].
      apply in_map_iff in Hx as (entry & <- & He).
      split; [|now apply negb_true_iff in Hn].
      apply (Hsafe (c0 :: s) entry eq_refl). now apply list_elem_of_In. }
    destruct Hsome as [ids Hids].
    pose proof (mapM_exact _ _ Hids) as Eids.
    eexists _, (foldl JsSet.add cs ids).
    split; [unfold loadManualChatIds; fold numbers; rewrite Hids; reflexivity|].
    split; [now apply forEach_add|].
    split; [now apply NoDup_foldl_add|].
    split; [apply foldl_add_prefix|].
    assert (Hin : forall c, c ∈ foldl JsSet.add cs ids <->
       c ∈ cs \/
       exists manualChatIds entry,
         Some (c0 :: s) = Some manualChatIds /\ entry ∈ splitOn 44 manualChatIds /\
         parseInt (trim entry) = Int c).
    { intros c. rewrite JsSetFacts.elem_of_foldl_add. apply or_iff_compat_l.
      rewrite Eids. unfold numbers. rewrite elem_of_numbers. split.
      - intros (entry & He & Hp). now exists (c0 :: s), entry.
      - intros (s' & entry & [= <-] & He & Hp). now exists entry. }
    split; [exact Hin|].
    split; [|split; [intros [[=]|[=]] | exact Hlast]].
    intros c Hc. apply Hin in Hc as [Hc | (s' & entry & _ & _ & Hp)]; [now left|].
    right. now apply parseInt_Int_bound in Hp.
  - exists (ret tt), cs. split; [reflexivity|]. split; [now apply Hidle|].
    split; [assumption|]. split; [exists []; now rewrite app_nil_r|].
    split; [|split; [auto | split; [reflexivity | exact Hlast]]].
    intros c. split; [now left|].
    intros [Hc | (s & entry & [=] & _)]. assumption.
Qed.

End NotifierProperties.
Section TrackerProperties.
Import JsString RegExp Classifier TelegramService RTCleaner Described.
Import ClassifierFacts TextFacts TelegramFacts CleanerFacts ArchiveFacts LoadFacts.
Import RegistryFacts StageFacts TrackerFacts.

Variable JSON_parse : jsstring -> option (list SentTweetTracker).
Variable JSON_stringify : list SentTweetTracker -> jsstring.
Variable byteLength : jsstring -> N.
Variable toISOString : Z -> jsstring.

Local Abbreviation flushed := (Described.flushed JSON_stringify).
Local Abbreviation rotated := (Described.rotated toISOString).

(** X13: [saveSentTweets] never throws and changes nothing but the
    sent-tweets file; in a directory that cannot be written it changes
    nothing at all.  The table it writes lists every id of the sent set
    once, in order, each stamped with the time of the save, whenever
    the id was added: every save renews the date of every id still in
    memory, so its own filter on the date drops nothing. *)
Theorem save_restamps_every_id now w :
  exists w',
    saveSentTweets JSON_stringify now w = (Ok tt, w') /\
    sentTweets w' = sentTweets w /\ telegramService w' = telegramService w /\
    writable w' = writable w /\
    (forall name, name <> sentTweetsFile -> files w' !! name = files w !! name) /\
    (writable w = false -> w' = w) /\
    (writable w = true ->
     files w' !! sentTweetsFile =
       Some {| data := JSON_stringify (tableAt now (sentTweets w));
               readable := true |}) /\
    map recordId (tableAt now (sentTweets w)) = sentTweets w /\
    Forall (fun entry => sentAt entry = Some now) (tableAt now (sentTweets w)).
Proof.
  rewrite saveSentTweets_run. eexists. split; [reflexivity|].
  destruct (writable w) eqn:Hw; cbn [sentTweets telegramService writable files withFiles].
  - repeat split; try assumption.
    + intros name Hn. now rewrite lookup_insert_ne by congruence.
    + discriminate.
    + intros _. apply lookup_insert_eq.
    + apply tableAt_ids.
    + apply tableAt_stamps.
  - repeat split; try assumption.
    + discriminate.
    + apply tableAt_ids.
    + apply tableAt_stamps.
Qed.

(** X14: what is saved is loaded back: when [JSON.parse] reads back the
    table that [JSON.stringify] wrote and the file stays under the
    rotation threshold, a load less than six hours after a save in a
    writable directory gives the sent set that was saved. *)
Theorem saved_set_is_loaded_back now now' w :
  JSON_parse (JSON_stringify (tableAt now (sentTweets w)))
    = Some (tableAt now (sentTweets w)) ->
  byteLength (JSON_stringify (tableAt now (sentTweets w))) <= rotateThreshold ->
  writable w = true -> NoDup (sentTweets w) ->
  (now' - sixHours < now)%Z ->
  forall telegram,
    sentTweets
      (construct JSON_parse JSON_stringify byteLength toISOString
         (files (snd (saveSentTweets JSON_stringify now w))) true telegram now')
    = sentTweets w.
Proof.
  intros Hjson Hsize Hw Hnd Hwin telegram.
  rewrite saveSentTweets_run, Hw. cbn [snd files withFiles].
  unfold construct.
  rewrite (loadSentTweets_reads JSON_parse JSON_stringify byteLength toISOString
             now' _ (flushed now (sentTweets w)) (tableAt now (sentTweets w))).
  - rewrite recent_after by assumption. rewrite tableAt_ids.
    now apply ofArray_NoDup.
  - cbn [files]. apply lookup_insert_eq.
  - exact Hsize.
  - reflexivity.
  - exact Hjson.
Qed.

(** X15: the sent set never lists an id twice: not after the load of
    the constructor, whatever the file holds (entries with the same id
    are merged), and not after a cycle of [sendNewTweets], whatever the
    query returns; so the table a save writes has one entry for an id. *)
Theorem sent_set_without_repetition :
  (forall dir canWrite telegram now,
     NoDup (sentTweets
       (construct JSON_parse JSON_stringify byteLength toISOString
          dir canWrite telegram now))) /\
  (forall bot fetched now w,
     NoDup (sentTweets w) ->
     NoDup (sentTweets (snd (sendNewTweets JSON_stringify bot fetched now w)))) /\
  (forall now sent, NoDup sent -> NoDup (map recordId (tableAt now sent))).
Proof.
  split; [|split].
  - intros dir canWrite telegram now. unfold construct.
    destruct (loadSentTweets_any JSON_parse JSON_stringify byteLength toISOString now
                {| files := dir; writable := canWrite; sentTweets := [];
                   telegramService := telegram |})
      as (w' & E & _ & _ & Hw').
    rewrite E. cbn [snd].
    destruct Hw' as [[_ ->] | [-> | (f & entries & _ & _ & _ & ->)]];
      cbn [sentTweets]; try constructor.
    apply NoDup_ofArray.
  - intros bot fetched now w Hnd.
    destruct (telegramService w) as [cs|] eqn:Hs.
    + destruct fetched as [records|].
      * rewrite (sendNewTweets_run JSON_stringify bot records now w cs Hs). cbv zeta.
        destruct (List.filter (isNewTweet (sentTweets w)) records) as [|r batch];
          [assumption|].
        cbn [snd]. unfold Described.afterDispatch. cbn [sentTweets].
        now apply NoDup_foldl_add.
      * now rewrite sendNewTweets_unanswered.
    + now rewrite sendNewTweets_unconfigured.
  - intros now sent Hnd. now rewrite tableAt_ids.
Qed.

(** X16: the load of a file under the rotation threshold that can be
    read and parsed: the sent set becomes the ids of the entries of the
    last six hours, and the file is written again, with those ids
    stamped with the time of the load, only when more than half of the
    entries had expired (and the directory can be written); otherwise
    the directory stays as it was. *)
Theorem load_rewrites_when_mostly_expired now w f entries :
  files w !! sentTweetsFile = Some f ->
  byteLength (data f) <= rotateThreshold -> readable f = true ->
  JSON_parse (data f) = Some entries ->
  let valid := List.filter (recent now) entries in
  let ids := JsSet.ofArray (map recordId valid) in
  loadSentTweets JSON_parse JSON_stringify byteLength toISOString now w =
  (Ok tt,
   withFiles
     (if (2 * length valid <? length entries)%nat && writable w
      then <[sentTweetsFile := flushed now ids]> (files w)
      else files w)
     (withSent ids w)).
Proof.
  intros Hf Hsize Hr Hp. cbv zeta.
  rewrite (loadSentTweets_small _ _ _ _ now w f Hf Hsize). unfold tryCatch.
  now rewrite (readTable_reads JSON_parse JSON_stringify now w f entries Hf Hr Hp).
Qed.

(** X17: [sendNewTweets] never throws, and it leaves the state as it
    was, dispatches nothing and writes nothing when the Telegram service
    is not configured, when the query fails, or when no fetched record
    is new. *)
Theorem idle_cycle_changes_nothing bot now w :
  (forall fetched, exists batch sends w',
     sendNewTweets JSON_stringify bot fetched now w = (Ok (batch, sends), w')) /\
  sendNewTweets JSON_stringify bot None now w = (Ok ([], []), w) /\
  (telegramService w = None ->
   forall fetched,
     sendNewTweets JSON_stringify bot fetched now w = (Ok ([], []), w)) /\
  (forall records,
     (forall record, record ∈ records -> isNewTweet (sentTweets w) record = false) ->
     sendNewTweets JSON_stringify bot (Some records) now w = (Ok ([], []), w)).
Proof.
  split; [|split; [|split]].
  - intros fetched. destruct (telegramService w) as [cs|] eqn:Hs.
    + destruct fetched as [records|].
      * rewrite (sendNewTweets_run JSON_stringify bot records now w cs Hs). cbv zeta.
        destruct (List.filter (isNewTweet (sentTweets w)) records);
          eexists _, _, _; reflexivity.
      * rewrite sendNewTweets_unanswered. eexists _, _, _; reflexivity.
    + rewrite sendNewTweets_unconfigured by assumption. eexists _, _, _; reflexivity.
  - apply sendNewTweets_unanswered.
  - intros Hs fetched. now apply sendNewTweets_unconfigured.
  - intros records Hnone. destruct (telegramService w) as [cs|] eqn:Hs.
    + rewrite (sendNewTweets_run JSON_stringify bot records now w cs Hs). cbv zeta.
      destruct (List.filter (isNewTweet (sentTweets w)) records) as [|r batch] eqn:Eb;
        [reflexivity|].
      assert (Hr : r ∈ List.filter (isNewTweet (sentTweets w)) records)
        by (rewrite Eb; now left).
      apply elem_of_List_filter in Hr as [Hr Hnew].
      rewrite (Hnone r Hr) in Hnew. discriminate.
    + now apply sendNewTweets_unconfigured.
Qed.

(** X18: a rotation never throws and touches only the directory: the
    files that are neither the sent-tweets file, nor the new archive,
    nor named like an archive stay as they were, and no file appears
    but the new archive; when the directory cannot be written or holds
    no sent-tweets file, nothing changes and no old archive is
    removed. *)
Theorem rotation_touches_only_archives now w :
  exists dir,
    rotateSentTweetsFile toISOString now w = (Ok tt, withFiles dir w) /\
    (forall name,
       name <> sentTweetsFile -> name <> archiveFileAt toISOString now ->
       test archivePattern name = false ->
       dir !! name = files w !! name) /\
    (forall name, is_Some (dir !! name) ->
       name = archiveFileAt toISOString now \/ is_Some (files w !! name)) /\
    (writable w = false \/ files w !! sentTweetsFile = None -> dir = files w).
Proof.
  destruct (files w !! sentTweetsFile) as [f|] eqn:Hf.
  - destruct (writable w) eqn:Hw.
    + exists (rotated now f (files w)).
      split; [now apply rotateSentTweetsFile_run|].
      split; [intros name; apply rotated_other|].
      split; [intros name; apply rotated_present|].
      intros [[=]|[=]].
    + exists (files w).
      split; [rewrite rotateSentTweetsFile_refused by auto; now rewrite withFiles_same|].
      split; [reflexivity|]. split; [now right | reflexivity].
  - exists (files w).
    split; [rewrite rotateSentTweetsFile_refused by auto; now rewrite withFiles_same|].
    split; [reflexivity|]. split; [now right | reflexivity].
Qed.

End TrackerProperties.
Section EarlierProperties.
Import JsString RegExp Classifier TelegramService RTCleaner Described.
Import ClassifierFacts TextFacts TelegramFacts CleanerFacts ArchiveFacts LoadFacts.
Import RegistryFacts StageFacts DeleteFacts TrackerFacts EarlierFacts.

Variable JSON_parse : jsstring -> option (list SentTweetTracker).
(** [JSON.stringify(data, null, 2)] of the earlier version and
    [JSON.stringify(data)] of the later one. *)
Variable JSON_stringify_indented : list SentTweetTracker -> jsstring.
Variable JSON_stringify : list SentTweetTracker -> jsstring.
Variable byteLength : jsstring -> N.
Variable toISOString : Z -> jsstring.

(** X19: the reply filter is the whole difference between the batches
    of the two versions: from the same state and the same answer of the
    query, both versions of [sendNewTweets] return normally, and the
    batch of the later one is the batch of the earlier one without the
    records [isReply] accepts, in the same order. *)
Theorem later_batch_drops_the_replies bot bot' fetched now now' w :
  exists batch sends w1 batch' sends' w2,
    Earlier.sendNewTweets JSON_stringify_indented bot fetched now w
      = (Ok (batch, sends), w1) /\
    RTCleaner.sendNewTweets JSON_stringify bot' fetched now' w
      = (Ok (batch', sends'), w2) /\
    batch' = List.filter (fun record => negb (isReply (Text (fields record)))) batch /\
    (forall record,
       record ∈ batch <->
       exists records,
         fetched = Some records /\ is_Some (telegramService w) /\
         record ∈ records /\ isRetweet (Text (fields record)) = false /\
         truthy (Text (fields record)) = true /\ id record ∉ sentTweets w).
Proof.
  destruct (telegramService w) as [cs|] eqn:Hs.
  - destruct fetched as [records|].
    + rewrite (earlier_sendNewTweets_run JSON_stringify_indented bot records now w cs Hs).
      rewrite (sendNewTweets_run JSON_stringify bot' records now' w cs Hs).
      cbv zeta. rewrite (batch_later (sentTweets w) records).
      assert (Hin : forall record,
        record ∈ List.filter (Earlier.isNewTweet (sentTweets w)) records <->
        exists records0,
          Some records = Some records0 /\ is_Some (Some cs) /\
          record ∈ records0 /\ isRetweet (Text (fields record)) = false /\
          truthy (Text (fields record)) = true /\ id record ∉ sentTweets w).
      { intros record. rewrite elem_of_List_filter. unfold Earlier.isNewTweet.
        cbv zeta. split.
        - intros [Hr Hn]. exists records. split; [reflexivity|]. split; [eauto|].
          split; [assumption|].
          destruct (isRetweet (Text (fields record))); [discriminate|].
          apply andb_true_iff in Hn as [Hn Ht]. split; [reflexivity|].
          split; [assumption|].
          apply negb_true_iff in Hn. rewrite <- JsSetFacts.has_true. congruence.
        - intros (records0 & [= <-] & _ & Hr & Hrt & Ht & Hn). split; [assumption|].
          rewrite Hrt, Ht, andb_true_r. apply negb_true_iff.
          apply not_true_iff_false. now rewrite JsSetFacts.has_true. }
      destruct (List.filter (Earlier.isNewTweet (sentTweets w)) records)
        as [|r batch] eqn:Eb.
      * eexists [], [], w, [], [], w. repeat split; try reflexivity; apply Hin.
      * destruct (List.filter _ (r :: batch)) as [|r' batch'] eqn:Eb';
          eexists _, _, _, _, _, _;
          (split; [reflexivity|]); (split; [reflexivity|]);
          (split; [now rewrite Eb' | exact Hin]).
    + rewrite earlier_sendNewTweets_idle by auto.
      rewrite sendNewTweets_unanswered.
      eexists [], [], w, [], [], w. repeat split; try reflexivity.
      * intros Hr. inversion Hr.
      * intros (? & [=] & _).
  - rewrite earlier_sendNewTweets_idle by auto.
    rewrite sendNewTweets_unconfigured by assumption.
    eexists [], [], w, [], [], w. repeat split; try reflexivity.
    + intros Hr. inversion Hr.
    + intros (? & _ & [? [=]] & _).
Qed.

(** X20: the earlier delete stage targets the retweet records only, in
    batches of at most ten, and the later one targets the same ids
    first and the ids of the reply records after them. *)
Theorem later_delete_extends_earlier fetched destroy destroy' :
  let batches := fst (Earlier.deleteRetweetRecords fetched destroy) in
  let batches' := fst (RTCleaner.deleteRetweetAndReplyRecords fetched destroy') in
  concat batches = map id (rtRecords (default [] fetched)) /\
  concat batches' = concat batches ++ map id (replyRecords (default [] fetched)) /\
  Forall (fun batch => (0 < length batch <= 10)%nat) batches /\
  snd (Earlier.deleteRetweetRecords fetched destroy)
    = sum_list (map length (List.filter destroy batches)) /\
  (forall x, x ∈ concat batches ->
     exists record, record ∈ default [] fetched /\ id record = x /\
                    classify (Text (fields record)) = Retweet).
Proof.
  cbv zeta. destruct fetched as [records|].
  2: { cbn. repeat split; try constructor. intros x Hx. inversion Hx. }
  cbn [default from_option Datatypes.id].
  assert (E : Earlier.deleteRetweetRecords (Some records) destroy
              = deleteBatches 10 destroy (length (rtRecords records)) (rtRecords records)).
  { unfold Earlier.deleteRetweetRecords. cbv zeta. fold (rtRecords records).
    destruct (rtRecords records); reflexivity. }
  rewrite E.
  pose proof (deleteBatches_spec 10 destroy (length (rtRecords records))
                (rtRecords records)) as H.
  destruct (deleteBatches 10 destroy _ (rtRecords records)) as [batches count].
  destruct H as (Hc & Hall & _ & Hcount); [lia | lia |]. cbn [fst snd].
  rewrite (targets_concat records destroy'), Hc, map_app.
  split; [reflexivity|]. split; [reflexivity|]. split; [exact Hall|].
  split; [exact Hcount|].
  intros x Hx. apply list_elem_of_In, in_map_iff in Hx as (record & <- & Hr).
  apply list_elem_of_In in Hr. unfold rtRecords in Hr.
  apply elem_of_List_filter in Hr as [Hr Hrt].
  exists record. split; [assumption|]. split; [reflexivity|].
  unfold classify. now rewrite Hrt.
Qed.

(** X21: the load of the earlier version never throws.  From a file
    that can be read and parsed it takes the ids of the entries of the
    last day and writes the file again at once, each id stamped with the
    time of the load; with no file, or one that cannot be read or
    parsed, it leaves the state as it was (the later version empties the
    sent set there). *)
Theorem earlier_load_keeps_a_day now w :
  exists w',
    Earlier.loadSentTweets JSON_parse JSON_stringify_indented now w = (Ok tt, w') /\
    writable w' = writable w /\ telegramService w' = telegramService w /\
    (forall f entries,
       files w !! sentTweetsFile = Some f -> readable f = true ->
       JSON_parse (data f) = Some entries ->
       sentTweets w' = JsSet.ofArray (map recordId (List.filter (recentDay now) entries)) /\
       (writable w = true ->
        files w' !! sentTweetsFile =
          Some {| data := JSON_stringify_indented (tableAt now (sentTweets w'));
                  readable := true |})) /\
    ((forall f, files w !! sentTweetsFile = Some f ->
                readable f = false \/ JSON_parse (data f) = None) ->
     w' = w).
Proof.
  rewrite earlier_loadSentTweets_run. eexists. split; [reflexivity|].
  destruct (files w !! sentTweetsFile) as [f|] eqn:Hf.
  2: { repeat split; try reflexivity; intros; discriminate. }
  destruct (readable f) eqn:Hr.
  2: { repeat split; try reflexivity; intros; congruence. }
  destruct (JSON_parse (data f)) as [entries|] eqn:Hp.
  2: { repeat split; try reflexivity; intros; congruence. }
  cbv zeta. cbn [writable telegramService sentTweets files withFiles withSent].
  split; [reflexivity|]. split; [reflexivity|]. split.
  - intros f' entries' [= <-] _ Hp'. rewrite Hp in Hp'. injection Hp' as <-.
    split; [reflexivity|]. intros ->. apply lookup_insert_eq.
  - intros Hbad. destruct (Hbad f eq_refl); congruence.
Qed.

(** X22: the later version remembers no more than the earlier one: from
    the same directory at the same time, every id in the sent set the
    later constructor builds is in the sent set the earlier one builds. *)
Theorem later_window_within_earlier dir canWrite telegram now recId :
  recId ∈ sentTweets
    (RTCleaner.construct JSON_parse JSON_stringify byteLength toISOString
       dir canWrite telegram now) ->
  recId ∈ sentTweets
    (Earlier.construct JSON_parse JSON_stringify_indented dir canWrite telegram now).
Proof.
  unfold RTCleaner.construct, Earlier.construct.
  destruct (loadSentTweets_any JSON_parse JSON_stringify byteLength toISOString now
              {| files := dir; writable := canWrite; sentTweets := [];
                 telegramService := telegram |})
    as (w' & E & _ & _ & Hw').
  rewrite E. cbn [snd].
  destruct Hw' as [[_ ->] | [-> | (f & entries & Hf & Hr & Hp & ->)]];
    cbn [sentTweets files] in *;
    [intros H; inversion H | intros H; inversion H |].
  rewrite earlier_loadSentTweets_run. cbn [snd files]. rewrite Hf, Hr, Hp.
  cbv zeta. cbn [sentTweets withFiles withSent].
  rewrite !JsSetFacts.elem_of_ofArray, !list_elem_of_In, !in_map_iff.
  intros (entry & Hid & Hin). exists entry. split; [assumption|].
  apply List.filter_In in Hin as [Hin Hrec]. apply List.filter_In.
  split; [assumption | now apply recent_recentDay].
Qed.

End EarlierProperties.

(** X22 on the directory of the scenario, whose only entry is five
    minutes old. *)
Lemma shared_window_scenario :
  js "3" ∈ sentTweets
    (Earlier.construct Sample.parse Sample.stringify Sample.oneEntry true None
       300000%Z).
Proof.
  apply (later_window_within_earlier Sample.parse Sample.stringify Sample.stringify
           Sample.mebibytes Sample.isoString Sample.oneEntry true None 300000%Z).
  vm_compute. apply list_elem_of_here.
Defined.

(** ** Scenarios for the further properties *)

(** X6 on a cleaner that knows chat 7, with a backlog that names chat 7
    and channel -1001. *)
Lemma backlog_scan_scenario :
  exists cs',
    TelegramService.updateChatIds Sample.backlogBot Sample.fresh
      = (Ok tt, Described.withChatIds cs' Sample.fresh) /\
    NoDup cs' /\ (exists new, cs' = [7%Z] ++ new) /\
    (forall c, c ∈ cs' <-> c ∈ [7%Z] \/ Described.rediscovers Sample.backlogBot c).
Proof.
  destruct (updateChatIds_only_adds Sample.backlogBot Sample.fresh [7%Z])
    as (cs' & E & Hnd & Hpre & Hiff & _).
  - reflexivity.
  - apply (bool_decide_unpack _). vm_compute. exact I.
  - exists cs'. auto.
Defined.

(** X7: a message from chat 8 reaches a cleaner that knows chat 7. *)
Lemma new_chat_scenario :
  exists cs',
    TelegramService.noteChat 8%Z Sample.fresh
      = (Ok tt, Described.withChatIds cs' Sample.fresh) /\
    TelegramService.getChatCount (Described.withChatIds cs' Sample.fresh)
      = (Ok 2%nat, Described.withChatIds cs' Sample.fresh).
Proof.
  destruct (listener_registers_chat 8%Z Sample.fresh [7%Z])
    as (cs' & E & _ & _ & Hcount & _).
  - reflexivity.
  - apply (bool_decide_unpack _). vm_compute. exact I.
  - exists cs'. split; [exact E | exact Hcount].
Defined.

(** X8: one tweet, a cleaner that knows chat 7 and the backlog of the
    scenario. *)
Lemma fan_out_scenario :
  exists sends w' cs',
    TelegramService.sendTweetNotifications Sample.backlogBot
      [Sample.tweet "hello world"] Sample.fresh = (Ok sends, w') /\
    NoDup (map fst sends) /\
    sentTweets w' = sentTweets Sample.fresh /\
    telegramService w' = Some cs' /\ NoDup cs'.
Proof.
  destruct (fan_out_once_per_chat Sample.backlogBot [Sample.tweet "hello world"]
              Sample.fresh [7%Z])
    as (sends & w' & cs' & E & Hnd & _ & _ & _ & Hs & Ht & Hnd' & _).
  - reflexivity.
  - apply (bool_decide_unpack _). vm_compute. exact I.
  - discriminate.
  - exists sends, w', cs'. auto.
Defined.

(** X9: no tweet, so nothing is sent, with chats known. *)
Lemma empty_batch_scenario :
  exists sends w',
    TelegramService.sendTweetNotifications Sample.backlogBot [] Sample.fresh
      = (Ok sends, w') /\
    w' = Sample.fresh.
Proof.
  destruct (nothing_sent_iff Sample.backlogBot [] Sample.fresh [7%Z])
    as (sends & w' & E & _ & Hsame).
  - reflexivity.
  - exists sends, w'. split; [exact E | now apply Hsame].
Defined.

(** X12 on a value with padded, repeated and unreadable entries. *)
Lemma manual_chat_ids_scenario :
  exists load cs',
    TelegramService.loadManualChatIds (Some (js "123, -100200 ,abc,,123"))
      = Some load /\
    load Sample.fresh = (Ok tt, Described.withChatIds cs' Sample.fresh) /\
    NoDup cs' /\ (exists new, cs' = [7%Z] ++ new).
Proof.
  destruct (manual_chat_ids_loaded (Some (js "123, -100200 ,abc,,123"))
              Sample.fresh [7%Z])
    as (load & cs' & El & E & Hnd & Hpre & _).
  - intros manualChatIds entry [= <-] He. vm_compute in He.
    repeat (apply elem_of_cons in He as [-> | He]; [vm_compute; discriminate|]).
    inversion He.
  - reflexivity.
  - apply (bool_decide_unpack _). vm_compute. exact I.
  - exists load, cs'. auto.
Defined.

(** The safe range ends at 2^53: the next integer is not held exactly
    (the engine stores 9007199254740992 for it), and the model stops
    there. *)
Example parseInt_at_the_safe_bound :
  TelegramService.parseInt (js "9007199254740992")
    = TelegramService.Int 9007199254740992 /\
  TelegramService.parseInt (js "-9007199254740992")
    = TelegramService.Int (-9007199254740992) /\
  TelegramService.parseInt (js "9007199254740993") = TelegramService.Beyond /\
  TelegramService.parseInt (js "0x20000000000001") = TelegramService.Beyond /\
  TelegramService.parseInt (js "12abc") = TelegramService.Int 12 /\
  TelegramService.parseInt (js "abc") = TelegramService.NaN /\
  TelegramService.loadManualChatIds (Some (js "7,9007199254740993")) = None.
Proof. repeat split; vm_compute; reflexivity. Qed.

(** X14: the state of the first cycle is saved at time 0 and loaded a
    second later. *)
Lemma save_and_load_scenario :
  sentTweets
    (RTCleaner.construct Sample.parse Sample.stringify Sample.mebibytes
       Sample.isoString
       (files (snd (RTCleaner.saveSentTweets Sample.stringify 0%Z
                      Sample.afterFirstCycle)))
       true None 1000%Z)
  = sentTweets Sample.afterFirstCycle.
Proof.
  apply (saved_set_is_loaded_back Sample.parse Sample.stringify Sample.mebibytes
           Sample.isoString 0%Z 1000%Z Sample.afterFirstCycle).
  - vm_compute. reflexivity.
  - vm_compute. discriminate.
  - vm_compute. reflexivity.
  - apply (bool_decide_unpack _). vm_compute. exact I.
  - vm_compute. reflexivity.
Defined.

(** X16: the only entry of the file is seven hours old, so the sent
    set is empty and the file is written again, empty. *)
Lemma stale_file_scenario :
  RTCleaner.loadSentTweets Sample.parse Sample.stringify Sample.mebibytes
    Sample.isoString 25200000%Z Sample.starting
  = (Ok tt,
     Described.withFiles
       (<[RTCleaner.sentTweetsFile :=
            Described.flushed Sample.stringify 25200000%Z []]> Sample.oneEntry)
       (Described.withSent [] Sample.starting)).
Proof.
  apply (load_rewrites_when_mostly_expired Sample.parse Sample.stringify
           Sample.mebibytes Sample.isoString 25200000%Z Sample.starting
           {| data := js "[{...}]"; readable := true |}
           [{| recordId := js "3"; sentAt := Some 0%Z |}]).
  - vm_compute. reflexivity.
  - vm_compute. discriminate.
  - reflexivity.
  - reflexivity.
Defined.
